(** * libcloud.common.base: transport core

    A shallow embedding of [libcloud/common/base.py]: the response classes
    ([Response], [JsonResponse], [XmlResponse], [RawResponse]), the
    [Connection.request] pipeline with [_retryable_request] and
    [morph_action_hook], [PollingConnection.async_request], and around
    them [LazyObject], [HTTPResponse.read], the construction of a
    connection ([Connection.__init__], [_tuple_from_url], [connect]) and
    of a driver ([BaseDriver.__init__]).

    Python [str] values are [string]s, [dict]s are insertion-ordered
    association lists living in a store of objects (so that aliasing between
    the caller's mappings and the connection's copies is visible), exceptions
    are values of [exn] threaded through a state-and-error monad. *)

From Stdlib Require Import String Ascii List ZArith Bool Lia DecimalString.
From stdpp Require Import gmap strings list.
Import ListNotations.

Local Open Scope string_scope.
Local Open Scope list_scope.

(* stdpp freezes [String.append]; the proofs below compute with it. *)
#[local] Arguments String.append !s1 s2 : simpl nomatch.

(** ** Python string primitives used by the module *)

Module PyStr.

(** [s.lstrip(ch)] for a one-character strip set. *)
Fixpoint lstrip (ch : ascii) (s : string) : string :=
  match s with
  | EmptyString => EmptyString
  | String c r => if Ascii.eqb c ch then lstrip ch r else s
  end.

(** [s.rstrip(ch)] for a one-character strip set. *)
Fixpoint rstrip (ch : ascii) (s : string) : string :=
  match s with
  | EmptyString => EmptyString
  | String c r =>
      let r' := rstrip ch r in
      if Ascii.eqb c ch && String.eqb r' "" then "" else String c r'
  end.

(** [s.split(sep)] for a one-character separator: never the empty list. *)
Fixpoint split (sep : ascii) (s : string) : list string :=
  match s with
  | EmptyString => [""]
  | String c r =>
      if Ascii.eqb c sep then "" :: split sep r
      else match split sep r with
           | h :: t => String c h :: t
           | [] => [String c ""]
           end
  end.

(** [sep.join(l)]. *)
Fixpoint join (sep : string) (l : list string) : string :=
  match l with
  | [] => ""
  | x :: r => match r with
              | [] => x
              | _ => x +:+ sep +:+ join sep r
              end
  end.

(** [ch in s]. *)
Fixpoint contains (ch : ascii) (s : string) : bool :=
  match s with
  | EmptyString => false
  | String c r => Ascii.eqb c ch || contains ch r
  end.

(** [s.startswith(p)]. *)
Fixpoint startswith (p s : string) : bool :=
  match p with
  | EmptyString => true
  | String a p' =>
      match s with
      | EmptyString => false
      | String b s' => Ascii.eqb a b && startswith p' s'
      end
  end.

(** [s.endswith(ch)] for one character. *)
Fixpoint endswith (ch : ascii) (s : string) : bool :=
  match s with
  | EmptyString => false
  | String c EmptyString => Ascii.eqb c ch
  | String _ r => endswith ch r
  end.

(** Truthiness of a string: non-empty. *)
Definition truthy (s : string) : bool := negb (String.eqb s "").

(** Number of occurrences of a character. *)
Fixpoint count (ch : ascii) (s : string) : nat :=
  match s with
  | EmptyString => 0
  | String c r => (if Ascii.eqb c ch then 1 else 0) + count ch r
  end.

(** The string has two adjacent occurrences of [ch]. *)
Fixpoint doubled (ch : ascii) (s : string) : bool :=
  match s with
  | String c ((String d _) as r) => (Ascii.eqb c ch && Ascii.eqb d ch) || doubled ch r
  | _ => false
  end.

(** The string consists of the character [ch] only. *)
Fixpoint all_sep (ch : ascii) (t : string) : Prop :=
  match t with
  | EmptyString => True
  | String c r => c = ch /\ all_sep ch r
  end.

(** The field holds no separator / is not the empty string. *)
Definition sep_free (ch : ascii) (x : string) : Prop := contains ch x = false.
Definition nonemptyP (x : string) : Prop := x <> "".

End PyStr.

(** ** Python values, exceptions and the effect monad *)

Module Py.

(** A value stored in a mapping: a string or a sequence of strings (the
    two shapes [urlencode(..., doseq=True)] tells apart). *)
Inductive pval :=
| VStr (s : string)
| VSeq (l : list string).

(** A [dict] with string keys, in insertion order. *)
Definition Dict := list (string * pval).

(** [d[k] = v]: an existing key keeps its place. *)
Fixpoint dict_set (k : string) (v : pval) (d : Dict) : Dict :=
  match d with
  | [] => [(k, v)]
  | (k', v') :: r =>
      if String.eqb k' k then (k', v) :: r else (k', v') :: dict_set k v r
  end.

(** [d.update(other)]. *)
Definition dict_update (d other : Dict) : Dict :=
  fold_left (fun acc kv => dict_set (fst kv) (snd kv) acc) other d.

(** Parsed documents: what [json.loads] and [ET.XML] build. *)
#[warnings="-register-all"]
Inductive json :=
| JNull
| JBool (b : bool)
| JNum (n : Z)
| JStr (s : string)
| JArr (items : list json)
| JObj (members : list (string * json)).

#[warnings="-register-all"]
Inductive xml :=
| Element (tag : string) (attrib : list (string * string)) (text : string)
    (children : list xml).

(** What [parse_body] and [parse_error] return: the body itself, or a
    parsed document. *)
Inductive body_obj :=
| BStr (s : string)
| BJson (j : json)
| BXml (x : xml).

(** What [str(e)] gives for an [ssl.SSLError]: a text, or -- for an
    exception built from one argument, as [ssl.SSLError(message)] is --
    the [repr] of the tuple that holds the argument, which is the
    interpreter's and is not spelled out. *)
Inductive ssl_text :=
| SText (s : string)
| STuple (arg : ssl_text).

(** The exceptions that travel through the module.  A [socket.gaierror]
    is its [errno] attribute and what [str(e)] gives; an [ssl.SSLError]
    is the name of its class ([SSLError] or a subclass), its [errno]
    attribute and what [str(e)] gives. *)
Inductive exn :=
| Gaierror (errno : option Z) (msg : string)
| SSLError (cls : string) (errno : option Z) (text : ssl_text)
| HTTPError (code : Z) (message : body_obj) (headers : Dict)
| MalformedResponseError (value body : string)
| LibcloudError (msg : string)
| NotImplementedError (msg : string)
| AssertionError
| AttributeError (msg : string)
| OtherError (name : string).

Inductive result (A : Type) :=
| Ok (a : A)
| Raise (e : exn).
Arguments Ok {A} a.
Arguments Raise {A} e.

(** Computations over a state [S] that may raise: the state reached when
    the exception is raised is kept, as in Python. *)
Definition M (S A : Type) : Type := S -> result A * S.

Definition ret {S A} (a : A) : M S A := fun s => (Ok a, s).

Definition raise {S A} (e : exn) : M S A := fun s => (Raise e, s).

Definition bind {S A B} (m : M S A) (k : A -> M S B) : M S B :=
  fun s => match m s with
           | (Ok a, s') => k a s'
           | (Raise e, s') => (Raise e, s')
           end.

Definition get {S} : M S S := fun s => (Ok s, s).

Definition modify {S} (f : S -> S) : M S unit := fun s => (Ok tt, f s).

(** [try: m  except <every exception handled by h>: ...]; [h e = None]
    when no [except] clause matches [e]. *)
Definition try_except {S A} (m : M S A) (h : exn -> option (M S A)) : M S A :=
  fun s => match m s with
           | (Ok a, s') => (Ok a, s')
           | (Raise e, s') =>
               match h e with
               | Some k => k s'
               | None => (Raise e, s')
               end
           end.

(** [try: m  finally: fin]. *)
Definition try_finally {S A} (m : M S A) (fin : M S unit) : M S A :=
  fun s => match m s with
           | (r, s') =>
               match fin s' with
               | (Ok _, s'') => (r, s'')
               | (Raise e, s'') => (Raise e, s'')
               end
           end.

(** Run a computation on a component of a larger state. *)
Definition zoom {S T A} (proj : T -> S) (upd : S -> T -> T) (m : M S A)
  : M T A :=
  fun t => match m (proj t) with (r, s') => (r, upd s' t) end.

End Py.

Declare Scope py_scope.
Delimit Scope py_scope with py.
Notation "x <- m ;; k" := (Py.bind m (fun x => k))
  (at level 100, m at next level, right associativity) : py_scope.
Notation "m ;;; k" := (Py.bind m (fun _ => k))
  (at level 100, right associativity) : py_scope.

(** ** The fragment of [urllib.parse] the module calls

    [urljoin] and [quote_plus] belong to the Python standard library.  They
    are modelled after its code on the inputs where every supported
    interpreter agrees: [urljoin] on a base that is a bare path (no scheme,
    no network location, no parameters, query or fragment) and either a
    relative reference made of a bare path that does not start with a
    slash, followed or not by a query and by a fragment, neither of them
    empty, or a reference with a scheme of its own.  Outside that fragment
    [urljoin] is what the library makes of it: the function [other], which
    may raise as the library does. *)

Module Urllib.
Import PyStr Py.

Definition slash : ascii := "/"%char.

(** A character that [urlsplit] treats in no special way. *)
Definition path_char (c : ascii) : bool :=
  (32 <? nat_of_ascii c)%nat
  && negb (Ascii.eqb c ":") && negb (Ascii.eqb c "?")
  && negb (Ascii.eqb c "#") && negb (Ascii.eqb c ";").

Fixpoint path_chars (s : string) : bool :=
  match s with
  | EmptyString => true
  | String c r => path_char c && path_chars r
  end.

(** A URL that consists of a path only. *)
Definition bare_path (s : string) : bool :=
  path_chars s && negb (startswith "//" s).

Definition nonempty (s : string) : bool := negb (String.eqb s "").

(** [segments[1:-1] = filter(None, segments[1:-1])]. *)
Definition filter_interior (l : list string) : list string :=
  match l with
  | [] => []
  | x :: r =>
      match r with
      | [] => [x]
      | _ => x :: List.filter nonempty (removelast r) ++ [List.last r ""]
      end
  end.

(** One turn of the loop that builds [resolved_path]; the list is kept
    with its last element first, so [pop()] is [tl]. *)
Definition resolve_step (acc : list string) (seg : string) : list string :=
  if String.eqb seg ".." then tl acc
  else if String.eqb seg "." then acc
  else seg :: acc.

Definition is_dot (seg : string) : bool :=
  String.eqb seg "." || String.eqb seg "..".

(** The loop over [segments] and the trailing slash appended after a final
    dot segment. *)
Definition resolved_path (segments : list string) : list string :=
  let resolved := rev (fold_left resolve_step segments []) in
  if is_dot (List.last segments "") then resolved ++ [""] else resolved.

(** [urljoin(base, url)] when both are bare paths. *)
Definition urljoin_path (base url : string) : string :=
  if String.eqb base "" then url
  else if String.eqb url "" then base
  else
    let base_parts := split slash base in
    let base_parts :=
      if nonempty (List.last base_parts "") then removelast base_parts
      else base_parts in
    let segments :=
      if startswith "/" url then split slash url
      else filter_interior (base_parts ++ split slash url) in
    let p := join "/" (resolved_path segments) in
    if String.eqb p "" then "/" else p.

(** Invariant of the loop in [resolved_path]: every entry of the stack
    but the oldest is a non-empty segment. *)
Definition stack_ok (acc : list string) : Prop :=
  Forall nonemptyP (removelast acc).

(** The non-empty segments of a path, and paths without [.] or [..]. *)
Definition fields (s : string) : list string :=
  List.filter nonempty (split slash s).

Definition dot_free (s : string) : bool :=
  forallb (fun seg => negb (is_dot seg)) (fields s).

Definition not_dot (s : string) : Prop := is_dot s = false.

(** [s.split(ch, 1)]: the text before the first [ch] and, when there is
    one, the text after it. *)
Fixpoint cut (ch : ascii) (s : string) : string * option string :=
  match s with
  | EmptyString => (EmptyString, None)
  | String c r =>
      if Ascii.eqb c ch then (EmptyString, Some r)
      else (String c (fst (cut ch r)), snd (cut ch r))
  end.

(** [urlsplit] of a reference without scheme and network location: the
    fragment is cut off first, then the query. *)
Definition fragment_of (url : string) : option string := snd (cut "#" url).

Definition query_of (url : string) : option string :=
  snd (cut "?" (fst (cut "#" url))).

Definition path_of (url : string) : string :=
  fst (cut "?" (fst (cut "#" url))).

(** [urlunsplit] puts a component back behind its delimiter. *)
Definition behind (ch : ascii) (part : option string) : string :=
  match part with
  | Some x => String ch x
  | None => EmptyString
  end.

(** The query and the fragment of a reference, as [urlunsplit] writes
    them. *)
Definition tail_of (url : string) : string :=
  behind "?" (query_of url) +:+ behind "#" (fragment_of url).

Fixpoint visibles (s : string) : bool :=
  match s with
  | EmptyString => true
  | String c r => (32 <? nat_of_ascii c)%nat && visibles r
  end.

(** A query or a fragment on which the interpreters agree: absent, or
    not empty and free of spaces and control characters. *)
Definition plain_part (part : option string) : bool :=
  match part with
  | Some x => nonempty x && visibles x
  | None => true
  end.

Definition relative_ref (url : string) : bool :=
  bare_path (path_of url) && negb (startswith "/" (path_of url))
  && plain_part (query_of url) && plain_part (fragment_of url).

(** [urljoin(base, url)] for a bare path and a relative reference: the
    path is resolved against the base, the query and the fragment are
    those of the reference. *)
Definition urljoin_ref (base url : string) : string :=
  if String.eqb base "" then url
  else if String.eqb url "" then base
  else urljoin_path base (path_of url) +:+ tail_of url.

(** The characters of a URL scheme: a letter first, then letters, digits
    and [+-.]. *)
Definition letter (c : ascii) : bool :=
  let n := nat_of_ascii c in
  ((65 <=? n) && (n <=? 90) || (97 <=? n) && (n <=? 122))%nat.

Definition numeral (c : ascii) : bool :=
  let n := nat_of_ascii c in ((48 <=? n) && (n <=? 57))%nat.

Definition scheme_char (c : ascii) : bool :=
  letter c || numeral c
  || Ascii.eqb c "+" || Ascii.eqb c "-" || Ascii.eqb c ".".

Fixpoint scheme_chars (s : string) : bool :=
  match s with
  | EmptyString => true
  | String c r => scheme_char c && scheme_chars r
  end.

Fixpoint numerals (s : string) : bool :=
  match s with
  | EmptyString => true
  | String c r => numeral c && numerals r
  end.

(** A reference that has a scheme of its own for every interpreter: a
    scheme before its first colon, and behind the colon neither a number
    alone (a port, for the older ones) nor a network location. *)
Definition has_scheme (url : string) : bool :=
  match cut ":" url with
  | (String c s, Some rest) =>
      letter c && scheme_chars s
      && negb (nonempty rest && numerals rest)
      && negb (startswith "//" rest) && visibles url
  | _ => false
  end.

(** A reference with a scheme of its own is the result, whatever the
    base. *)
Definition urljoin (other : string -> string -> result string)
    (base url : string) : result string :=
  if bare_path base && relative_ref url
  then Ok (urljoin_ref base url)
  else if bare_path base && has_scheme url
  then Ok url
  else other base url.

(** [quote_plus] (as from Python 3.7): letters, digits and [_.-~] stay, a
    space becomes [+], every other byte becomes [%XX]. *)
Definition always_safe (c : ascii) : bool :=
  let n := nat_of_ascii c in
  ((48 <=? n) && (n <=? 57) || (65 <=? n) && (n <=? 90)
   || (97 <=? n) && (n <=? 122))%nat
  || Ascii.eqb c "_" || Ascii.eqb c "." || Ascii.eqb c "-" || Ascii.eqb c "~".

Definition hex_digit (n : nat) : ascii :=
  nth n (list_ascii_of_string "0123456789ABCDEF") "0"%char.

Definition quote_char (c : ascii) : string :=
  if always_safe c then String c ""
  else if Ascii.eqb c " " then "+"
  else String "%" (String (hex_digit (nat_of_ascii c / 16))
                     (String (hex_digit (nat_of_ascii c mod 16)) "")).

Fixpoint quote_plus (s : string) : string :=
  match s with
  | EmptyString => EmptyString
  | String c r => quote_char c +:+ quote_plus r
  end.

End Urllib.


(** ** [Connection.morph_action_hook] *)

Module Morph.
Import PyStr Py Urllib.

(** [allow] is the module flag [ALLOW_PATH_DOUBLE_SLASHES]; [other] is
    the library's [urljoin] outside the fragment of [Urllib]. *)
Definition morph_action_hook (other : string -> string -> result string)
    (allow : bool) (request_path action : string) : result string :=
  if allow then Ok (request_path +:+ action)
  else
    match urljoin other (rstrip slash (lstrip slash request_path) +:+ "/")
                  (lstrip slash action) with
    | Raise e => Raise e
    | Ok url =>
        if negb (startswith "/" url) then Ok ("/" +:+ url) else Ok url
    end.

(** The segments [urljoin] works on when [morph_action_hook] calls it, and
    the final test on the leading slash; both only name parts of the
    function above. *)
Definition morph_segments (X P : string) : list string :=
  filter_interior
    ((split slash (rstrip slash (lstrip slash X)) ++ [""])
       ++ split slash (lstrip slash P)).

Definition slash_first (u : string) : string :=
  if negb (startswith "/" u) then "/" +:+ u else u.

End Morph.

(** ** [urlencode] *)

Module UrlEncode.
Import PyStr Py Urllib.

(** [urlencode(query, doseq=True)] on string keys: one [k=v] per string
    value, one per element of a sequence value, joined by [&]. *)
Definition encode_pair (k : string) (v : pval) : list string :=
  match v with
  | VStr x => [quote_plus k +:+ "=" +:+ quote_plus x]
  | VSeq l => map (fun x => quote_plus k +:+ "=" +:+ quote_plus x) l
  end.

Definition urlencode (query : list (string * pval)) : string :=
  join "&" (flat_map (fun kv => encode_pair (fst kv) (snd kv)) query).

End UrlEncode.

(** ** The response classes *)

Module ResponseM.
Import PyStr Py.
Local Open Scope py_scope.
Local Open Scope Z_scope.

(** The transport's response object, as far as the module reads it. *)
Record HttpResp := {
  status_code : Z;
  reason : string;
  resp_headers : Dict;
  text : option string;   (* [None]: no text, or an object without [strip] *)
  content : string;       (* the body as read from the wire *)
}.

(** A call of a format parser: the parser and its argument. *)
Inductive parser_call :=
| JsonLoads (s : string)
| XmlStr (s : string)          (* [ET.XML(body)] *)
| XmlBytes (s : string).       (* [ET.XML(body.encode("utf-8"))] *)

Inductive xml_outcome :=
| XParsed (x : xml)
| XValueError
| XError.

Inductive response_kind := BaseResponse | JsonResponse | XmlResponse.

(** A response class: which [parse_body] it has and its
    [parse_zero_length_body] attribute. *)
Record ResponseCls := {
  kind : response_kind;
  parse_zero_length_body : bool;
}.

Record Response := {
  headers : Dict;
  error : string;
  status : Z;
  body : string;
  object : body_obj;
}.

(** The white space [str.strip()] removes.  A [str] is held as its UTF-8
    bytes, so a white space character is one byte (the ASCII ones: U+0009
    to U+000D, U+001C to U+0020), two (U+0085, U+00A0) or three (U+1680,
    U+2000 to U+200A, U+2028, U+2029, U+202F, U+205F, U+3000). *)
Definition is_space (c : ascii) : bool :=
  let n := Z.of_nat (nat_of_ascii c) in
  ((9 <=? n) && (n <=? 13)) || ((28 <=? n) && (n <=? 32)).

Definition is_space2 (c d : ascii) : bool :=
  let n := Z.of_nat (nat_of_ascii d) in
  (Z.of_nat (nat_of_ascii c) =? 194) && ((n =? 133) || (n =? 160)).

Definition is_space3 (c d e : ascii) : bool :=
  let k := Z.of_nat (nat_of_ascii c) in
  let m := Z.of_nat (nat_of_ascii d) in
  let n := Z.of_nat (nat_of_ascii e) in
  ((k =? 225) && (m =? 154) && (n =? 128))
  || ((k =? 226) && (m =? 128)
      && (((128 <=? n) && (n <=? 138)) || (n =? 168) || (n =? 169)
          || (n =? 175)))
  || ((k =? 226) && (m =? 129) && (n =? 159))
  || ((k =? 227) && (m =? 128) && (n =? 128)).

(** The text is one white space character. *)
Definition white (t : string) : bool :=
  match t with
  | String c EmptyString => is_space c
  | String c (String d EmptyString) => is_space2 c d
  | String c (String d (String e EmptyString)) => is_space3 c d e
  | _ => false
  end.

Fixpoint lstrip_ws (s : string) : string :=
  match s with
  | String c r =>
      if is_space c then lstrip_ws r
      else
        match r with
        | String d r2 =>
            if is_space2 c d then lstrip_ws r2
            else
              match r2 with
              | String e r3 => if is_space3 c d e then lstrip_ws r3 else s
              | EmptyString => s
              end
        | EmptyString => s
        end
  | EmptyString => EmptyString
  end.

Fixpoint rstrip_ws (s : string) : string :=
  match s with
  | EmptyString => EmptyString
  | String c r =>
      let t := String c (rstrip_ws r) in
      if white t then "" else t
  end.

Definition strip (s : string) : string := rstrip_ws (lstrip_ws s).

(** The text starts with a white space character. *)
Definition leading (s : string) : bool :=
  match s with
  | String c r =>
      is_space c
      || match r with
         | String d r2 =>
             is_space2 c d
             || match r2 with
                | String e _ => is_space3 c d e
                | EmptyString => false
                end
         | EmptyString => false
         end
  | EmptyString => false
  end.

(** [requests.codes.ok], [requests.codes.created], [httplib.OK],
    [httplib.CREATED], [httplib.ACCEPTED]. *)
Definition success_codes : list Z := [200; 201; 200; 201; 202].

Definition success (status : Z) : bool :=
  existsb (Z.eqb status) success_codes.

Section Parsers.

(** The collaborators: the two format parsers of the standard library,
    [lowercase_keys] of [libcloud.utils.misc] and
    [exception_from_message] of [libcloud.common.exceptions]. *)
Variable json_loads : string -> option json.
Variable xml_parse : parser_call -> xml_outcome.
Variable lowercase_keys : Dict -> Dict.
Variable exception_from_message : Z -> body_obj -> Dict -> exn.

(** Calling a parser leaves a trace in the log. *)
Definition log_call (c : parser_call) : M (list parser_call) unit :=
  modify (fun l => l ++ [c]).

Definition Response_parse_body (body : string) : M (list parser_call) body_obj :=
  ret (BStr body).

Definition JsonResponse_parse_body (cls : ResponseCls) (body : string)
  : M (list parser_call) body_obj :=
  if (String.length body =? 0)%nat && negb (parse_zero_length_body cls)
  then ret (BStr body)
  else
    log_call (JsonLoads body) ;;;
    match json_loads body with
    | Some j => ret (BJson j)
    | None => raise (MalformedResponseError "Failed to parse JSON" body)
    end.

Definition XmlResponse_parse_body (cls : ResponseCls) (body : string)
  : M (list parser_call) body_obj :=
  if (String.length body =? 0)%nat && negb (parse_zero_length_body cls)
  then ret (BStr body)
  else
    log_call (XmlStr body) ;;;
    match xml_parse (XmlStr body) with
    | XParsed x => ret (BXml x)
    | XValueError =>
        log_call (XmlBytes body) ;;;
        match xml_parse (XmlBytes body) with
        | XParsed x => ret (BXml x)
        | _ => raise (MalformedResponseError "Failed to parse XML" body)
        end
    | XError => raise (MalformedResponseError "Failed to parse XML" body)
    end.

Definition parse_body (cls : ResponseCls) (body : string)
  : M (list parser_call) body_obj :=
  match kind cls with
  | BaseResponse => Response_parse_body body
  | JsonResponse => JsonResponse_parse_body cls body
  | XmlResponse => XmlResponse_parse_body cls body
  end.

(** [Response.parse_error] returns the body; the two format classes set
    [parse_error = parse_body]. *)
Definition parse_error (cls : ResponseCls) (body : string)
  : M (list parser_call) body_obj :=
  match kind cls with
  | BaseResponse => ret (BStr body)
  | JsonResponse => JsonResponse_parse_body cls body
  | XmlResponse => XmlResponse_parse_body cls body
  end.

(** [Response.__init__]. *)
Definition Response_init (cls : ResponseCls) (response : HttpResp)
  : M (list parser_call) Response :=
  let headers := lowercase_keys (resp_headers response) in
  let error := reason response in
  let status := status_code response in
  let body := match text response with
              | Some t => strip t
              | None => ""
              end in
  if negb (success status) then
    message <- parse_error cls body ;;
    raise (exception_from_message status message headers)
  else
    object <- parse_body cls body ;;
    ret {| headers := headers; error := error; status := status;
           body := body; object := object |}.

End Parsers.

(** Stand-ins used to evaluate the classes on concrete inputs: a JSON
    reader that knows the three literals only (like [json.loads], it
    rejects every text that is not JSON), an XML reader that rejects
    everything, and the plain error constructor. *)
Definition literal_json (s : string) : option json :=
  if String.eqb s "null" then Some JNull
  else if String.eqb s "true" then Some (JBool true)
  else if String.eqb s "false" then Some (JBool false)
  else None.

Definition no_xml (c : parser_call) : xml_outcome := XError.

Definition same_keys (d : Dict) : Dict := d.

(** A stand-in for [lowercase_keys] on ASCII keys: a dictionary built
    from the entries with their keys in lower case. *)
Definition lower_char (c : ascii) : ascii :=
  let n := nat_of_ascii c in
  if ((65 <=? n) && (n <=? 90))%nat then ascii_of_nat (n + 32) else c.

Fixpoint lower (s : string) : string :=
  match s with
  | EmptyString => EmptyString
  | String c r => String (lower_char c) (lower r)
  end.

Definition lower_keys (d : Dict) : Dict :=
  fold_left (fun acc kv => dict_set (lower (fst kv)) (snd kv) acc) d [].

Definition ok_stream : HttpResp :=
  {| status_code := 200; reason := "OK"; resp_headers := [];
     text := None; content := "payload" |}.

Definition server_error_text : HttpResp :=
  {| status_code := 500; reason := "Internal Server Error";
     resp_headers := [("Content-Type", VStr "text/html")];
     text := Some "oops"; content := "oops" |}.

(** The argument a parser was called with. *)
Definition call_input (c : parser_call) : string :=
  match c with JsonLoads s | XmlStr s | XmlBytes s => s end.

(** The two classes with a format parser. *)
Definition structured (k : response_kind) : bool :=
  match k with BaseResponse => false | _ => true end.

End ResponseM.

(** ** [RawResponse]: the lazily fetched body *)

Module RawResponseM.
Import PyStr Py ResponseM.
Local Open Scope py_scope.

(** [HttpLibResponseProxy(response)]: a plain wrapper around what
    [getresponse()] returned, possibly [None].  As an object without
    [__bool__] or [__len__] it is always true in a condition. *)
Definition Proxy := option HttpResp.

(** The transport held by the parent connection: the response of the last
    exchange, and how many times [getresponse()] was called. *)
Record Wire := {
  current : option HttpResp;
  fetches : nat;
}.

Record RawResponse := {
  _response : option Proxy;
  _reason : option string;
  raw_headers : Dict;
  raw_error : option string;
  raw_status : Z;
}.

Record RawWorld := {
  self : RawResponse;
  wire : Wire;
}.

Definition set_response (p : Proxy) : M RawWorld unit :=
  modify (fun w =>
    {| self := {| _response := Some p; _reason := _reason (self w);
                  raw_headers := raw_headers (self w);
                  raw_error := raw_error (self w);
                  raw_status := raw_status (self w) |};
       wire := wire w |}).

Definition set_reason (r : string) : M RawWorld unit :=
  modify (fun w =>
    {| self := {| _response := _response (self w); _reason := Some r;
                  raw_headers := raw_headers (self w);
                  raw_error := raw_error (self w);
                  raw_status := raw_status (self w) |};
       wire := wire w |}).

(** [self.connection.connection.getresponse()]. *)
Definition getresponse : M RawWorld (option HttpResp) :=
  fun w => (Ok (current (wire w)),
            {| self := self w;
               wire := {| current := current (wire w);
                          fetches := S (fetches (wire w)) |} |}).

(** [proxy.body] and [proxy.reason]. *)
Definition proxy_body (p : Proxy) : M RawWorld string :=
  match p with
  | Some r => ret (content r)
  | None => raise (AttributeError "'NoneType' object has no attribute 'content'")
  end.

Definition proxy_reason (p : Proxy) : M RawWorld string :=
  match p with
  | Some r => ret (reason r)
  | None => raise (AttributeError "'NoneType' object has no attribute 'reason'")
  end.

(** The [response] property.  [parse_error()] is [Response.parse_error],
    which reads [self.body], that is [self.response.body]; at that point
    [_response] is set, so the nested read of the property returns the
    proxy at once. *)
Definition response : M RawWorld Proxy :=
  w <- get ;;
  match _response (self w) with
  | Some p => ret p
  | None =>
      r <- getresponse ;;
      set_response r ;;;
      (if negb (success (raw_status (self w)))
       then (_ <- proxy_body r ;; ret tt)
       else ret tt) ;;;
      ret r
  end.

(** The [body] property. *)
Definition body : M RawWorld string :=
  p <- response ;; proxy_body p.

(** The [reason] property. *)
Definition reason_prop : M RawWorld string :=
  w <- get ;;
  match _reason (self w) with
  | Some r =>
      if truthy r then ret r
      else (p <- response ;; r' <- proxy_reason p ;; set_reason r' ;;; ret r')
  | None => p <- response ;; r' <- proxy_reason p ;; set_reason r' ;;; ret r'
  end.

Section Init.
Variable lowercase_keys : Dict -> Dict.

(** [RawResponse.__init__(connection, response)]; the class attributes
    give [status = httplib.OK], [headers = {}] and [error = None] when no
    response is passed. *)
Definition RawResponse_init (response : option HttpResp) (t : Wire)
  : result unit * RawWorld :=
  let fresh :=
    match response with
    | Some r =>
        {| _response := None; _reason := None;
           raw_headers := lowercase_keys (resp_headers r);
           raw_error := Some (reason r);
           raw_status := status_code r |}
    | None =>
        {| _response := None; _reason := None; raw_headers := [];
           raw_error := None; raw_status := 200 |}
    end in
  (if negb (success (raw_status fresh))
   then (_ <- body ;; ret tt)
   else ret tt) {| self := fresh; wire := t |}.

End Init.

(** What a caller does with the object. *)
Inductive access := ReadBody | ReadReason.

Definition read (a : access) : M RawWorld string :=
  match a with
  | ReadBody => body
  | ReadReason => reason_prop
  end.

(** A sequence of reads; a read that raises does not stop the caller
    from reading again. *)
Fixpoint reads (l : list access) (w : RawWorld)
  : list (access * result string) * RawWorld :=
  match l with
  | [] => ([], w)
  | a :: r =>
      match read a w with
      | (v, w') =>
          match reads r w' with
          | (vs, w'') => ((a, v) :: vs, w'')
          end
      end
  end.

(** What a read of the body or of the reason of a proxy gives. *)
Definition body_of (p : Proxy) : result string :=
  match p with
  | Some r => Ok (content r)
  | None => Raise (AttributeError "'NoneType' object has no attribute 'content'")
  end.

Definition reason_of (p : Proxy) : result string :=
  match p with
  | Some r => Ok (reason r)
  | None => Raise (AttributeError "'NoneType' object has no attribute 'reason'")
  end.

Definition value_of (a : access) (p : Proxy) : result string :=
  match a with
  | ReadBody => body_of p
  | ReadReason => reason_of p
  end.

Definition cached (w : RawWorld) (p : Proxy) : Prop :=
  _response (self w) = Some p.

(** The proxy is cached and a cached reason is the proxy's reason. *)
Definition settled (w : RawWorld) (p : Proxy) : Prop :=
  cached w p /\ forall r, _reason (self w) = Some r -> Ok r = reason_of p.

Definition first_status (response : option HttpResp) : Z :=
  match response with Some r => status_code r | None => 200%Z end.

End RawResponseM.

(** ** [Connection]: the request pipeline *)

Module ConnectionM.
Import PyStr Py Urllib UrlEncode Morph ResponseM RawResponseM.
Local Open Scope py_scope.
Local Open Scope Z_scope.

(** The identity of a Python object. *)
Definition loc := positive.

(** The objects the caller and the hooks share with the connection: a
    [dict], or a list of pairs (which [params] may be). *)
Inductive obj :=
| ODict (d : Dict)
| OList (l : list (string * pval)).

Definition items (o : obj) : list (string * pval) :=
  match o with ODict d => d | OList l => l end.

(** What the transport is asked to send. *)
Record Exchange := {
  prepared : bool;            (* [prepared_request] rather than [request] *)
  x_method : string;
  x_url : string;
  x_body : option string;
  x_headers : list (string * pval);
  x_stream : bool;
}.

Inductive wire_outcome :=
| Answers (r : HttpResp)
| Fails (e : exn).

(** The attributes of a connection. *)
Record Conn := {
  context : loc;
  request_path : string;
  host : string;
  port : Z;
  timeout : option Z;
  retry_delay : option Z;
  backoff : option Z;
  cache_busting : bool;
  ua : list string;
  driver : option string;        (* [self.driver.name] *)
  class_name : string;           (* [self.__class__.__name__] *)
  responseCls : ResponseCls;
  action : option string;
  method : option string;
  data : option string;
  connection : bool;             (* [self.connection is not None] *)
}.

Record World := {
  heap : gmap loc obj;
  conn : Conn;
  wire : Wire;                          (* the transport's response *)
  sent : list Exchange;                 (* what the transport was asked *)
  parser_log : list parser_call;
}.

(** Process-wide configuration and the process environment. *)
Record Globals := {
  RETRY_FAILED_HTTP_REQUESTS : bool;
  ALLOW_PATH_DOUBLE_SLASHES : bool;
  (* [os.environ.get("LIBCLOUD_RETRY_FAILED_HTTP_REQUESTS")] *)
  environ_retry : option string;
  version : string;                     (* [libcloud.__version__] *)
  urandom_hex : string;                 (* [hexlify(os.urandom(8))] *)
  (* [urlparse.urljoin] outside the fragment of [Urllib] *)
  urljoin_other : string -> string -> result string;
}.

Record RetryPolicy := {
  p_retry_delay : option Z;
  p_timeout : option Z;
  p_backoff : option Z;
}.

Record ReqArgs := {
  a_url : string;
  a_method : string;
  a_raw : bool;
  a_stream : bool;
  a_headers : loc;
  a_data : option string;
}.

Inductive AnyResponse :=
| Buffered (r : Response)
| Raw (r : RawResponse).

Definition set_heap (h : gmap loc obj) (w : World) : World :=
  {| heap := h; conn := conn w; wire := wire w; sent := sent w;
     parser_log := parser_log w |}.

Definition set_conn (c : Conn) (w : World) : World :=
  {| heap := heap w; conn := c; wire := wire w; sent := sent w;
     parser_log := parser_log w |}.

Definition set_wire (t : Wire) (w : World) : World :=
  {| heap := heap w; conn := conn w; wire := t; sent := sent w;
     parser_log := parser_log w |}.

Definition set_sent (l : list Exchange) (w : World) : World :=
  {| heap := heap w; conn := conn w; wire := wire w; sent := l;
     parser_log := parser_log w |}.

Definition set_parser_log (l : list parser_call) (w : World) : World :=
  {| heap := heap w; conn := conn w; wire := wire w; sent := sent w;
     parser_log := l |}.

(** A new object. *)
Definition alloc (o : obj) : M World loc :=
  fun w => let l := fresh (dom (heap w)) in
           (Ok l, set_heap (<[l := o]> (heap w)) w).

Definition load (l : loc) : M World obj :=
  fun w => match heap w !! l with
           | Some o => (Ok o, w)
           | None => (Raise (OtherError "dangling reference"), w)
           end.

Definition store (l : loc) (o : obj) : M World unit :=
  modify (fun w => set_heap (<[l := o]> (heap w)) w).

(** [copy.copy(x)]: a new object with the same items. *)
Definition copy (l : loc) : M World loc :=
  o <- load l ;; alloc o.

(** [d.update(other)] on the object at [l]; a list has no [update]. *)
Definition update (l : loc) (other : Dict) : M World unit :=
  o <- load l ;;
  match o with
  | ODict d => store l (ODict (dict_update d other))
  | OList _ =>
      raise (AttributeError "'list' object has no attribute 'update'")
  end.

(** [Connection.set_context]: the connection keeps the caller's object. *)
Definition set_context (l : loc) : M World unit :=
  o <- load l ;;
  match o with
  | ODict _ =>
      modify (fun w =>
        set_conn
          {| context := l; request_path := request_path (conn w);
             host := host (conn w); port := port (conn w);
             timeout := timeout (conn w); retry_delay := retry_delay (conn w);
             backoff := backoff (conn w);
             cache_busting := cache_busting (conn w); ua := ua (conn w);
             driver := driver (conn w); class_name := class_name (conn w);
             responseCls := responseCls (conn w); action := action (conn w);
             method := method (conn w); data := data (conn w);
             connection := connection (conn w) |} w)
  | OList _ => raise (OtherError "TypeError: context needs to be a dictionary")
  end.

(** [Connection.reset_context]: [self.context = {}]. *)
Definition reset_context : M World unit :=
  l <- alloc (ODict []) ;;
  modify (fun w =>
    set_conn
      {| context := l; request_path := request_path (conn w);
         host := host (conn w); port := port (conn w);
         timeout := timeout (conn w); retry_delay := retry_delay (conn w);
         backoff := backoff (conn w);
         cache_busting := cache_busting (conn w); ua := ua (conn w);
         driver := driver (conn w); class_name := class_name (conn w);
         responseCls := responseCls (conn w); action := action (conn w);
         method := method (conn w); data := data (conn w);
         connection := connection (conn w) |} w).

(** [self.action = action; self.method = method; self.data = data]. *)
Definition set_call (a m : string) (d : option string) : M World unit :=
  modify (fun w =>
    set_conn
      {| context := context (conn w); request_path := request_path (conn w);
         host := host (conn w); port := port (conn w);
         timeout := timeout (conn w); retry_delay := retry_delay (conn w);
         backoff := backoff (conn w);
         cache_busting := cache_busting (conn w); ua := ua (conn w);
         driver := driver (conn w); class_name := class_name (conn w);
         responseCls := responseCls (conn w); action := Some a;
         method := Some m; data := d;
         connection := connection (conn w) |} w).

(** [Connection.connect]: the transport is built from the connection's
    attributes; here it is the [wire] of the world. *)
Definition connect : M World unit :=
  modify (fun w =>
    set_conn
      {| context := context (conn w); request_path := request_path (conn w);
         host := host (conn w); port := port (conn w);
         timeout := timeout (conn w); retry_delay := retry_delay (conn w);
         backoff := backoff (conn w);
         cache_busting := cache_busting (conn w); ua := ua (conn w);
         driver := driver (conn w); class_name := class_name (conn w);
         responseCls := responseCls (conn w); action := action (conn w);
         method := method (conn w); data := data (conn w);
         connection := true |} w).

Definition str_of_Z (z : Z) : string := NilZero.string_of_int (Z.to_int z).

(** [Connection._user_agent]. *)
Definition _user_agent (g : Globals) (c : Conn) : string :=
  let user_agent_suffix :=
    join " " (map (fun x => "(" +:+ x +:+ ")") (ua c)) in
  match driver c with
  | Some name =>
      "libcloud/" +:+ version g +:+ " (" +:+ name +:+ ") " +:+ user_agent_suffix
  | None => "libcloud/" +:+ version g +:+ " " +:+ user_agent_suffix
  end.

(** [Connection._add_cache_busting_to_params]. *)
Definition _add_cache_busting_to_params (g : Globals) (params : loc)
  : M World loc :=
  o <- load params ;;
  (match o with
   | ODict d =>
       store params (ODict (dict_set "cache-busting" (VStr (urandom_hex g)) d))
   | OList l =>
       store params (OList (l ++ [("cache-busting", VStr (urandom_hex g))]))
   end) ;;;
  ret params.

(** Lines 639 to 645 of [request]: the URL from the action and the
    parameters. *)
Definition build_url (action : string) (params : obj) : string :=
  match items params with
  | _ :: _ =>
      if contains "?" action
      then join "&" [action; urlencode (items params)]
      else join "?" [action; urlencode (items params)]
  | [] => action
  end.

(** Lines 596 to 604 of [request]: is the exchange retried? *)
Definition retry_enabled (g : Globals) (retry_failed : option bool) : bool :=
  let from_process :=
    match environ_retry g with
    | Some v => if truthy v then true else RETRY_FAILED_HTTP_REQUESTS g
    | None => RETRY_FAILED_HTTP_REQUESTS g
    end in
  match retry_failed with
  | Some b => b
  | None => from_process
  end.

(** The methods a subclass overrides. *)
Class Hooks := {
  add_default_params : loc -> M World loc;
  add_default_headers : loc -> M World loc;
  pre_connect_hook : loc -> loc -> M World (loc * loc);
  encode_data : string -> M World string;
}.

(** [Connection] itself. *)
#[export] Instance BaseHooks : Hooks := {
  add_default_params params := ret params;
  add_default_headers headers := ret headers;
  pre_connect_hook params headers := ret (params, headers);
  encode_data data := ret data;
}.

Section Request.

(** The collaborators: the parsers and helpers of the response classes,
    the transport ([transport n x] is what happens to the exchange [x]
    when [n] exchanges came before it) and the retry coordinator
    [libcloud.utils.retry.Retry], which wraps the function it is given. *)
Variable json_loads : string -> option json.
Variable xml_parse : parser_call -> xml_outcome.
Variable lowercase_keys : Dict -> Dict.
Variable exception_from_message : Z -> body_obj -> Dict -> exn.
Variable transport : nat -> Exchange -> wire_outcome.
Variable retryCls :
  RetryPolicy -> (ReqArgs -> M World AnyResponse)
  -> ReqArgs -> M World AnyResponse.
Context {hooks : Hooks}.
Variable g : Globals.

(** [self.connection.request(...)] or [prepared_request(...)]. *)
Definition send (x : Exchange) : M World unit :=
  fun w =>
    let w1 := set_sent (sent w ++ [x]) w in
    match transport (length (sent w)) x with
    | Answers r =>
        (Ok tt, set_wire {| current := Some r; fetches := fetches (wire w) |} w1)
    | Fails e => (Raise e, w1)
    end.

(** [self.connection.getresponse()]. *)
Definition conn_getresponse : M World (option HttpResp) :=
  fun w =>
    (Ok (current (wire w)),
     set_wire {| current := current (wire w);
                 fetches := S (fetches (wire w)) |} w).

(** The call of [responseCls] (or [rawResponseCls]) with the connection
    and the transport's response. *)
Definition build_response (raw : bool) (response : option HttpResp)
  : M World AnyResponse :=
  if raw then
    fun w =>
      match RawResponse_init lowercase_keys response (wire w) with
      | (Ok _, rw) => (Ok (Raw (self rw)), set_wire (RawResponseM.wire rw) w)
      | (Raise e, rw) => (Raise e, set_wire (RawResponseM.wire rw) w)
      end
  else
    match response with
    | None =>
        raise (AttributeError "'NoneType' object has no attribute 'headers'")
    | Some r =>
        w <- get ;;
        b <- zoom parser_log set_parser_log
               (Response_init json_loads xml_parse lowercase_keys
                  exception_from_message (responseCls (conn w)) r) ;;
        ret (Buffered b)
    end.

Definition dquote : string := String (ascii_of_nat 34) "".

Definition no_address_message (message : string) (c : Conn) : string :=
  message +:+ ". Perhaps " +:+ dquote +:+ "host" +:+ dquote
  +:+ " Connection class attribute ("
  +:+ class_name c
  +:+ ".connection) is set to an invalid, non-hostname value ("
  +:+ host c +:+ ")?".

(** The body of the first [try] of [_retryable_request]. *)
Definition transport_call (args : ReqArgs) : M World unit :=
  w <- get ;;
  (if connection (conn w) then ret tt else raise AssertionError) ;;;
  h <- load (a_headers args) ;;
  send {| prepared := a_raw args; x_method := a_method args;
          x_url := a_url args; x_body := a_data args;
          x_headers := items h; x_stream := a_stream args |}.

(** Its two [except] clauses. *)
Definition transport_error (e : exn) : option (M World unit) :=
  match e with
  | Gaierror errno message =>
      Some (match errno with
            | Some (-5) =>
                w <- get ;;
                raise (Gaierror None (no_address_message message (conn w)))
            | _ => reset_context ;;; raise e
            end)
  | SSLError _ _ text =>
      Some (reset_context ;;; raise (SSLError "SSLError" None (STuple text)))
  | _ => None
  end.

(** [Connection._retryable_request]. *)
Definition _retryable_request (args : ReqArgs) : M World AnyResponse :=
  try_except (transport_call args) transport_error ;;;
  response <- conn_getresponse ;;
  try_finally (build_response (a_raw args) response) reset_context.

(** The function [request] ends up calling. *)
Definition request_to_be_executed (enabled : bool)
  : ReqArgs -> M World AnyResponse :=
  if enabled then
    fun args =>
      w <- get ;;
      retryCls {| p_retry_delay := retry_delay (conn w);
                  p_timeout := timeout (conn w);
                  p_backoff := backoff (conn w) |} _retryable_request args
  else _retryable_request.

(** [request] up to the point where the exchange is handed over: the
    arguments of [request_to_be_executed]. *)
Definition prepare (action : string) (params : option loc)
    (data : option string) (headers : option loc) (method : string)
    (raw stream : bool) : M World ReqArgs :=
  params <- match params with
            | None => alloc (ODict [])
            | Some l => copy l
            end ;;
  headers <- match headers with
             | None => alloc (ODict [])
             | Some l => copy l
             end ;;
  w <- get ;;
  action <- (fun s => (morph_action_hook (urljoin_other g)
                          (ALLOW_PATH_DOUBLE_SLASHES g)
                          (request_path (conn w)) action, s)) ;;
  set_call action method data ;;;
  params <- add_default_params params ;;
  w <- get ;;
  params <- (if cache_busting (conn w) && String.eqb method "GET"
             then _add_cache_busting_to_params g params
             else ret params) ;;
  headers <- add_default_headers headers ;;
  w <- get ;;
  update headers [("User-Agent", VStr (_user_agent g (conn w)))] ;;;
  update headers [("Accept-Encoding", VStr "gzip,deflate")] ;;;
  w <- get ;;
  let port := port (conn w) in
  (if negb (existsb (Z.eqb port) [80; 443])
   then update headers
          [("Host", VStr (host (conn w) +:+ ":" +:+ str_of_Z port))]
   else update headers [("Host", VStr (host (conn w)))]) ;;;
  data <- match data with
          | Some d => if truthy d
                      then (d' <- encode_data d ;; ret (Some d'))
                      else ret data
          | None => ret data
          end ;;
  ph <- pre_connect_hook params headers ;;
  let (params, headers) := ph : loc * loc in
  p <- load params ;;
  let url := build_url action p in
  w <- get ;;
  (if connection (conn w) then ret tt else connect) ;;;
  ret {| a_url := url; a_method := method; a_raw := raw; a_stream := stream;
         a_headers := headers; a_data := data |}.

(** The two parts of [prepare], named for the statements about the URL:
    [request] from its first line to the hand-back of [pre_connect_hook]
    (the normalized action, the parameters and the headers as the hooks
    leave them, the encoded body), and from there to the hand-over. *)
Definition run_hooks (action : string) (params : option loc)
    (data : option string) (headers : option loc) (method : string)
  : M World (string * loc * loc * option string) :=
  params <- match params with
            | None => alloc (ODict [])
            | Some l => copy l
            end ;;
  headers <- match headers with
             | None => alloc (ODict [])
             | Some l => copy l
             end ;;
  w <- get ;;
  action <- (fun s => (morph_action_hook (urljoin_other g)
                          (ALLOW_PATH_DOUBLE_SLASHES g)
                          (request_path (conn w)) action, s)) ;;
  set_call action method data ;;;
  params <- add_default_params params ;;
  w <- get ;;
  params <- (if cache_busting (conn w) && String.eqb method "GET"
             then _add_cache_busting_to_params g params
             else ret params) ;;
  headers <- add_default_headers headers ;;
  w <- get ;;
  update headers [("User-Agent", VStr (_user_agent g (conn w)))] ;;;
  update headers [("Accept-Encoding", VStr "gzip,deflate")] ;;;
  w <- get ;;
  let port := port (conn w) in
  (if negb (existsb (Z.eqb port) [80; 443])
   then update headers
          [("Host", VStr (host (conn w) +:+ ":" +:+ str_of_Z port))]
   else update headers [("Host", VStr (host (conn w)))]) ;;;
  data <- match data with
          | Some d => if truthy d
                      then (d' <- encode_data d ;; ret (Some d'))
                      else ret data
          | None => ret data
          end ;;
  ph <- pre_connect_hook params headers ;;
  let (params, headers) := ph : loc * loc in
  ret (action, params, headers, data).

Definition hand_over (action : string) (params headers : loc)
    (data : option string) (method : string) (raw stream : bool)
  : M World ReqArgs :=
  p <- load params ;;
  let url := build_url action p in
  w <- get ;;
  (if connection (conn w) then ret tt else connect) ;;;
  ret {| a_url := url; a_method := method; a_raw := raw; a_stream := stream;
         a_headers := headers; a_data := data |}.

(** [Connection.request]. *)
Definition request (action : string) (params : option loc)
    (data : option string) (headers : option loc) (method : string)
    (raw stream : bool) (retry_failed : option bool)
  : M World AnyResponse :=
  args <- prepare action params data headers method raw stream ;;
  request_to_be_executed (retry_enabled g retry_failed) args.

End Request.

(** *** Vocabulary of the properties, and sample inputs *)

Definition qmark : ascii := "?"%char.

Definition has_items (o : obj) : bool :=
  match items o with [] => false | _ :: _ => true end.

(** The environment toggle is set: the variable exists and is not empty. *)
Definition env_toggle (g : Globals) : bool :=
  match environ_retry g with
  | Some v => truthy v
  | None => false
  end.

(** A computation that asks nothing of the transport. *)
Definition silent {A} (m : M World A) : Prop :=
  forall w, sent (snd (m w)) = sent w.

(** Every object of [w0] is in [w] as it was. *)
Definition stable (w0 w : World) : Prop :=
  forall k, is_Some (heap w0 !! k) -> heap w !! k = heap w0 !! k.

(** The location holds no object of [w0]. *)
Definition newer (w0 : World) (l : loc) : Prop := heap w0 !! l = None.

(** The computation writes to no object that exists when it starts. *)
Definition quiet {A} (m : M World A) : Prop :=
  forall w r w', m w = (r, w') -> stable w w'.

(** The computation keeps the objects of [w0]; what it returns
    satisfies [Q]. *)
Definition keeps (w0 : World) {A} (Q : A -> Prop) (m : M World A) : Prop :=
  forall w r w', stable w0 w -> m w = (r, w') ->
    stable w0 w' /\ forall a, r = Ok a -> Q a.

(** A hook that is handed [l] writes to [l] or to objects of its own, and
    returns [l] or an object of its own. *)
Definition local1 (h : loc -> M World loc) : Prop :=
  forall l w r w', h l w = (r, w') ->
    (forall k, is_Some (heap w !! k) -> k <> l -> heap w' !! k = heap w !! k)
    /\ forall l', r = Ok l' -> l' = l \/ heap w !! l' = None.

Definition local2 (h : loc -> loc -> M World (loc * loc)) : Prop :=
  forall lp lh w r w', h lp lh w = (r, w') ->
    (forall k, is_Some (heap w !! k) -> k <> lp -> k <> lh ->
               heap w' !! k = heap w !! k)
    /\ forall p q, r = Ok (p, q) ->
         (p = lp \/ p = lh \/ heap w !! p = None)
         /\ (q = lp \/ q = lh \/ heap w !! q = None).

Record HooksLocal (hooks : Hooks) : Prop := {
  params_local : local1 add_default_params;
  headers_local : local1 add_default_headers;
  pre_connect_local : local2 pre_connect_hook;
  encode_local : forall d, quiet (encode_data d);
}.

(** The retry coordinator only runs the function it wraps. *)
Definition RetryLocal
    (retryCls : RetryPolicy -> (ReqArgs -> M World AnyResponse)
                -> ReqArgs -> M World AnyResponse) : Prop :=
  forall policy f, (forall args, quiet (f args)) ->
                   forall args, quiet (retryCls policy f args).

(** The context of the connection is an empty dictionary. *)
Definition context_empty (w : World) : Prop :=
  heap w !! context (conn w) = Some (ODict []).

(** A provider that adds its key to the parameters and a token to the
    headers, both in place. *)
Definition ApiKeyHooks : Hooks := {|
  add_default_params params :=
    (o <- load params ;;
     (match o with
      | ODict d => store params (ODict (dict_set "api_key" (VStr "secret") d))
      | OList l => store params (OList (l ++ [("api_key", VStr "secret")]))
      end) ;;;
     ret params);
  add_default_headers headers :=
    (update headers [("X-Auth-Token", VStr "token")] ;;; ret headers);
  pre_connect_hook params headers := ret (params, headers);
  encode_data data := ret data;
|}.

(** The process as it starts; the library stand-in hands the relative URL
    back, as [urljoin] does for a URL with a scheme of its own. *)
Definition plain_globals : Globals :=
  {| RETRY_FAILED_HTTP_REQUESTS := false; ALLOW_PATH_DOUBLE_SLASHES := false;
     environ_retry := None; version := "3.4.0"; urandom_hex := "00";
     urljoin_other := fun _ url => Ok url |}.

Definition sample_conn : Conn :=
  {| context := 2%positive; request_path := "/api"; host := "example.invalid";
     port := 443; timeout := None; retry_delay := None; backoff := None;
     cache_busting := false; ua := []; driver := None;
     class_name := "Connection";
     responseCls := {| kind := BaseResponse; parse_zero_length_body := false |};
     action := None; method := None; data := None; connection := false |}.

(** Three dictionaries of the caller (a context, parameters, headers) and
    the connection's own empty context. *)
Definition sample_world : World :=
  {| heap := <[4%positive := ODict [("Accept", VStr "text/plain")]]>
               (<[3%positive := ODict [("limit", VStr "10")]]>
                  (<[2%positive := ODict []]>
                     (<[1%positive := ODict [("job", VStr "42")]]> ∅)));
     conn := sample_conn;
     wire := {| current := None; fetches := 0 |};
     sent := []; parser_log := [] |}.

(** A transport that cannot resolve the host, and one that answers. *)
Definition no_address : nat -> Exchange -> wire_outcome :=
  fun _ _ => Fails (Gaierror (Some (-5))
                      "[Errno -5] No address associated with hostname").

Definition answers_ok : nat -> Exchange -> wire_outcome :=
  fun _ _ => Answers {| status_code := 200; reason := "OK"; resp_headers := [];
                        text := Some "done"; content := "done" |}.

(** A coordinator that runs the wrapped function once. *)
Definition no_retry
  : RetryPolicy -> (ReqArgs -> M World AnyResponse)
    -> ReqArgs -> M World AnyResponse :=
  fun _ f => f.

Definition sample_args : ReqArgs :=
  {| a_url := "/api/servers?limit=10"; a_method := "GET"; a_raw := false;
     a_stream := false; a_headers := 6%positive; a_data := None |}.

Definition sample_prepared : result ReqArgs * World :=
  prepare plain_globals "/servers" (Some 3%positive) None (Some 4%positive)
    "GET" false false sample_world.

End ConnectionM.

(** ** [PollingConnection]: the job-polling loop *)

Module PollingM.
Import PyStr Py.
Local Open Scope py_scope.
Local Open Scope Z_scope.

(** The keyword arguments of a request. *)
Record Kwargs := {
  k_action : string;
  k_params : option Dict;
  k_data : option string;
  k_headers : option Dict;
  k_method : string;
}.

Section Polling.

(** The response type of the request method. *)
Variable Resp : Type.

(** What happened, in order. *)
Inductive event :=
| Requested (k : Kwargs) (r : result Resp)
| Checked (r : Resp)                  (* [has_completed(response=r)] *)
| Slept (d : Z).

(** Time is counted in ticks of one millisecond; only a request and a
    sleep let it pass. *)
Record PollWorld := {
  now : Z;                            (* [time.time()] *)
  issued : nat;                       (* requests made so far *)
  trace : list event;
}.

(** The three extension points. *)
Class PollingHooks := {
  get_request_kwargs :
    string -> option Dict -> option string -> option Dict -> string
    -> option Dict -> Kwargs;
  get_poll_request_kwargs : Resp -> option Dict -> Kwargs -> result Kwargs;
  has_completed : Resp -> result bool;
}.

(** [PollingConnection] itself: the first has a body, the other two
    raise. *)
Definition BasePollingHooks : PollingHooks := {|
  get_request_kwargs action params data headers method context :=
    {| k_action := action; k_params := params; k_data := data;
       k_headers := headers; k_method := method |};
  get_poll_request_kwargs response context request_kwargs :=
    Raise (NotImplementedError "get_poll_request_kwargs not implemented");
  has_completed response :=
    Raise (NotImplementedError "has_completed not implemented");
|}.

(** The request method, [getattr(self, self.request_method)]: the [n]-th
    request made answers [fst (server n k)] after [snd (server n k)]
    ticks. *)
Variable server : nat -> Kwargs -> result Resp * Z.
Context {hooks : PollingHooks}.
(** The class attributes [poll_interval] and [timeout], in ticks: 1000
    times their values, [timeout] being a whole number of seconds. *)
Variable poll_interval : Z.
Variable timeout : Z.

Definition request (k : Kwargs) : M PollWorld Resp :=
  fun w =>
    let (r, d) := server (issued w) k in
    (r, {| now := now w + d; issued := S (issued w);
           trace := trace w ++ [Requested k r] |}).

(** [time.time()]: reading the clock takes no time. *)
Definition time : M PollWorld Z := fun w => (Ok (now w), w).

Definition sleep (d : Z) : M PollWorld unit :=
  fun w => (Ok tt, {| now := now w + d; issued := issued w;
                      trace := trace w ++ [Slept d] |}).

Definition lift {A} (r : result A) : M PollWorld A := fun w => (r, w).

Definition check (response : Resp) : M PollWorld bool :=
  fun w => (has_completed response,
            {| now := now w; issued := issued w;
               trace := trace w ++ [Checked response] |}).

(** The [while] loop; [None] when the fuel runs out before the loop
    ends. *)
Fixpoint poll_loop (fuel : nat) (end_ : Z) (kwargs : Kwargs)
    (response : Resp) (completed : bool)
  : M PollWorld (option (Resp * bool)) :=
  t <- time ;;
  if (t <? end_) && negb completed then
    match fuel with
    | O => ret None
    | S fuel' =>
        response <- request kwargs ;;
        completed <- check response ;;
        (if negb completed then sleep poll_interval else ret tt) ;;;
        poll_loop fuel' end_ kwargs response completed
    end
  else ret (Some (response, completed)).

Definition timeout_message : string :=
  "Job did not complete in "
  +:+ NilZero.string_of_int (Z.to_int (timeout / 1000)) +:+ " seconds".

(** [PollingConnection.async_request]. *)
Definition async_request (fuel : nat) (action : string)
    (params : option Dict) (data : option string) (headers : option Dict)
    (method : string) (context : option Dict)
  : M PollWorld (option Resp) :=
  let kwargs := get_request_kwargs action params data headers method context in
  response <- request kwargs ;;
  kwargs <- lift (get_poll_request_kwargs response context kwargs) ;;
  t <- time ;;
  let end_ := t + timeout in
  out <- poll_loop fuel end_ kwargs response false ;;
  match out with
  | None => ret None
  | Some (response, completed) =>
      if negb completed then raise (LibcloudError timeout_message)
      else ret (Some response)
  end.

(** Every [has_completed] comes right after a request, on the response
    that request returned. *)
Fixpoint checks_follow_requests (evs : list event) : Prop :=
  match evs with
  | [] => True
  | Requested _ (Ok r) :: Checked r' :: rest =>
      r' = r /\ checks_follow_requests rest
  | Checked _ :: _ => False
  | _ :: rest => checks_follow_requests rest
  end.

(** Ticks taken by the polls number [first] to [first + n - 1], each with
    the sleep that follows it. *)
Fixpoint elapsed (kwargs : Kwargs) (first n : nat) : Z :=
  match n with
  | O => 0
  | S n' => snd (server first kwargs) + poll_interval
            + elapsed kwargs (S first) n'
  end.

End Polling.

Arguments Requested {Resp} k r.
Arguments Checked {Resp} r.
Arguments Slept {Resp} d.
Arguments now {Resp} p.
Arguments issued {Resp} p.
Arguments trace {Resp} p.
Arguments get_request_kwargs {Resp PollingHooks}.
Arguments get_poll_request_kwargs {Resp PollingHooks}.
Arguments has_completed {Resp PollingHooks}.
Arguments request {Resp} server k.
Arguments poll_loop {Resp} server {hooks} poll_interval fuel end_ kwargs
  response completed.
Arguments async_request {Resp} server {hooks} poll_interval timeout fuel
  action params data headers method context.
Arguments checks_follow_requests {Resp} evs.
Arguments elapsed {Resp} server poll_interval kwargs first n.

(** The class attributes: [poll_interval = 0.5], [timeout = 200]. *)
Definition default_poll_interval : Z := 500.
Definition default_timeout : Z := 200000.

(** A job service: the initiating request and every poll from the third
    on answer [done], the first two polls answer [pending]; each request
    takes [d] ticks. *)
Definition job_server (d : Z) : nat -> Kwargs -> result string * Z :=
  fun n _ => (Ok (if Nat.eqb n 1 || Nat.eqb n 2 then "pending" else "done"), d).

(** A job that never completes. *)
Definition stuck_server (d : Z) : nat -> Kwargs -> result string * Z :=
  fun _ _ => (Ok "pending", d).

Definition job_kwargs : Kwargs :=
  {| k_action := "/jobs/1"; k_params := None; k_data := None;
     k_headers := None; k_method := "GET" |}.

Definition JobHooks : PollingHooks string := {|
  get_request_kwargs action params data headers method context :=
    {| k_action := action; k_params := params; k_data := data;
       k_headers := headers; k_method := method |};
  get_poll_request_kwargs response context request_kwargs := Ok job_kwargs;
  has_completed response := Ok (String.eqb response "done");
|}.

Definition idle : PollWorld string := {| now := 0; issued := 0%nat; trace := [] |}.

End PollingM.

(** ** [LazyObject]: construction put off until the first attribute access *)

Module LazyObjectM.
Import Py.
Local Open Scope py_scope.

Section Lazy.

(** Attribute values; an instance of the class is its attribute
    dictionary. *)
Variable Val : Type.

#[local] Abbreviation Instance := (gmap string Val).

(** The call of the class with the arguments given to [lazy]:
    [construct n] is what the call number [n] gives. *)
Variable construct : nat -> result Instance.

(** The proxy: its [_lazy_obj] slot, and how many times the class was
    called. *)
Record Proxy := {
  _lazy_obj : option Instance;
  constructed : nat;
}.

(** [cls.lazy(...)], that is [cls._proxy(...)]: the proxy's own
    [__init__] does nothing. *)
Definition lazy : Proxy := {| _lazy_obj := None; constructed := 0 |}.

Definition _get_lazy_obj : M Proxy Instance :=
  fun p =>
    match _lazy_obj p with
    | Some lazy_obj => (Ok lazy_obj, p)
    | None =>
        match construct (constructed p) with
        | Ok lazy_obj =>
            (Ok lazy_obj, {| _lazy_obj := Some lazy_obj;
                             constructed := S (constructed p) |})
        | Raise e =>
            (Raise e, {| _lazy_obj := None; constructed := S (constructed p) |})
        end
    end.

(** [getattr(lazy_obj, attr)]. *)
Definition getattr (lazy_obj : Instance) (attr : string) : result Val :=
  match lazy_obj !! attr with
  | Some v => Ok v
  | None => Raise (AttributeError attr)
  end.

Definition __getattribute__ (attr : string) : M Proxy Val :=
  lazy_obj <- _get_lazy_obj ;;
  fun p => (getattr lazy_obj attr, p).

(** [setattr(lazy_obj, attr, value)] changes the object the slot refers
    to. *)
Definition __setattr__ (attr : string) (value : Val) : M Proxy unit :=
  lazy_obj <- _get_lazy_obj ;;
  modify (fun p => {| _lazy_obj := Some (<[attr := value]> lazy_obj);
                      constructed := constructed p |}).

(** What a holder of the proxy does with it. *)
Inductive use :=
| Get (attr : string)
| Put (attr : string) (value : Val).

Definition apply_use (u : use) : M Proxy (option Val) :=
  match u with
  | Get attr => v <- __getattribute__ attr ;; ret (Some v)
  | Put attr value => __setattr__ attr value ;;; ret None
  end.

(** A sequence of uses; one that raises does not stop the holder from
    going on. *)
Fixpoint uses (l : list use) (p : Proxy) : list (result (option Val)) * Proxy :=
  match l with
  | [] => ([], p)
  | u :: r =>
      match apply_use u p with
      | (v, p') =>
          match uses r p' with
          | (vs, p'') => (v :: vs, p'')
          end
      end
  end.

(** The same uses made of the object itself. *)
Definition direct_use (u : use) (o : Instance) : result (option Val) * Instance :=
  match u with
  | Get attr =>
      (match getattr o attr with
       | Ok v => Ok (Some v)
       | Raise e => Raise e
       end, o)
  | Put attr value => (Ok None, <[attr := value]> o)
  end.

Fixpoint direct_uses (l : list use) (o : Instance)
  : list (result (option Val)) * Instance :=
  match l with
  | [] => ([], o)
  | u :: r =>
      match direct_use u o with
      | (v, o') =>
          match direct_uses r o' with
          | (vs, o'') => (v :: vs, o'')
          end
      end
  end.

End Lazy.

Arguments _lazy_obj {Val} p.
Arguments constructed {Val} p.
Arguments lazy {Val}.
Arguments Get {Val} attr.
Arguments Put {Val} attr value.
Arguments getattr {Val} lazy_obj attr.
Arguments _get_lazy_obj {Val} construct.
Arguments __getattribute__ {Val} construct attr.
Arguments __setattr__ {Val} construct attr value.
Arguments apply_use {Val} construct u.
Arguments uses {Val} construct l p.
Arguments direct_use {Val} u o.
Arguments direct_uses {Val} l o.

(** A class whose constructor fails at the first call and gives an object
    with one attribute afterwards. *)
Definition flaky : nat -> result (gmap string Z) :=
  fun n => match n with
           | O => Raise (OtherError "ConnectionRefusedError")
           | S _ => Ok (<["retries" := Z.of_nat n]> ∅)
           end.

Definition steady : nat -> result (gmap string Z) :=
  fun _ => Ok (<["size" := 3%Z]> ∅).

End LazyObjectM.

(** ** [HTTPResponse.read] *)

Module HTTPResponseM.
Import Py.
Local Open Scope py_scope.

Section Read.

(** The state of the standard library's response object, with the two
    attributes the method looks at, and the two inherited methods it
    calls. *)
Variable St : Type.
Variable fp_is_None : St -> bool.
Variable _method : St -> string.
Variable close : St -> St.
Variable httplib_read : option Z -> St -> result string * St.

(** The object, and how often the inherited methods were called. *)
Record Obj := {
  state : St;
  closes : nat;
  inherited_reads : nat;
}.

Definition read (amt : option Z) : M Obj string :=
  fun o =>
    if fp_is_None (state o) then (Ok "", o)
    else if String.eqb (_method (state o)) "HEAD" then
      (Ok "", {| state := close (state o); closes := S (closes o);
                 inherited_reads := inherited_reads o |})
    else
      match httplib_read amt (state o) with
      | (r, s) => (r, {| state := s; closes := closes o;
                         inherited_reads := S (inherited_reads o) |})
      end.

(** A sequence of reads, each with its own [amt]. *)
Fixpoint read_all (amts : list (option Z)) (o : Obj) : list (result string) * Obj :=
  match amts with
  | [] => ([], o)
  | amt :: rest =>
      match read amt o with
      | (r, o') =>
          match read_all rest o' with
          | (rs, o'') => (r :: rs, o'')
          end
      end
  end.

End Read.

Arguments state {St} o.
Arguments closes {St} o.
Arguments inherited_reads {St} o.

(** A response as the standard library keeps it: the unread data, or
    nothing once it is closed. *)
Record Plain := {
  fp : option string;
  method : string;
}.

Definition plain_close (s : Plain) : Plain := {| fp := None; method := method s |}.

Definition plain_read (amt : option Z) (s : Plain) : result string * Plain :=
  match fp s with
  | Some data => (Ok data, {| fp := None; method := method s |})
  | None => (Ok "", s)
  end.

Definition plain_fp_is_None (s : Plain) : bool :=
  match fp s with None => true | Some _ => false end.

End HTTPResponseM.

(** ** [Connection.__init__], [_tuple_from_url] and [connect] *)

Module EndpointM.
Import PyStr Py.
Local Open Scope Z_scope.

(** What [urlparse] returns. *)
Record ParseResult := {
  scheme : string;
  netloc : string;
  path : string;
  params : string;
  query : string;
  fragment : string;
}.

(** The class attributes a subclass overrides. *)
Record ConnClass := {
  cls_host : string;              (* [host = "127.0.0.1"] *)
  cls_timeout : option Z;         (* [timeout = None] *)
  allow_insecure : bool;          (* [allow_insecure = True] *)
}.

(** The attributes [__init__] sets. *)
Record Attrs := {
  secure : Z;
  ua : list string;
  context : Dict;
  request_path : string;
  host : string;
  port : Z;
  timeout : option Z;
  retry_delay : option Z;
  backoff : option Z;
  proxy_url : option string;
}.

(** Truthiness of an optional string and of an optional number. *)
Definition truthy_str (s : option string) : bool :=
  match s with Some x => truthy x | None => false end.

Definition truthy_num (n : option Z) : bool :=
  match n with Some x => negb (x =? 0) | None => false end.

(** A keyword argument's value. *)
Inductive kwval :=
| KNone
| KBool (b : bool)
| KInt (z : Z)
| KStr (s : string).

Definition KwDict := list (string * kwval).

(** [kwargs.update({k: v})] and [kwargs.get(k)]. *)
Fixpoint kw_set (k : string) (v : kwval) (d : KwDict) : KwDict :=
  match d with
  | [] => [(k, v)]
  | (k', v') :: r =>
      if String.eqb k' k then (k', v) :: r else (k', v') :: kw_set k v r
  end.

Fixpoint kw_get (k : string) (d : KwDict) : option kwval :=
  match d with
  | [] => None
  | (k', v) :: r => if String.eqb k' k then Some v else kw_get k r
  end.

(** Attributes that only some connection classes or instances have:
    [None] when the attribute is not there. *)
Record Optional := {
  base_url : option string;
  key_file : option kwval;
  cert_file : option kwval;
}.

Section Url.

(** The two library functions: [urlparse.urlparse], and [int] applied to
    a string ([None] when it raises [ValueError]). *)
Variable urlparse : string -> result ParseResult.
Variable int : string -> option Z.

Definition default_port (scheme : string) : Z :=
  if String.eqb scheme "http" then 80 else 443.

(** [Connection._tuple_from_url]. *)
Definition _tuple_from_url (url : string) : result (string * Z * Z * string) :=
  match urlparse url with
  | Raise e => Raise e
  | Ok u =>
      if negb (existsb (String.eqb (scheme u)) ["http"; "https"]) then
        Raise (LibcloudError
                 ("Invalid scheme: " +:+ scheme u +:+ " in url " +:+ url))
      else
        let secure := if String.eqb (scheme u) "http" then 0 else 1 in
        let split_port : result (string * option Z) :=
          if contains ":" (netloc u) then
            match split ":" (netloc u) with
            | [netloc; port] =>
                match int port with
                | Some port => Ok (netloc, Some port)
                | None => Raise (OtherError "ValueError: invalid literal for int()")
                end
            | _ => Raise (OtherError "ValueError: too many values to unpack (expected 2)")
            end
          else Ok (netloc u, None) in
        match split_port with
        | Raise e => Raise e
        | Ok (netloc, port) =>
            let port := if truthy_num port
                        then match port with Some p => p | None => 0 end
                        else default_port (scheme u) in
            Ok (netloc, port, secure, path u)
        end
  end.

(** [Connection.__init__]. *)
Definition Connection_init (cls : ConnClass) (secure : bool)
    (host : option string) (port : option Z) (url : option string)
    (timeout : option Z) (proxy_url : option string)
    (retry_delay backoff : option Z) : result Attrs :=
  let self_secure := if secure then 1 else 0 in
  if negb (allow_insecure cls) && negb secure then
    Raise (OtherError
             "ValueError: Non https connections are not allowed (use secure=True)")
  else
    let self_host := if truthy_str host
                     then match host with Some h => h | None => "" end
                     else cls_host cls in
    let self_port := match port with
                     | Some p => p
                     | None => if self_secure =? 1 then 443 else 80
                     end in
    let self_timeout := if truthy_num timeout then timeout else cls_timeout cls in
    if truthy_str url then
      match _tuple_from_url (match url with Some u => u | None => "" end) with
      | Raise e => Raise e
      | Ok (h, p, s, rp) =>
          Ok {| secure := s; ua := []; context := []; request_path := rp;
                host := h; port := p; timeout := self_timeout;
                retry_delay := retry_delay; backoff := backoff;
                proxy_url := proxy_url |}
      end
    else
      Ok {| secure := self_secure; ua := []; context := []; request_path := "";
            host := self_host; port := self_port; timeout := self_timeout;
            retry_delay := retry_delay; backoff := backoff;
            proxy_url := proxy_url |}.

(** [Connection.connect] up to the call of [conn_class]: the keyword
    arguments the transport is built with.  [hasattr(kwargs, ...)] asks a
    [dict] for an attribute it never has, so each of the tests on
    [kwargs] succeeds. *)
Definition connect (self : Attrs) (opt : Optional)
    (host : option string) (port : option Z) (base_url : option string)
    (kwargs : KwDict) : result KwDict :=
  let endpoint : result (string * Z) :=
    if truthy_str (EndpointM.base_url opt)
       && match base_url with None => true | Some _ => false end
    then
      match _tuple_from_url
              (match EndpointM.base_url opt with Some u => u | None => "" end) with
      | Ok (h, p, _, _) => Ok (h, p)
      | Raise e => Raise e
      end
    else
      match base_url with
      | Some b =>
          match _tuple_from_url b with
          | Ok (h, p, _, _) => Ok (h, p)
          | Raise e => Raise e
          end
      | None =>
          Ok (if truthy_str host
              then match host with Some h => h | None => "" end
              else EndpointM.host self,
              if truthy_num port
              then match port with Some p => p | None => 0 end
              else EndpointM.port self)
      end in
  match endpoint with
  | Raise e => Raise e
  | Ok (host, port) =>
      let kwargs := kw_set "host" (KStr host) kwargs in
      let kwargs := kw_set "port" (KInt port) kwargs in
      let kwargs := kw_set "secure" (KInt (secure self)) kwargs in
      let kwargs := match key_file opt with
                    | Some v => kw_set "key_file" v kwargs
                    | None => kwargs
                    end in
      let kwargs := match cert_file opt with
                    | Some v => kw_set "cert_file" v kwargs
                    | None => kwargs
                    end in
      let kwargs := if truthy_num (timeout self)
                    then kw_set "timeout"
                           (match timeout self with Some t => KInt t | None => KNone end)
                           kwargs
                    else kwargs in
      let kwargs := if truthy_str (proxy_url self)
                    then kw_set "proxy_url"
                           (match proxy_url self with Some p => KStr p | None => KNone end)
                           kwargs
                    else kwargs in
      Ok kwargs
  end.

End Url.

(** Stand-ins for the two library functions, enough to evaluate the
    methods on [scheme://netloc/path] URLs with a decimal port. *)
Fixpoint digits (s : string) (acc : Z) : option Z :=
  match s with
  | EmptyString => Some acc
  | String c r =>
      let n := Z.of_nat (nat_of_ascii c) in
      if (48 <=? n) && (n <=? 57) then digits r (10 * acc + (n - 48)) else None
  end.

Definition decimal (s : string) : option Z :=
  match s with
  | EmptyString => None
  | _ => digits s 0
  end.

(** The text before the first [ch], and the text from it on. *)
Fixpoint break (ch : ascii) (s : string) : string * string :=
  match s with
  | EmptyString => ("", "")
  | String c r =>
      if Ascii.eqb c ch then ("", s)
      else let (a, b) := break ch r in (String c a, b)
  end.

Definition simple_urlparse (url : string) : result ParseResult :=
  let (sch, rest) := break ":" url in
  if startswith "://" rest then
    let (nl, p) := break "/" (substring 3 (String.length rest) rest) in
    Ok {| scheme := sch; netloc := nl; path := p; params := ""; query := "";
          fragment := "" |}
  else
    Ok {| scheme := ""; netloc := ""; path := url; params := ""; query := "";
          fragment := "" |}.

(** A class that does not allow insecure connections, a connection with
    the default attributes, and one without optional attributes. *)
Definition https_only : ConnClass :=
  {| cls_host := "127.0.0.1"; cls_timeout := None; allow_insecure := false |}.

Definition default_attrs : Attrs :=
  {| secure := 1; ua := []; context := []; request_path := "";
     host := "127.0.0.1"; port := 443; timeout := None; retry_delay := None;
     backoff := None; proxy_url := None |}.

Definition no_optional : Optional :=
  {| base_url := None; key_file := None; cert_file := None |}.

End EndpointM.

(** ** [Connection]: the user agent, and the vocabulary of the request
    properties *)

Module ConnectionToolsM.
Import PyStr Py Urllib UrlEncode Morph ResponseM RawResponseM ConnectionM.
Local Open Scope py_scope.
Local Open Scope Z_scope.

(** [d.get(k)]. *)
Fixpoint dict_get (k : string) (d : Dict) : option pval :=
  match d with
  | [] => None
  | (k', v) :: r => if String.eqb k' k then Some v else dict_get k r
  end.

(** [Connection.user_agent_append]: [self.ua.append(token)]. *)
Definition user_agent_append (token : string) : M World unit :=
  modify (fun w =>
    set_conn
      {| context := context (conn w); request_path := request_path (conn w);
         host := host (conn w); port := port (conn w);
         timeout := timeout (conn w); retry_delay := retry_delay (conn w);
         backoff := backoff (conn w);
         cache_busting := cache_busting (conn w);
         ua := ua (conn w) ++ [token];
         driver := driver (conn w); class_name := class_name (conn w);
         responseCls := responseCls (conn w); action := action (conn w);
         method := method (conn w); data := data (conn w);
         connection := connection (conn w) |} w).

(** What [_add_cache_busting_to_params] makes of the object it is
    given. *)
Definition with_cache_busting (g : Globals) (o : obj) : obj :=
  match o with
  | ODict d => ODict (dict_set "cache-busting" (VStr (urandom_hex g)) d)
  | OList l => OList (l ++ [("cache-busting", VStr (urandom_hex g))])
  end.

(** The value of the [Host] header, lines 627 to 632 of [request]. *)
Definition host_header (c : Conn) : string :=
  if negb (existsb (Z.eqb (port c)) [80; 443])
  then host c +:+ ":" +:+ str_of_Z (port c)
  else host c.

(** The three headers [request] sets itself, in the order it sets
    them. *)
Definition own_headers (g : Globals) (c : Conn) : Dict :=
  [("User-Agent", VStr (_user_agent g c));
   ("Accept-Encoding", VStr "gzip,deflate");
   ("Host", VStr (host_header c))].

(** The exchange [_retryable_request] asks of the transport, [h] being
    the headers object. *)
Definition exchange_of (args : ReqArgs) (h : obj) : Exchange :=
  {| prepared := a_raw args; x_method := a_method args; x_url := a_url args;
     x_body := a_data args; x_headers := items h; x_stream := a_stream args |}.

(** The exceptions the two [except] clauses of [_retryable_request]
    name. *)
Definition caught (e : exn) : bool :=
  match e with
  | Gaierror _ _ | SSLError _ _ _ => true
  | _ => false
  end.

(** The text consists of white space only. *)
Fixpoint blank (s : string) : bool :=
  match s with
  | EmptyString => true
  | String c r => is_space c && blank r
  end.

(** A connection on port 8080 with two user-agent tokens, and a caller's
    headers that name a user agent and a host of their own. *)
Definition tagged_conn : Conn :=
  {| context := 2%positive; request_path := ""; host := "api.example.invalid";
     port := 8080; timeout := None; retry_delay := None; backoff := None;
     cache_busting := true; ua := ["tool/1.0"; "ci"]; driver := Some "Dummy";
     class_name := "Connection";
     responseCls := {| kind := JsonResponse; parse_zero_length_body := false |};
     action := None; method := None; data := None; connection := true |}.

Definition tagged_world : World :=
  {| heap := <[4%positive := ODict [("User-Agent", VStr "curl/8");
                                    ("Host", VStr "other.invalid");
                                    ("Accept", VStr "text/plain")]]>
               (<[3%positive := ODict [("limit", VStr "10");
                                       ("cache-busting", VStr "mine")]]>
                  (<[2%positive := ODict []]>
                     (<[1%positive := OList [("job", VStr "42")]]> ∅)));
     conn := tagged_conn;
     wire := {| current := None; fetches := 0 |};
     sent := []; parser_log := [] |}.

Definition tagged_prepared : result ReqArgs * World :=
  prepare (hooks := BaseHooks) plain_globals "/servers" (Some 3%positive) None
    (Some 4%positive) "GET" false false tagged_world.

Definition tagged_args : ReqArgs :=
  {| a_url := "/servers?limit=10&cache-busting=00"; a_method := "GET";
     a_raw := false; a_stream := false; a_headers := 6%positive;
     a_data := None |}.

(** The same call for an action that has a query of its own. *)
Definition detailed_prepared : result ReqArgs * World :=
  prepare (hooks := BaseHooks) plain_globals "/servers?detail=1"
    (Some 3%positive) None (Some 4%positive) "GET" false false tagged_world.

Definition detailed_args : ReqArgs :=
  {| a_url := "/servers?detail=1&limit=10&cache-busting=00";
     a_method := "GET"; a_raw := false; a_stream := false;
     a_headers := 6%positive; a_data := None |}.

(** The hooks of [Connection] run for [/servers] and for an action with a
    query of its own, under the prefix [/api]. *)
Definition sample_hooked (action : string)
  : result (string * loc * loc * option string) * World :=
  run_hooks (hooks := BaseHooks) plain_globals action (Some 3%positive) None
    (Some 4%positive) "GET" sample_world.

(** The same connection with an empty dictionary for the caller to pass
    as parameters. *)
Definition bare_world : World :=
  set_heap (<[5%positive := ODict []]> (heap tagged_world)) tagged_world.

(** The headers object of that request, the same request as a raw one,
    and a transport that answers with an error status. *)
Definition tagged_headers : obj :=
  ODict [("User-Agent", VStr "libcloud/3.4.0 (Dummy) (tool/1.0) (ci)");
         ("Host", VStr "api.example.invalid:8080");
         ("Accept", VStr "text/plain");
         ("Accept-Encoding", VStr "gzip,deflate")].

Definition tagged_raw_args : ReqArgs :=
  {| a_url := "/servers?limit=10&cache-busting=00"; a_method := "GET";
     a_raw := true; a_stream := false; a_headers := 6%positive;
     a_data := None |}.

Definition unavailable : HttpResp :=
  {| status_code := 503; reason := "Service Unavailable"; resp_headers := [];
     text := Some "null"; content := "null" |}.

Definition answers_unavailable : nat -> Exchange -> wire_outcome :=
  fun _ _ => Answers unavailable.

(** A transport whose TLS handshake fails on the certificate. *)
Definition verify_failed : ssl_text :=
  SText "[SSL: CERTIFICATE_VERIFY_FAILED] certificate verify failed".

Definition no_certificate : nat -> Exchange -> wire_outcome :=
  fun _ _ => Fails (SSLError "SSLCertVerificationError" (Some 1) verify_failed).

(** An XML reader like lxml's on a text with an encoding declaration:
    it raises [ValueError] for a [str] and reads the bytes. *)
Definition bytes_only_xml (c : parser_call) : xml_outcome :=
  match c with
  | XmlBytes s =>
      if String.eqb s "<ok/>" then XParsed (Element "ok" [] "" [])
      else XError
  | XmlStr _ => XValueError
  | JsonLoads _ => XError
  end.

End ConnectionToolsM.

(** ** [PollingConnection]: vocabulary of the trace properties *)

Module PollingToolsM.
Import Py PollingM.
Local Open Scope Z_scope.

(** Every request of the trace is made with the keyword arguments [k],
    and every sleep lasts [d]. *)
Definition polls_with {Resp} (k : Kwargs) (d : Z) (evs : list (event Resp))
  : Prop :=
  Forall (fun ev => match ev with
                    | Requested k' _ => k' = k
                    | Slept d' => d' = d
                    | Checked _ => True
                    end) evs.

(** The number of requests in a trace. *)
Fixpoint requests {Resp} (evs : list (event Resp)) : nat :=
  match evs with
  | [] => 0
  | Requested _ _ :: rest => S (requests rest)
  | _ :: rest => requests rest
  end.

(** The world after a poll that answered [r1] in [d] ticks and whose
    completion test gave [c1]. *)
Definition after_poll {Resp} (poll_interval : Z) (k : Kwargs)
    (w : PollWorld Resp) (r1 : Resp) (d : Z) (c1 : bool) : PollWorld Resp :=
  {| now := now w + d + (if c1 then 0 else poll_interval);
     issued := S (issued w);
     trace := trace w ++ [Requested k (Ok r1); Checked r1]
                ++ (if c1 then [] else [Slept poll_interval]) |}.

(** A job that is done from the start. *)
Definition done_server (d : Z) : nat -> Kwargs -> result string * Z :=
  fun _ _ => (Ok "done", d).

(** What the poll number [n] does when it fails with [e]: the request
    raises, or it answers and the completion test raises. *)
Definition fails_with {Resp} (server : nat -> Kwargs -> result Resp * Z)
    {hooks : PollingHooks Resp} (k : Kwargs) (n : nat) (e : exn) : Prop :=
  fst (server n k) = Raise e
  \/ exists r, fst (server n k) = Ok r /\ has_completed r = Raise e.
(** A service whose third request fails. *)
Definition failing_server (d : Z) : nat -> Kwargs -> result string * Z :=
  fun n _ => if Nat.leb n 1 then (Ok "pending", d)
             else (Raise (OtherError "ConnectionError"), d).

End PollingToolsM.

(** ** [BaseDriver.__init__]: the call of the connection class *)

Module DriverM.
Import PyStr Py EndpointM.
Local Open Scope Z_scope.

(** Truthiness of a value. *)
Definition kw_truthy (v : kwval) : bool :=
  match v with
  | KNone => false
  | KBool b => b
  | KInt z => negb (z =? 0)
  | KStr s => truthy s
  end.

(** [d.pop(k, None)]: the value, and the dictionary without the key (a
    key is in a dictionary once; of a list that holds it more often all
    its entries go). *)
Definition kw_pop (k : string) (d : KwDict) : kwval :=
  match kw_get k d with
  | Some v => v
  | None => KNone
  end.

Fixpoint kw_del (k : string) (d : KwDict) : KwDict :=
  match d with
  | [] => []
  | (k', v) :: r =>
      if String.eqb k' k then kw_del k r else (k', v) :: kw_del k r
  end.

(** The positional and the keyword arguments [BaseDriver.__init__] calls
    [connectionCls] with; [ex] is what [_ex_connection_class_kwargs]
    returns and [kwargs] the extra keyword arguments of the driver. *)
Definition connection_call (ex : KwDict) (key : string)
    (secret : option string) (secure : bool) (host : option string)
    (port : option Z) (kwargs : KwDict) : list kwval * KwDict :=
  let conn_kwargs := ex in
  let conn_kwargs := kw_set "timeout" (kw_pop "timeout" kwargs) conn_kwargs in
  let conn_kwargs :=
    kw_set "retry_delay" (kw_pop "retry_delay" kwargs) conn_kwargs in
  let conn_kwargs := kw_set "backoff" (kw_pop "backoff" kwargs) conn_kwargs in
  let conn_kwargs :=
    kw_set "proxy_url" (kw_pop "proxy_url" kwargs) conn_kwargs in
  let args := [KStr key] in
  let args := match secret with
              | Some s => args ++ [KStr s]
              | None => args
              end in
  let args := args ++ [KBool secure] in
  let host : kwval :=
    if kw_truthy (kw_pop "host" conn_kwargs)
    then kw_pop "host" conn_kwargs
    else match host with Some h => KStr h | None => KNone end in
  let conn_kwargs := kw_del "host" conn_kwargs in
  let args := match host with
              | KNone => args
              | _ => args ++ [host]
              end in
  let args := match port with
              | Some p => args ++ [KInt p]
              | None => args
              end in
  (args, conn_kwargs).

(** The parameters of [ConnectionKey.__init__] and of
    [ConnectionUserAndKey.__init__], after [self]. *)
Definition ConnectionKey_params : list string :=
  ["key"; "secure"; "host"; "port"; "url"; "timeout"; "proxy_url"; "backoff";
   "retry_delay"].

Definition ConnectionUserAndKey_params : list string :=
  ["user_id"; "key"; "secure"; "host"; "port"; "url"; "timeout"; "proxy_url";
   "backoff"; "retry_delay"].

(** Which parameter each positional argument of a call goes to; [None]
    when there are more arguments than parameters. *)
Fixpoint bind_positional (names : list string) (args : list kwval)
  : option KwDict :=
  match args with
  | [] => Some []
  | a :: rest =>
      match names with
      | [] => None
      | n :: names' =>
          match bind_positional names' rest with
          | Some b => Some ((n, a) :: b)
          | None => None
          end
      end
  end.

End DriverM.

(** * Properties *)

(** ** Facts about the string primitives *)

Module PyStrFacts.
Import PyStr.

Lemma append_nil_r (s : string) : s +:+ "" = s.
Proof. induction s as [|c s IH]; simpl; [reflexivity | now rewrite IH]. Qed.

Lemma append_assoc (a b c : string) : (a +:+ b) +:+ c = a +:+ (b +:+ c).
Proof. induction a as [|x a IH]; simpl; [reflexivity | now rewrite IH]. Qed.

Lemma split_not_nil sep s : split sep s <> [].
Proof.
  destruct s as [|c r]; simpl; [discriminate |].
  destruct (Ascii.eqb c sep); [discriminate |].
  destruct (split sep r); discriminate.
Qed.

(** Splitting around a separator splits the list of fields. *)
Lemma split_app_sep sep a b :
  split sep (a +:+ String sep b) = split sep a ++ split sep b.
Proof.
  induction a as [|c a IH]; simpl.
  - now rewrite Ascii.eqb_refl.
  - destruct (Ascii.eqb c sep); [now rewrite IH |].
    rewrite IH. destruct (split sep a) eqn:E; [|reflexivity].
    now apply split_not_nil in E.
Qed.

Lemma split_sep_free sep s :
  Forall (fun x => contains sep x = false) (split sep s).
Proof.
  induction s as [|c r IH]; simpl.
  - constructor; [reflexivity | constructor].
  - destruct (Ascii.eqb c sep) eqn:E.
    + constructor; [reflexivity | exact IH].
    + destruct (split sep r) as [|h t]; inversion IH; subst;
        constructor; simpl; try rewrite E; auto.
Qed.

Lemma join_split sep s : join (String sep "") (split sep s) = s.
Proof.
  induction s as [|c r IH]; simpl; [reflexivity |].
  destruct (Ascii.eqb c sep) eqn:E.
  - apply Ascii.eqb_eq in E; subst c.
    destruct (split sep r) eqn:S; [now apply split_not_nil in S |].
    simpl in *. now rewrite IH.
  - destruct (split sep r) as [|h t] eqn:S; [now apply split_not_nil in S |].
    destruct t; simpl in *; now rewrite <- IH.
Qed.

Lemma join_cons sep x y l :
  join sep (x :: y :: l) = x +:+ sep +:+ join sep (y :: l).
Proof. reflexivity. Qed.

Lemma join_snoc sep l x :
  l <> [] -> join sep (l ++ [x]) = join sep l +:+ sep +:+ x.
Proof.
  induction l as [|a l IH]; [congruence | intros _].
  destruct l as [|b l]; [reflexivity |].
  change ((a :: b :: l) ++ [x]) with (a :: b :: (l ++ [x])).
  rewrite !join_cons.
  change (b :: l ++ [x]) with ((b :: l) ++ [x]).
  rewrite IH by discriminate.
  now rewrite !append_assoc.
Qed.

Lemma lstrip_no_prefix ch s : startswith (String ch "") (lstrip ch s) = false.
Proof.
  induction s as [|c r IH]; simpl; [reflexivity |].
  destruct (Ascii.eqb c ch) eqn:E; [exact IH |].
  simpl. rewrite Ascii.eqb_sym, E. reflexivity.
Qed.

Lemma contains_app ch a b : contains ch (a +:+ b) = contains ch a || contains ch b.
Proof. induction a as [|c a IH]; simpl; [reflexivity | now rewrite IH, orb_assoc]. Qed.

Lemma doubled_sep_free ch s : contains ch s = false -> doubled ch s = false.
Proof.
  induction s as [|c r IH]; [reflexivity |].
  simpl contains. intros H. apply orb_false_iff in H as [Hc Hr].
  destruct r as [|d r']; [reflexivity |].
  change (doubled ch (String c (String d r')))
    with ((Ascii.eqb c ch && Ascii.eqb d ch) || doubled ch (String d r')).
  now rewrite Hc, IH.
Qed.

Lemma doubled_cons ch c s :
  doubled ch (String c s)
  = (Ascii.eqb c ch && startswith (String ch "") s) || doubled ch s.
Proof.
  destruct s as [|d r]; simpl; [now rewrite andb_false_r |].
  now rewrite andb_true_r, (Ascii.eqb_sym ch d).
Qed.

Lemma doubled_app_sep ch x t :
  contains ch x = false ->
  doubled ch (x +:+ String ch t) = startswith (String ch "") t || doubled ch t.
Proof.
  induction x as [|c x IH]; intros H.
  - simpl String.append. rewrite doubled_cons, Ascii.eqb_refl. reflexivity.
  - simpl in H. apply orb_false_iff in H as [Hc Hx].
    simpl String.append. rewrite doubled_cons, Hc, IH by assumption. reflexivity.
Qed.

Lemma startswith_app_nonempty ch x t :
  x <> "" -> startswith (String ch "") (x +:+ t) = startswith (String ch "") x.
Proof. destruct x; [congruence | reflexivity]. Qed.

Lemma startswith_sep_free ch x :
  contains ch x = false -> startswith (String ch "") x = false.
Proof.
  destruct x as [|c x]; [reflexivity |]. simpl. intros H.
  apply orb_false_iff in H as [Hc _]. now rewrite Ascii.eqb_sym, Hc.
Qed.

Lemma join_cons_char ch x y l :
  join (String ch "") (x :: y :: l)
  = x +:+ String ch (join (String ch "") (y :: l)).
Proof. reflexivity. Qed.

(** No doubled separator in a join whose inner fields are non-empty. *)
Lemma doubled_join ch l :
  Forall (sep_free ch) l ->
  Forall nonemptyP (removelast (tl l)) ->
  doubled ch (join (String ch "") l) = false.
Proof.
  destruct l as [|x l]; [reflexivity |].
  revert x. induction l as [|y l IH]; intros x Hf Hn.
  - simpl. apply doubled_sep_free. now inversion Hf.
  - rewrite join_cons_char. inversion Hf as [|? ? Hx Hf']; subst.
    rewrite doubled_app_sep by exact Hx.
    simpl tl in Hn.
    destruct l as [|z l].
    + change (join (String ch "") [y]) with y. inversion Hf'; subst.
      rewrite startswith_sep_free, doubled_sep_free by assumption. reflexivity.
    + change (removelast (y :: z :: l)) with (y :: removelast (z :: l)) in Hn.
      inversion Hn as [|? ? Hy Hn']; subst.
      rewrite IH; [| assumption | exact Hn'].
      rewrite join_cons_char, startswith_app_nonempty by exact Hy.
      inversion Hf'; subst. now rewrite startswith_sep_free.
Qed.

End PyStrFacts.

(** ** Facts about the [urllib.parse] fragment *)

Module UrllibFacts.
Import PyStr PyStrFacts Urllib.

Lemma removelast_rev {A} (l : list A) : removelast (rev l) = rev (tl l).
Proof.
  destruct l as [|a l]; [reflexivity |].
  simpl rev. now rewrite removelast_last.
Qed.

Lemma tl_rev {A} (l : list A) : tl (rev l) = rev (removelast l).
Proof.
  rewrite <- (rev_involutive l) at 2.
  now rewrite removelast_rev, rev_involutive.
Qed.

Lemma tl_removelast {A} (l : list A) : tl (removelast l) = removelast (tl l).
Proof. destruct l as [|a [|b l]]; reflexivity. Qed.

Lemma Forall_removelast {A} (P : A -> Prop) l :
  Forall P l -> Forall P (removelast l).
Proof.
  induction 1 as [|a l Ha Hl IH]; [constructor |].
  destruct l; [constructor | now constructor].
Qed.

Lemma Forall_tl {A} (P : A -> Prop) l : Forall P l -> Forall P (tl l).
Proof. destruct 1; [constructor | assumption]. Qed.

Lemma resolve_step_ok acc s :
  stack_ok acc -> nonemptyP s -> stack_ok (resolve_step acc s).
Proof.
  unfold stack_ok, resolve_step. intros Ha Hs.
  destruct (String.eqb s "..").
  - rewrite <- tl_removelast. now apply Forall_tl.
  - destruct (String.eqb s "."); [assumption |].
    destruct acc; [constructor |].
    change (removelast (s :: s0 :: acc)) with (s :: removelast (s0 :: acc)).
    now constructor.
Qed.

Lemma resolve_step_any acc s :
  stack_ok acc ->
  Forall nonemptyP (removelast (tl (resolve_step acc s)))
  /\ (is_dot s = true -> stack_ok (resolve_step acc s)).
Proof.
  unfold stack_ok, resolve_step, is_dot. intros Ha.
  destruct (String.eqb s "..") eqn:E1.
  - split; [| intros _]; rewrite <- !tl_removelast;
      repeat apply Forall_tl; assumption.
  - destruct (String.eqb s ".") eqn:E2.
    + split; [| intros _; assumption].
      rewrite <- tl_removelast. now apply Forall_tl.
    + split; [exact Ha | discriminate].
Qed.

Lemma fold_resolve_ok rest : forall acc,
  rest <> [] ->
  stack_ok acc ->
  Forall nonemptyP (removelast rest) ->
  let acc' := fold_left resolve_step rest acc in
  Forall nonemptyP (removelast (tl acc'))
  /\ (is_dot (List.last rest "") = true -> stack_ok acc').
Proof.
  induction rest as [|s rest IH]; intros acc Hne Ha Hr; [congruence |].
  destruct rest as [|s' rest].
  - simpl. now apply resolve_step_any.
  - change (removelast (s :: s' :: rest)) with (s :: removelast (s' :: rest)) in Hr.
    inversion Hr; subst.
    change (List.last (s :: s' :: rest) "") with (List.last (s' :: rest) "").
    change (fold_left resolve_step (s :: s' :: rest) acc)
      with (fold_left resolve_step (s' :: rest) (resolve_step acc s)).
    apply IH; [discriminate | | assumption].
    now apply resolve_step_ok.
Qed.

(** Resolving dot segments keeps the inner fields non-empty. *)
Lemma resolved_path_inner segs :
  Forall nonemptyP (removelast (tl segs)) ->
  Forall nonemptyP (removelast (tl (resolved_path segs))).
Proof.
  intros H. unfold resolved_path.
  destruct segs as [|f rest]; [constructor |].
  simpl tl in H.
  assert (H0 : stack_ok (resolve_step [] f)).
  { unfold stack_ok, resolve_step.
    destruct (String.eqb f ".."); [constructor |].
    destruct (String.eqb f "."); constructor. }
  assert (G : let acc' := fold_left resolve_step (f :: rest) [] in
              Forall nonemptyP (removelast (tl acc'))
              /\ (is_dot (List.last (f :: rest) "") = true -> stack_ok acc')).
  { destruct rest as [|s rest].
    - simpl. split; [| intros _; exact H0].
      rewrite <- tl_removelast. now apply Forall_tl.
    - change (List.last (f :: s :: rest) "") with (List.last (s :: rest) "").
      change (fold_left resolve_step (f :: s :: rest) [])
        with (fold_left resolve_step (s :: rest) (resolve_step [] f)).
      apply fold_resolve_ok; [discriminate | exact H0 | exact H]. }
  cbv zeta in G. destruct G as [G1 G2].
  destruct (is_dot (List.last (f :: rest) "")).
  - specialize (G2 eq_refl). unfold stack_ok in G2.
    destruct (fold_left resolve_step (f :: rest) []) as [|a acc] eqn:E.
    + constructor.
    + assert (Hn : rev (a :: acc) <> []).
      { intros C. apply (f_equal (@length _)) in C. rewrite length_rev in C. discriminate. }
      destruct (rev (a :: acc)) as [|b l] eqn:R; [congruence |].
      simpl tl. rewrite removelast_last.
      change l with (tl (b :: l)). rewrite <- R, tl_rev.
      apply Forall_rev. exact G2.
  - rewrite tl_rev, removelast_rev, tl_removelast. apply Forall_rev. exact G1.
Qed.

Lemma resolve_step_sep_free ch acc s :
  Forall (sep_free ch) acc -> sep_free ch s ->
  Forall (sep_free ch) (resolve_step acc s).
Proof.
  unfold resolve_step. intros Ha Hs.
  destruct (String.eqb s ".."); [now apply Forall_tl |].
  destruct (String.eqb s "."); [assumption | now constructor].
Qed.

Lemma resolved_path_sep_free ch segs :
  Forall (sep_free ch) segs -> Forall (sep_free ch) (resolved_path segs).
Proof.
  intros H. unfold resolved_path.
  assert (G : forall acc, Forall (sep_free ch) acc ->
                Forall (sep_free ch) (fold_left resolve_step segs acc)).
  { induction H as [|s segs Hs Hr IH]; intros acc Ha; [exact Ha |].
    simpl. apply IH. now apply resolve_step_sep_free. }
  specialize (G [] (List.Forall_nil _)).
  destruct (is_dot (List.last segs "")).
  - apply Forall_app. split; [now apply Forall_rev |].
    constructor; [reflexivity | constructor].
  - now apply Forall_rev.
Qed.

Lemma path_chars_app a b : path_chars (a +:+ b) = path_chars a && path_chars b.
Proof. induction a as [|c a IH]; simpl; [reflexivity | now rewrite IH, andb_assoc]. Qed.

Lemma path_chars_lstrip ch s : path_chars s = true -> path_chars (lstrip ch s) = true.
Proof.
  induction s as [|c r IH]; simpl; [reflexivity |]. intros H.
  apply andb_true_iff in H as [Hc Hr].
  destruct (Ascii.eqb c ch); [auto | simpl; now rewrite Hc, Hr].
Qed.

Lemma path_chars_rstrip ch s : path_chars s = true -> path_chars (rstrip ch s) = true.
Proof.
  induction s as [|c r IH]; simpl; [reflexivity |]. intros H.
  apply andb_true_iff in H as [Hc Hr].
  destruct (Ascii.eqb c ch && String.eqb (rstrip ch r) ""); [reflexivity |].
  simpl. now rewrite Hc, IH.
Qed.

Lemma rstrip_startswith ch s :
  startswith (String ch "") s = false ->
  startswith (String ch "") (rstrip ch s) = false.
Proof.
  destruct s as [|c r]; simpl; [reflexivity |].
  rewrite andb_true_r. intros H.
  destruct (Ascii.eqb c ch && String.eqb (rstrip ch r) ""); [reflexivity |].
  simpl. now rewrite H.
Qed.

Lemma startswith_2_1 ch s :
  startswith (String ch "") s = false ->
  startswith (String ch (String ch "")) s = false.
Proof.
  destruct s as [|c r]; simpl; [reflexivity |].
  rewrite andb_true_r. now intros ->.
Qed.

Lemma startswith_2_app ch s :
  startswith (String ch "") s = false ->
  startswith (String ch (String ch "")) (s +:+ String ch "") = false.
Proof.
  destruct s as [|c r]; simpl.
  - intros _. now rewrite andb_false_r.
  - rewrite andb_true_r. now intros ->.
Qed.

Lemma startswith_2_doubled ch s :
  doubled ch s = false -> startswith (String ch (String ch "")) s = false.
Proof.
  destruct s as [|c [|d r]]; simpl; try reflexivity.
  - now rewrite andb_false_r.
  - rewrite andb_true_r. intros H. apply orb_false_iff in H as [H _].
    now rewrite (Ascii.eqb_sym ch c), (Ascii.eqb_sym ch d).
Qed.

(** Stripping separators does not change the non-empty fields. *)
Lemma fields_lstrip s : fields (lstrip slash s) = fields s.
Proof.
  unfold fields. induction s as [|c r IH]; [reflexivity |].
  cbn [lstrip]. destruct (Ascii.eqb c slash) eqn:E; [| reflexivity].
  cbn [split]. rewrite E. exact IH.
Qed.

Lemma rstrip_decompose ch s :
  exists t, s = rstrip ch s +:+ t /\ all_sep ch t.
Proof.
  induction s as [|c r [t [E Ht]]]; [exists ""; now split |].
  simpl. destruct (Ascii.eqb c ch) eqn:Ec; simpl.
  - apply Ascii.eqb_eq in Ec; subst c.
    destruct (String.eqb (rstrip ch r) "") eqn:Er.
    + apply String.eqb_eq in Er. rewrite Er in E. simpl in E. subst r.
      exists (String ch t). now repeat split.
    + exists t. split; [simpl; now rewrite <- E | exact Ht].
  - exists t. split; [simpl; now rewrite <- E | exact Ht].
Qed.

Lemma fields_app_all_sep a t : all_sep slash t -> fields (a +:+ t) = fields a.
Proof.
  revert a. induction t as [|c t IH]; intros a H.
  - now rewrite append_nil_r.
  - destruct H as [-> H]. unfold fields in *.
    rewrite split_app_sep, List.filter_app.
    specialize (IH "" H). simpl in IH. rewrite IH. apply app_nil_r.
Qed.

Lemma fields_rstrip s : fields (rstrip slash s) = fields s.
Proof.
  destruct (rstrip_decompose slash s) as [t [E Ht]].
  rewrite E at 2. symmetry. now apply fields_app_all_sep.
Qed.

Lemma split_head sep s :
  s <> "" -> startswith (String sep "") s = false ->
  exists h t, split sep s = h :: t /\ h <> "".
Proof.
  destruct s as [|c r]; [congruence |]. intros _. simpl.
  rewrite andb_true_r, Ascii.eqb_sym. intros ->.
  destruct (split sep r) as [|h t]; eexists _, _; (split; [reflexivity | discriminate]).
Qed.

(** A reference is its path followed by its query and its fragment. *)
Lemma cut_join ch s : fst (cut ch s) +:+ behind ch (snd (cut ch s)) = s.
Proof.
  induction s as [|c r IH]; cbn [cut]; [reflexivity |].
  destruct (Ascii.eqb c ch) eqn:E; cbn [fst snd behind String.append].
  - apply Ascii.eqb_eq in E. now subst c.
  - now rewrite IH.
Qed.

Lemma path_tail_join url : path_of url +:+ tail_of url = url.
Proof.
  unfold path_of, tail_of, query_of, fragment_of.
  rewrite <- append_assoc, cut_join. apply cut_join.
Qed.

Lemma cut_absent ch s : contains ch s = false -> cut ch s = (s, None).
Proof.
  induction s as [|c r IH]; cbn [cut contains]; [reflexivity |].
  intros H. apply orb_false_iff in H as [Hc Hr]. rewrite Hc.
  now rewrite (IH Hr).
Qed.

Lemma path_chars_contains s :
  path_chars s = true -> contains "?" s = false /\ contains "#" s = false.
Proof.
  induction s as [|c r IH]; cbn [path_chars contains]; [auto |].
  intros H. apply andb_true_iff in H as [Hc Hr].
  destruct (IH Hr) as [-> ->]. rewrite !orb_false_r.
  unfold path_char in Hc. rewrite !andb_true_iff, !negb_true_iff in Hc.
  tauto.
Qed.

(** A bare path is a reference without query and fragment. *)
Lemma path_of_plain s :
  path_chars s = true ->
  path_of s = s /\ query_of s = None /\ fragment_of s = None.
Proof.
  intros H. destruct (path_chars_contains s H) as [Q F].
  unfold path_of, query_of, fragment_of.
  rewrite (cut_absent _ _ F). cbn [fst snd].
  rewrite (cut_absent _ _ Q). auto.
Qed.

Lemma tail_of_plain s : path_chars s = true -> tail_of s = "".
Proof.
  intros H. destruct (path_of_plain s H) as [_ [Q F]].
  unfold tail_of. now rewrite Q, F.
Qed.

Lemma relative_ref_plain s :
  bare_path s = true -> startswith "/" s = false -> relative_ref s = true.
Proof.
  intros B S. assert (H : path_chars s = true).
  { unfold bare_path in B. now apply andb_true_iff in B as [B _]. }
  destruct (path_of_plain s H) as [P [Q F]].
  unfold relative_ref. now rewrite P, Q, F, B, S.
Qed.

Lemma urljoin_ref_plain base s :
  path_chars s = true -> urljoin_ref base s = urljoin_path base s.
Proof.
  intros H. unfold urljoin_ref, urljoin_path.
  destruct (String.eqb base ""); [reflexivity |].
  destruct (String.eqb s "") eqn:E; [reflexivity |].
  rewrite (tail_of_plain s H), append_nil_r.
  destruct (path_of_plain s H) as [-> _].
  unfold urljoin_path. rewrite E.
  destruct (String.eqb base ""); reflexivity.
Qed.

(** Of a reference that is not empty the path is resolved and the rest
    is kept. *)
Lemma urljoin_ref_split base url :
  base <> "" ->
  urljoin_ref base url = urljoin_path base (path_of url) +:+ tail_of url.
Proof.
  intros B. unfold urljoin_ref.
  destruct (String.eqb_spec base ""); [contradiction |].
  destruct (String.eqb_spec url "") as [-> | _]; [| reflexivity].
  cbn. unfold urljoin_path.
  destruct (String.eqb_spec base ""); [contradiction |].
  cbn. now rewrite append_nil_r.
Qed.

Lemma urljoin_path_nonempty base p : base <> "" -> urljoin_path base p <> "".
Proof.
  intros B. unfold urljoin_path.
  destruct (String.eqb_spec base ""); [contradiction |].
  destruct (String.eqb_spec p ""); [exact B |].
  cbv zeta.
  match goal with
  | |- (if ?b then _ else _) <> _ => destruct b eqn:E
  end; [discriminate |].
  intros Q. rewrite Q in E. discriminate.
Qed.

(** Slashes stripped on the left of a reference are stripped from its
    path; the query and the fragment stay. *)
Lemma cut_lstrip ch s :
  Ascii.eqb slash ch = false ->
  cut ch (lstrip slash s)
  = (lstrip slash (fst (cut ch s)), snd (cut ch s)).
Proof.
  intros N. induction s as [|c r IH]; [reflexivity |].
  cbn [lstrip]. destruct (Ascii.eqb c slash) eqn:E.
  - apply Ascii.eqb_eq in E. subst c. cbn [cut]. rewrite N.
    cbn [fst snd lstrip]. rewrite Ascii.eqb_refl. exact IH.
  - cbn [cut]. destruct (Ascii.eqb c ch); cbn [fst snd lstrip];
      [reflexivity |]. now rewrite E.
Qed.

(** The colon of a scheme is in the path of the reference. *)
Lemma scheme_colon_in_path url : forall h rest,
  cut ":" url = (h, Some rest) -> scheme_chars h = true ->
  path_chars (path_of url) = false.
Proof.
  induction url as [|c r IH]; intros h rest; cbn [cut]; [discriminate |].
  destruct (Ascii.eqb c ":") eqn:E.
  - apply Ascii.eqb_eq in E. subst c. intros _ _. reflexivity.
  - intros [= <- R] S. cbn [scheme_chars] in S.
    apply andb_true_iff in S as [Sc Sh].
    assert (N : Ascii.eqb c "#" = false /\ Ascii.eqb c "?" = false).
    { split; destruct (Ascii.eqb_spec c "#"), (Ascii.eqb_spec c "?");
        subst; try reflexivity; discriminate. }
    destruct N as [N1 N2].
    assert (Q : path_of (String c r) = String c (path_of r)).
    { unfold path_of. cbn [cut]. rewrite N1. cbn [fst cut]. now rewrite N2. }
    rewrite Q. cbn [path_chars].
    rewrite (IH (fst (cut ":" r)) rest); [apply andb_false_r | | exact Sh].
    rewrite <- R. apply surjective_pairing.
Qed.

Lemma has_scheme_not_relative url :
  has_scheme url = true -> relative_ref url = false.
Proof.
  unfold has_scheme, relative_ref, bare_path.
  destruct (cut ":" url) as [[|c h] [rest|]] eqn:C; try discriminate.
  intros H. rewrite !andb_true_iff in H. destruct H as [[[[L S] _] _] _].
  rewrite (scheme_colon_in_path url (String c h) rest C); [reflexivity |].
  cbn [scheme_chars]. unfold scheme_char. now rewrite L, S.
Qed.

Lemma path_of_lstrip s : path_of (lstrip slash s) = lstrip slash (path_of s).
Proof.
  unfold path_of. rewrite (cut_lstrip "#") by reflexivity. cbn [fst].
  now rewrite (cut_lstrip "?") by reflexivity.
Qed.

Lemma tail_of_lstrip s : tail_of (lstrip slash s) = tail_of s.
Proof.
  unfold tail_of, query_of, fragment_of.
  rewrite (cut_lstrip "#") by reflexivity. cbn [fst snd].
  now rewrite (cut_lstrip "?") by reflexivity.
Qed.

Lemma query_of_lstrip s : query_of (lstrip slash s) = query_of s.
Proof.
  unfold query_of. rewrite (cut_lstrip "#") by reflexivity. cbn [fst].
  now rewrite (cut_lstrip "?") by reflexivity.
Qed.

Lemma fragment_of_lstrip s : fragment_of (lstrip slash s) = fragment_of s.
Proof.
  unfold fragment_of. now rewrite (cut_lstrip "#") by reflexivity.
Qed.

End UrllibFacts.

(** ** [morph_action_hook] *)

Module MorphFacts.
Import PyStr PyStrFacts Py Urllib UrllibFacts Morph.

Lemma app_slash_not_empty s : String.eqb (s +:+ "/") "" = false.
Proof. destruct s; reflexivity. Qed.

Lemma eqb_empty_false s : s <> "" -> String.eqb s "" = false.
Proof. destruct s; [congruence | reflexivity]. Qed.

Lemma split_app_slash s : split slash (s +:+ "/") = split slash s ++ [""].
Proof. apply (split_app_sep slash s ""). Qed.

Lemma stripped_prefix X :
  startswith "/" (rstrip slash (lstrip slash X)) = false.
Proof. apply rstrip_startswith, lstrip_no_prefix. Qed.

Lemma bare_path_base X :
  path_chars X = true ->
  bare_path (rstrip slash (lstrip slash X) +:+ "/") = true.
Proof.
  intros H. unfold bare_path.
  rewrite path_chars_app, path_chars_rstrip by now apply path_chars_lstrip.
  change "//" with (String slash (String slash "")).
  change "/" with (String slash "").
  rewrite startswith_2_app by apply stripped_prefix. reflexivity.
Qed.

Lemma bare_path_action P :
  path_chars P = true -> bare_path (lstrip slash P) = true.
Proof.
  intros H. unfold bare_path. rewrite path_chars_lstrip by assumption.
  change "//" with (String slash (String slash "")).
  rewrite startswith_2_1 by apply lstrip_no_prefix. reflexivity.
Qed.

(** With the flag off and a prefix and an action inside the fragment of
    [Urllib], what the hook returns is the join, behind a slash if it
    starts with none. *)
Lemma morph_known other X P :
  path_chars X = true -> relative_ref (lstrip slash P) = true ->
  morph_action_hook other false X P
  = Ok (slash_first
          (urljoin_ref (rstrip slash (lstrip slash X) +:+ "/")
             (lstrip slash P))).
Proof.
  intros HX HP. unfold morph_action_hook, urljoin.
  rewrite bare_path_base, HP by assumption. cbn [andb].
  unfold slash_first.
  match goal with |- context [negb ?b] => destruct (negb b) end; reflexivity.
Qed.

Lemma relative_ref_action P :
  path_chars P = true -> relative_ref (lstrip slash P) = true.
Proof.
  intros HP. apply relative_ref_plain; [now apply bare_path_action |].
  change "/" with (String slash ""). apply lstrip_no_prefix.
Qed.

Lemma morph_plain other X P :
  path_chars X = true -> path_chars P = true ->
  morph_action_hook other false X P
  = Ok (slash_first
          (urljoin_path (rstrip slash (lstrip slash X) +:+ "/")
             (lstrip slash P))).
Proof.
  intros HX HP. rewrite morph_known by auto using relative_ref_action.
  now rewrite urljoin_ref_plain by now apply path_chars_lstrip.
Qed.

Lemma morph_strict_unfold other X P :
  path_chars X = true -> path_chars P = true -> lstrip slash P <> "" ->
  morph_action_hook other false X P
  = Ok (slash_first
          (let q := join "/" (resolved_path (morph_segments X P)) in
           if String.eqb q "" then "/" else q)).
Proof.
  intros HX HP Hp. rewrite morph_plain by assumption. f_equal. f_equal.
  unfold urljoin_path.
  change "/" with (String slash "").
  rewrite app_slash_not_empty, (eqb_empty_false _ Hp), split_app_slash.
  rewrite last_last. change (nonempty "") with false. cbv iota.
  rewrite lstrip_no_prefix. unfold morph_segments.
  reflexivity.
Qed.

Lemma morph_root_unfold other X P :
  path_chars X = true -> path_chars P = true -> lstrip slash P = "" ->
  morph_action_hook other false X P
  = Ok (slash_first (rstrip slash (lstrip slash X) +:+ "/")).
Proof.
  intros HX HP Hp. rewrite morph_plain by assumption. f_equal. f_equal.
  rewrite Hp. unfold urljoin_path. rewrite app_slash_not_empty.
  reflexivity.
Qed.

Lemma nonempty_true s : nonempty s = true <-> s <> "".
Proof.
  unfold nonempty. destruct (String.eqb_spec s ""); simpl; split; congruence.
Qed.

Lemma Forall_filter_nonempty l : Forall nonemptyP (List.filter nonempty l).
Proof.
  induction l as [|a l IH]; simpl; [constructor |].
  destruct (nonempty a) eqn:E; [| exact IH].
  constructor; [now apply nonempty_true | exact IH].
Qed.

Lemma Forall_filter_weak {A} (Q : A -> Prop) f l :
  Forall Q l -> Forall Q (List.filter f l).
Proof.
  induction 1 as [|a l Ha Hl IH]; simpl; [constructor |].
  destruct (f a); [now constructor | exact IH].
Qed.

Lemma Forall_last_default {A} (Q : A -> Prop) l d :
  Forall Q l -> Q d -> Q (List.last l d).
Proof.
  induction 1 as [|a l Ha Hl IH]; intros Hd; [exact Hd |].
  destruct l; [exact Ha | now apply IH].
Qed.

Lemma filter_interior_cons x y r :
  filter_interior (x :: y :: r)
  = x :: List.filter nonempty (removelast (y :: r)) ++ [List.last (y :: r) ""].
Proof. reflexivity. Qed.

Lemma filter_interior_inner l :
  Forall nonemptyP (removelast (tl (filter_interior l))).
Proof.
  destruct l as [|x [|y r]]; try constructor.
  rewrite filter_interior_cons. cbn [tl]. rewrite removelast_last.
  apply Forall_filter_nonempty.
Qed.

Lemma Forall_filter_interior (Q : string -> Prop) l :
  Forall Q l -> Q "" -> Forall Q (filter_interior l).
Proof.
  intros H Hd. destruct l as [|x [|y r]]; try assumption.
  rewrite filter_interior_cons. inversion H as [|? ? Hx Hr]; subst.
  constructor; [exact Hx |]. apply Forall_app. split.
  - now apply Forall_filter_weak, Forall_removelast.
  - constructor; [now apply Forall_last_default | constructor].
Qed.

Lemma morph_segments_sep_free X P : Forall (sep_free slash) (morph_segments X P).
Proof.
  apply Forall_filter_interior; [| reflexivity].
  repeat (apply Forall_app; split); try apply split_sep_free.
  constructor; [reflexivity | constructor].
Qed.

Lemma slash_first_prefix u : startswith "/" (slash_first u) = true.
Proof.
  unfold slash_first. destruct (startswith "/" u) eqn:E; simpl; [exact E | reflexivity].
Qed.

Lemma slash_first_doubled u :
  doubled slash u = false -> doubled slash (slash_first u) = false.
Proof.
  intros H. unfold slash_first.
  destruct (startswith "/" u) eqn:E; simpl negb; cbv iota; [exact H |].
  change ("/" +:+ u) with (String slash u).
  rewrite doubled_cons, H.
  change (String slash "") with "/". now rewrite E.
Qed.

(** With the flag off and an action that is not all slashes, the result
    has one leading slash and no doubled slash. *)
Lemma morph_strict_no_doubled other X P :
  path_chars X = true -> path_chars P = true -> lstrip slash P <> "" ->
  exists r, morph_action_hook other false X P = Ok r
            /\ startswith "/" r = true /\ doubled slash r = false.
Proof.
  intros HX HP Hp. rewrite morph_strict_unfold by assumption.
  eexists; split; [reflexivity |]. split; [apply slash_first_prefix |].
  apply slash_first_doubled. cbv zeta.
  destruct (String.eqb _ ""); [reflexivity |].
  change "/" with (String slash "").
  apply doubled_join.
  - apply resolved_path_sep_free, morph_segments_sep_free.
  - apply resolved_path_inner, filter_interior_inner.
Qed.

(** With the flag off and an action made of slashes only, [urljoin] hands
    the base back untouched. *)
Lemma morph_root other X P :
  path_chars X = true -> path_chars P = true -> lstrip slash P = "" ->
  let xs := rstrip slash (lstrip slash X) in
  morph_action_hook other false X P
  = Ok (if String.eqb xs "" then "/" else "/" +:+ xs +:+ "/").
Proof.
  intros HX HP Hp xs. rewrite morph_root_unfold by assumption.
  f_equal. fold xs. pose proof (stripped_prefix X) as E. fold xs in E.
  unfold slash_first. destruct xs as [|c r]; [reflexivity |].
  simpl in E. rewrite andb_true_r in E.
  simpl. now rewrite E.
Qed.

Lemma fold_resolve_no_dot segs : forall acc,
  Forall not_dot segs -> fold_left resolve_step segs acc = rev segs ++ acc.
Proof.
  induction segs as [|s segs IH]; intros acc H; [reflexivity |].
  inversion H as [|? ? Hs Hr]; subst. cbn [fold_left rev].
  rewrite IH by assumption. rewrite <- app_assoc. cbn [app]. f_equal.
  unfold resolve_step. unfold not_dot, is_dot in Hs.
  apply orb_false_iff in Hs as [-> ->]. reflexivity.
Qed.

Lemma resolved_path_no_dot segs : Forall not_dot segs -> resolved_path segs = segs.
Proof.
  intros H. unfold resolved_path.
  rewrite fold_resolve_no_dot, app_nil_r, rev_involutive by assumption.
  assert (E : is_dot (List.last segs "") = false)
    by (apply (Forall_last_default not_dot); [assumption | reflexivity]).
  now rewrite E.
Qed.

Lemma Forall_unfilter (Q : string -> Prop) l :
  Q "" -> Forall Q (List.filter nonempty l) -> Forall Q l.
Proof.
  intros Hd. induction l as [|a l IH]; simpl; [constructor |].
  destruct (nonempty a) eqn:E.
  - intros H. inversion H; subst. constructor; auto.
  - intros H. constructor; [| auto].
    unfold nonempty in E. apply negb_false_iff, String.eqb_eq in E. now subst.
Qed.

Lemma dot_free_split s : dot_free s = true -> Forall not_dot (fields s).
Proof.
  unfold dot_free. intros H. apply List.Forall_forall. intros x Hx.
  rewrite forallb_forall in H. specialize (H x Hx).
  now apply negb_true_iff in H.
Qed.

Lemma morph_segments_no_dot X P :
  dot_free X = true -> dot_free P = true -> Forall not_dot (morph_segments X P).
Proof.
  intros HX HP. apply Forall_filter_interior; [| reflexivity].
  repeat (apply Forall_app; split).
  - apply Forall_unfilter; [reflexivity |].
    change (Forall not_dot (fields (rstrip slash (lstrip slash X)))).
    rewrite fields_rstrip, fields_lstrip. now apply dot_free_split.
  - constructor; [reflexivity | constructor].
  - apply Forall_unfilter; [reflexivity |].
    change (Forall not_dot (fields (lstrip slash P))).
    rewrite fields_lstrip. now apply dot_free_split.
Qed.

(** The last field of a split is empty exactly when the string is empty or
    ends with the separator. *)
Lemma last_split_empty sep s :
  List.last (split sep s) "" = "" <-> s = "" \/ endswith sep s = true.
Proof.
  induction s as [|c r IH]; [simpl; tauto |].
  cbn [split]. destruct (Ascii.eqb c sep) eqn:Ec.
  - destruct (split sep r) as [|h t] eqn:S; [now apply split_not_nil in S |].
    change (List.last ("" :: h :: t) "") with (List.last (h :: t) "").
    rewrite IH. destruct r as [|d r']; simpl endswith.
    + rewrite Ec. split; auto.
    + split; [intros [?|?]; [discriminate | auto] | intros [?|?]; [discriminate | auto]].
  - destruct (split sep r) as [|h t] eqn:S; [now apply split_not_nil in S |].
    destruct t as [|h' t'].
    + split; [discriminate |]. intros [?|H]; [discriminate |].
      destruct r as [|d r']; simpl in H; [congruence |].
      assert (L : List.last [h] "" = "") by (apply IH; now right).
      simpl in L. subst h.
      pose proof (join_split sep (String d r')) as J. rewrite S in J. discriminate.
    + change (List.last (String c h :: h' :: t') "") with (List.last (h :: h' :: t') "").
      rewrite IH. destruct r as [|d r']; [discriminate |]. simpl endswith.
      split; (intros [?|?]; [discriminate | auto]).
Qed.

Lemma endswith_lstrip ch s :
  lstrip ch s <> "" -> endswith ch (lstrip ch s) = endswith ch s.
Proof.
  induction s as [|c r IH]; [reflexivity |].
  cbn [lstrip]. destruct (Ascii.eqb c ch) eqn:E; [| reflexivity].
  intros H. rewrite IH by assumption.
  destruct r; [now simpl in H | reflexivity].
Qed.

Lemma last_split_eqb sep s :
  s <> "" -> String.eqb (List.last (split sep s) "") "" = endswith sep s.
Proof.
  intros Hs. pose proof (last_split_empty sep s) as L.
  destruct (String.eqb_spec (List.last (split sep s) "") "") as [E|E].
  - apply L in E as [?|E]; [contradiction | now rewrite E].
  - destruct (endswith sep s) eqn:Ee; [| reflexivity].
    exfalso. apply E, L. now right.
Qed.

Lemma filter_nonempty_last l :
  l <> [] ->
  List.filter nonempty l
  = List.filter nonempty (removelast l)
      ++ (if String.eqb (List.last l "") "" then [] else [List.last l ""]).
Proof.
  intros H. rewrite (app_removelast_last "" H) at 1.
  rewrite List.filter_app. f_equal. simpl. unfold nonempty.
  now destruct (String.eqb (List.last l "") "").
Qed.

Lemma join_fields_last pre sp :
  sp <> [] -> (pre <> [] \/ hd "" sp <> "") ->
  join "/" (pre ++ List.filter nonempty (removelast sp) ++ [List.last sp ""])
  = join "/" (pre ++ List.filter nonempty sp)
      +:+ (if String.eqb (List.last sp "") "" then "/" else "").
Proof.
  intros Hsp Hne. rewrite (filter_nonempty_last sp Hsp).
  destruct (String.eqb_spec (List.last sp "") "") as [E|E].
  - rewrite E, app_nil_r, app_assoc, join_snoc; [reflexivity |].
    destruct Hne as [Hp|Hh]; [destruct pre; [congruence | discriminate] |].
    destruct sp as [|h [|h' t]]; [congruence | simpl in *; congruence |].
    change (removelast (h :: h' :: t)) with (h :: removelast (h' :: t)).
    simpl in Hh. apply nonempty_true in Hh. cbn [List.filter]. rewrite Hh.
    destruct pre; discriminate.
  - now rewrite append_nil_r.
Qed.

Lemma last_app_nonnil {A} (l l' : list A) d :
  l' <> [] -> List.last (l ++ l') d = List.last l' d.
Proof.
  intros H. induction l as [|a l IH]; [reflexivity |].
  cbn [app]. destruct (l ++ l') eqn:E; [| exact IH].
  destruct l; [simpl in E; congruence | discriminate].
Qed.

Lemma morph_segments_form X P hx tx :
  split slash (rstrip slash (lstrip slash X)) = hx :: tx ->
  let sp := split slash (lstrip slash P) in
  morph_segments X P
  = hx :: (List.filter nonempty tx ++ List.filter nonempty (removelast sp))
       ++ [List.last sp ""].
Proof.
  intros E sp. unfold morph_segments. fold sp. rewrite E.
  assert (Hsp : sp <> []) by apply split_not_nil.
  destruct sp as [|hp tp] eqn:Esp; [congruence |].
  replace ((hx :: tx) ++ [""]) with (hx :: tx ++ [""]) by reflexivity.
  rewrite <- app_comm_cons, <- app_assoc. cbn [app].
  destruct (tx ++ "" :: hp :: tp) as [|y r] eqn:R.
  { destruct tx; discriminate. }
  rewrite filter_interior_cons, <- R.
  rewrite removelast_app by discriminate.
  rewrite last_app_nonnil by discriminate.
  change (removelast ("" :: hp :: tp)) with ("" :: removelast (hp :: tp)).
  change (List.last ("" :: hp :: tp) "") with (List.last (hp :: tp) "").
  rewrite List.filter_app. cbn [List.filter nonempty String.eqb negb].
  now rewrite <- app_assoc.
Qed.

Lemma join_cons_nonempty x l :
  l <> [] -> join "/" (x :: l) = x +:+ "/" +:+ join "/" l.
Proof. destruct l; [congruence | reflexivity]. Qed.

(** With the flag off, no dot segments and an action that is not all
    slashes: the non-empty segments of the prefix, then those of the
    action, one slash before each, and the action's trailing slash. *)
Lemma morph_canonical other X P :
  path_chars X = true -> path_chars P = true -> lstrip slash P <> "" ->
  dot_free X = true -> dot_free P = true ->
  morph_action_hook other false X P
  = Ok ("/" +:+ join "/" (fields X ++ fields P)
            +:+ (if endswith slash P then "/" else "")).
Proof.
  intros HX HP Hp DX DP. rewrite morph_strict_unfold by assumption.
  rewrite resolved_path_no_dot by now apply morph_segments_no_dot.
  f_equal. cbv zeta.
  destruct (split_head slash (lstrip slash P) Hp (lstrip_no_prefix slash P))
    as [hp [tp [Esp Hhp]]].
  destruct (split slash (rstrip slash (lstrip slash X))) as [|hx tx] eqn:Esx;
    [now apply split_not_nil in Esx |].
  rewrite (morph_segments_form X P hx tx Esx). cbv zeta.
  rewrite <- (endswith_lstrip slash P Hp), <- (last_split_eqb slash _ Hp).
  rewrite <- (fields_lstrip P), <- (fields_lstrip X), <- (fields_rstrip (lstrip slash X)).
  unfold fields. rewrite Esx.
  assert (Hsp : split slash (lstrip slash P) <> []) by apply split_not_nil.
  set (sp := split slash (lstrip slash P)) in *.
  destruct (String.eqb_spec (rstrip slash (lstrip slash X)) "") as [Ex|Ex].
  - (* empty prefix *)
    rewrite Ex in Esx. simpl in Esx. injection Esx as <- <-.
    cbn [List.filter nonempty String.eqb negb app].
    rewrite join_cons_nonempty
      by (destruct (List.filter nonempty (removelast sp)); discriminate).
    cbn [String.append].
    pose proof (join_fields_last [] sp Hsp) as J. cbn [app] in J.
    rewrite J by (right; subst sp; rewrite Esp; exact Hhp).
    reflexivity.
  - (* prefix with at least one segment *)
    destruct (split_head slash _ Ex (stripped_prefix X)) as [h [t [E Hh]]].
    rewrite Esx in E. injection E as <- <-.
    assert (Hf : nonempty hx = true) by now apply nonempty_true.
    cbn [List.filter]. rewrite Hf.
    rewrite <- app_assoc.
    pose proof (join_fields_last (hx :: List.filter nonempty tx) sp Hsp) as J.
    rewrite <- !app_comm_cons in J. rewrite <- !app_comm_cons.
    rewrite J by (left; discriminate).
    set (body := join "/" (hx :: List.filter nonempty tx ++ List.filter nonempty sp)).
    assert (Hb : exists c r, body = String c r /\ Ascii.eqb c slash = false).
    { pose proof (split_sep_free slash (rstrip slash (lstrip slash X))) as SF.
      rewrite Esx in SF. inversion SF as [|? ? Hx _]; subst.
      destruct hx as [|c r]; [congruence |].
      simpl in Hx. apply orb_false_iff in Hx as [Hc _].
      unfold body.
      destruct (List.filter nonempty tx ++ List.filter nonempty sp);
        simpl; eexists _, _; (split; [reflexivity | exact Hc]). }
    destruct Hb as [c [r [Eb Hc]]]. rewrite Eb.
    unfold slash_first. cbn [String.append String.eqb startswith].
    rewrite Ascii.eqb_sym in Hc. unfold slash in Hc. rewrite Hc.
    reflexivity.
Qed.

Lemma contains_lstrip ch0 ch s :
  contains ch s = false -> contains ch (lstrip ch0 s) = false.
Proof.
  induction s as [|c r IH]; cbn [lstrip contains]; [reflexivity |].
  intros H. apply orb_false_iff in H as [Hc Hr].
  destruct (Ascii.eqb c ch0); [auto |]. cbn [contains]. now rewrite Hc, Hr.
Qed.

Lemma contains_rstrip ch0 ch s :
  contains ch s = false -> contains ch (rstrip ch0 s) = false.
Proof.
  induction s as [|c r IH]; cbn [rstrip contains]; [reflexivity |].
  intros H. apply orb_false_iff in H as [Hc Hr]. cbv zeta.
  destruct (Ascii.eqb c ch0 && String.eqb (rstrip ch0 r) ""); [reflexivity |].
  cbn [contains]. now rewrite Hc, IH.
Qed.

Lemma split_keeps_free sep ch s :
  contains ch s = false -> Forall (sep_free ch) (split sep s).
Proof.
  induction s as [|c r IH]; cbn [split contains].
  - intros _. repeat constructor.
  - intros H. apply orb_false_iff in H as [Hc Hr]. specialize (IH Hr).
    destruct (Ascii.eqb c sep); [constructor; [reflexivity | exact IH] |].
    destruct (split sep r) as [|h t]; [repeat constructor |].
    + unfold sep_free. cbn [contains]. now rewrite Hc.
    + inversion IH as [|? ? Hh Ht]; subst. constructor; [| exact Ht].
      unfold sep_free in *. cbn [contains]. now rewrite Hc, Hh.
Qed.

Lemma join_free ch sep l :
  contains ch sep = false -> Forall (sep_free ch) l ->
  contains ch (join sep l) = false.
Proof.
  intros Hs. induction 1 as [|x l Hx Hl IH]; [reflexivity |].
  destruct l as [|y l]; [exact Hx |].
  change (join sep (x :: y :: l)) with (x +:+ sep +:+ join sep (y :: l)).
  rewrite !contains_app, Hx, Hs, IH. reflexivity.
Qed.

Lemma slash_first_free ch u :
  Ascii.eqb slash ch = false -> contains ch u = false ->
  contains ch (slash_first u) = false.
Proof.
  intros N H. unfold slash_first.
  destruct (negb (startswith "/" u)); [| exact H].
  change ("/" +:+ u) with (String slash u). cbn [contains]. now rewrite N, H.
Qed.

(** A character other than the slash that is neither in the prefix nor
    in the action is not in the result. *)
Lemma morph_free other ch X P r :
  path_chars X = true -> path_chars P = true ->
  Ascii.eqb slash ch = false ->
  contains ch X = false -> contains ch P = false ->
  morph_action_hook other false X P = Ok r -> contains ch r = false.
Proof.
  intros HX HP N CX CP.
  assert (Cx : contains ch (rstrip slash (lstrip slash X)) = false)
    by now apply contains_rstrip, contains_lstrip.
  assert (Cs : contains ch (String slash "") = false)
    by (cbn [contains]; now rewrite N).
  destruct (String.eqb_spec (lstrip slash P) "") as [E|E].
  - rewrite morph_root_unfold by assumption. intros [= <-].
    apply slash_first_free; [exact N |].
    change "/" with (String slash ""). now rewrite contains_app, Cx, Cs.
  - rewrite morph_strict_unfold by assumption. intros [= <-].
    apply slash_first_free; [exact N |]. cbv zeta.
    destruct (String.eqb _ ""); [exact Cs |].
    change "/" with (String slash "").
    apply join_free; [exact Cs |].
    apply resolved_path_sep_free. unfold morph_segments.
    apply Forall_filter_interior; [| reflexivity].
    repeat (apply Forall_app; split);
      try (apply split_keeps_free; [assumption || now apply contains_lstrip]).
    constructor; [reflexivity | constructor].
Qed.

Lemma slash_first_app j t :
  j <> "" -> slash_first (j +:+ t) = slash_first j +:+ t.
Proof.
  destruct j as [|c j]; [congruence |]. intros _. unfold slash_first.
  cbn [String.append startswith].
  destruct (negb (Ascii.eqb "/" c && true)); reflexivity.
Qed.

(** The query and the fragment of the action are carried over as they
    are; the hook works on the path before them. *)
Lemma morph_tail other X P :
  path_chars X = true -> path_chars (path_of P) = true ->
  plain_part (query_of P) = true -> plain_part (fragment_of P) = true ->
  exists r,
    morph_action_hook other false X (path_of P) = Ok r
    /\ morph_action_hook other false X P = Ok (r +:+ tail_of P).
Proof.
  intros HX HP HQ HF.
  assert (R : relative_ref (lstrip slash P) = true).
  { unfold relative_ref.
    rewrite path_of_lstrip, query_of_lstrip, fragment_of_lstrip, HQ, HF.
    rewrite bare_path_action by assumption.
    change "/" with (String slash ""). now rewrite lstrip_no_prefix. }
  rewrite (morph_known other X P HX R), (morph_plain other X _ HX HP).
  eexists. split; [reflexivity |].
  assert (B : rstrip slash (lstrip slash X) +:+ "/" <> "").
  { intros E.
    pose proof (app_slash_not_empty (rstrip slash (lstrip slash X))) as Q.
    rewrite E in Q. discriminate. }
  rewrite (urljoin_ref_split _ _ B), path_of_lstrip, tail_of_lstrip.
  now rewrite slash_first_app by now apply urljoin_path_nonempty.
Qed.




End MorphFacts.

(** ** The response classes *)

Module ResponseProps.
Import PyStr Py ResponseM.
Local Open Scope Z_scope.

Lemma success_iff st : success st = true <-> st = 200 \/ st = 201 \/ st = 202.
Proof.
  unfold success, success_codes. cbn [existsb].
  rewrite !orb_true_iff, !Z.eqb_eq. intuition discriminate.
Qed.

Section ResponseFacts.
Variable json_loads : string -> option json.
Variable xml_parse : parser_call -> xml_outcome.
Variable lowercase_keys : Dict -> Dict.
Variable exception_from_message : Z -> body_obj -> Dict -> exn.

#[local] Abbreviation parse_body := (parse_body json_loads xml_parse).
#[local] Abbreviation parse_error := (parse_error json_loads xml_parse).
#[local] Abbreviation Response_init :=
  (Response_init json_loads xml_parse lowercase_keys exception_from_message).

(** The parsers only ever raise [MalformedResponseError], and leave the
    log untouched when they hand the body back unparsed. *)
Lemma parse_body_outcome cls b log :
  exists calls r,
    parse_body cls b log = (r, log ++ calls)
    /\ Forall (fun c => call_input c = b) calls
    /\ match r with
       | Ok (BStr s) => s = b /\ calls = []
       | Ok _ => calls <> [] /\ kind cls <> BaseResponse
       | Raise e => calls <> [] /\ kind cls <> BaseResponse
                    /\ exists v, e = MalformedResponseError v b
       end.
Proof.
  unfold ResponseM.parse_body, Response_parse_body, JsonResponse_parse_body,
    XmlResponse_parse_body, log_call, bind, ret, raise, modify.
  destruct (kind cls) eqn:K.
  - exists [], (Ok (BStr b)). rewrite app_nil_r. repeat split. constructor.
  - destruct ((String.length b =? 0)%nat && negb (parse_zero_length_body cls)).
    + exists [], (Ok (BStr b)). rewrite app_nil_r. repeat split. constructor.
    + destruct (json_loads b); eexists [_], _;
        (split; [reflexivity |]); (split; [repeat constructor |]);
        repeat split; try discriminate; eauto.
  - destruct ((String.length b =? 0)%nat && negb (parse_zero_length_body cls)).
    + exists [], (Ok (BStr b)). rewrite app_nil_r. repeat split. constructor.
    + destruct (xml_parse (XmlStr b)).
      * eexists [_], _; (split; [reflexivity |]); (split; [repeat constructor |]);
          repeat split; discriminate.
      * destruct (xml_parse (XmlBytes b)); eexists [_; _], _;
          (split; [rewrite <- app_assoc; reflexivity |]);
          (split; [repeat constructor |]);
          repeat split; try discriminate; eauto.
      * eexists [_], _; (split; [reflexivity |]); (split; [repeat constructor |]);
          repeat split; try discriminate; eauto.
Qed.

Lemma parse_error_eq cls b :
  parse_error cls b = parse_body cls b.
Proof. unfold ResponseM.parse_error, ResponseM.parse_body. now destruct (kind cls). Qed.

(** C6. Empty-body policy of the two structured-format classes: with
    [parse_zero_length_body] off, [parse_body] on a zero-length body hands
    the body back (no parsed object) and the parser log is unchanged; with
    it on, the format parser is called, on the empty input. *)
Theorem empty_body_policy cls log :
  structured (kind cls) = true ->
  (parse_zero_length_body cls = false ->
     parse_body cls "" log = (Ok (BStr ""), log))
  /\ (parse_zero_length_body cls = true ->
       exists r calls,
         parse_body cls "" log
         = (r, log ++ (match kind cls with
                       | JsonResponse => JsonLoads ""
                       | _ => XmlStr ""
                       end) :: calls)
         /\ Forall (fun c => call_input c = "") calls).
Proof.
  intros K. split; intros Z.
  - unfold ResponseM.parse_body, JsonResponse_parse_body, XmlResponse_parse_body.
    rewrite Z. destruct (kind cls); [discriminate | reflexivity | reflexivity].
  - unfold ResponseM.parse_body, JsonResponse_parse_body, XmlResponse_parse_body,
      log_call, bind, ret, raise, modify.
    rewrite Z. cbn [String.length Nat.eqb andb negb].
    destruct (kind cls); [discriminate | |].
    + destruct (json_loads ""); eexists _, []; split; try reflexivity; constructor.
    + destruct (xml_parse (XmlStr "")).
      * eexists _, []; split; [reflexivity | constructor].
      * destruct (xml_parse (XmlBytes ""));
          eexists _, [_]; (split; [rewrite <- app_assoc; reflexivity |]);
          repeat constructor.
      * eexists _, []; split; [reflexivity | constructor].
Qed.

(** C2 (as the code has it). Exactly 200, 201 and 202 classify as success.
    For any other status construction never returns a [Response]: when
    [parse_error] returns, it raises the error built by
    [exception_from_message] from the status, what [parse_error] returned
    and the (lower-cased) response headers; when [parse_error] raises,
    that exception leaves.  [parse_error] of the base class always
    returns the body; that of the JSON and XML classes is [parse_body]
    and raises [MalformedResponseError], and nothing else, for a body
    that does not parse.  For a success status the response holds the
    status, the headers, the body and what [parse_body] returned, unless
    [parse_body] raises. *)
Theorem Response_init_classification cls response log :
  let st := status_code response in
  let hs := lowercase_keys (resp_headers response) in
  let b := match text response with Some t => strip t | None => "" end in
  (success st = true <-> st = 200 \/ st = 201 \/ st = 202)
  /\ (success st = false ->
       Response_init cls response log
       = (match fst (parse_error cls b log) with
          | Ok msg => Raise (exception_from_message st msg hs)
          | Raise e => Raise e
          end, snd (parse_error cls b log)))
  /\ (kind cls = BaseResponse -> parse_error cls b log = (Ok (BStr b), log))
  /\ (forall e, fst (parse_error cls b log) = Raise e ->
        kind cls <> BaseResponse /\ exists v, e = MalformedResponseError v b)
  /\ (success st = true ->
       Response_init cls response log
       = (match fst (parse_body cls b log) with
          | Ok o => Ok {| headers := hs; error := reason response;
                          status := st; body := b; object := o |}
          | Raise e => Raise e
          end, snd (parse_body cls b log))).
Proof.
  intros st hs b. split; [apply success_iff |].
  unfold ResponseM.Response_init. fold st hs b.
  split; [| split; [| split]].
  - intros F. rewrite F. cbn [negb]. unfold bind, raise.
    destruct (parse_error cls b log) as [[msg|e] l]; reflexivity.
  - intros K. unfold ResponseM.parse_error. now rewrite K.
  - intros e E.
    destruct (parse_body_outcome cls b log) as [calls [r [P [_ Hr]]]].
    rewrite parse_error_eq, P in E. cbn [fst] in E. subst r.
    destruct Hr as [_ [K V]]. split; assumption.
  - intros T. rewrite T. cbn [negb]. unfold bind, ret.
    destruct (parse_body cls b log) as [[o|e] l]; reflexivity.
Qed.

End ResponseFacts.

(** C6, at a concrete class: a [JsonResponse] with the default policy. *)
Lemma empty_body_policy_witness :
  structured (kind {| kind := JsonResponse; parse_zero_length_body := false |})
  = true
  /\ ((parse_zero_length_body
         {| kind := JsonResponse; parse_zero_length_body := false |} = false ->
       parse_body literal_json no_xml
         {| kind := JsonResponse; parse_zero_length_body := false |} "" []
       = (Ok (BStr ""), []))
      /\ (parse_zero_length_body
            {| kind := JsonResponse; parse_zero_length_body := false |} = true ->
          exists r calls,
            parse_body literal_json no_xml
              {| kind := JsonResponse; parse_zero_length_body := false |} "" []
            = (r, [] ++ JsonLoads "" :: calls)
            /\ Forall (fun c => call_input c = "") calls)).
Proof.
  split; [reflexivity |].
  apply (empty_body_policy literal_json no_xml
           {| kind := JsonResponse; parse_zero_length_body := false |} []).
  reflexivity.
Defined.

(** C2 as stated fails: a [JsonResponse] for status 500 whose body is not
    JSON raises [MalformedResponseError], not the mapped error. *)
Lemma json_failure_not_mapped :
  ~ (forall json_loads xml_parse lowercase_keys exception_from_message
            cls response log,
        success (status_code response) = false ->
        exists msg log',
          Response_init json_loads xml_parse lowercase_keys
            exception_from_message cls response log
          = (Raise (exception_from_message (status_code response) msg
                      (lowercase_keys (resp_headers response))), log')).
Proof.
  intros C.
  destruct (C literal_json no_xml same_keys HTTPError
              {| kind := JsonResponse; parse_zero_length_body := false |}
              server_error_text [] eq_refl) as [msg [log' E]].
  vm_compute in E. discriminate.
Qed.


(** C2 at a concrete response: a 500 whose body is JSON, for the JSON
    class; the mapped error carries the parsed body and the headers with
    their keys in lower case. *)
Lemma Response_init_classification_witness :
  Response_init literal_json no_xml lower_keys HTTPError
    {| kind := JsonResponse; parse_zero_length_body := false |}
    {| status_code := 500; reason := "Internal Server Error";
       resp_headers := [("Content-Type", VStr "application/json")];
       text := Some " null "; content := " null " |} []
  = (Raise (HTTPError 500 (BJson JNull)
              [("content-type", VStr "application/json")]),
     [JsonLoads "null"]).
Proof.
  exact (proj1 (proj2 (Response_init_classification literal_json no_xml
           lower_keys HTTPError
           {| kind := JsonResponse; parse_zero_length_body := false |}
           {| status_code := 500; reason := "Internal Server Error";
              resp_headers := [("Content-Type", VStr "application/json")];
              text := Some " null "; content := " null " |} [])) eq_refl).
Defined.

End ResponseProps.

(** ** [RawResponse] *)

Module RawResponseProps.
Import PyStr Py ResponseM RawResponseM.

Ltac red_run :=
  cbv beta iota in *;
  cbn [self wire _response _reason raw_status fetches current fst snd negb] in *.

Ltac run := unfold body, reason_prop, response, getresponse, set_response,
  set_reason, proxy_body, proxy_reason, bind, ret, raise, get, modify in *;
  red_run.

Lemma proxy_body_run p w : proxy_body p w = (body_of p, w).
Proof. now destruct p. Qed.

Lemma response_cached w p : cached w p -> response w = (Ok p, w).
Proof. unfold cached. intros H. run. rewrite H. reflexivity. Qed.

Lemma body_cached w p : cached w p -> body w = (body_of p, w).
Proof.
  intros H. unfold body, bind. rewrite (response_cached w p H).
  now destruct p.
Qed.

Lemma reason_cached w p :
  cached w p ->
  exists v w', reason_prop w = (v, w') /\ cached w' p /\ wire w' = wire w.
Proof.
  intros H. unfold reason_prop, bind at 1, get. red_run.
  assert (G : exists v w',
             (p <- response ;; r' <- proxy_reason p ;; set_reason r' ;;; ret r')%py w
             = (v, w') /\ cached w' p /\ wire w' = wire w).
  { unfold bind at 1. rewrite (response_cached w p H).
    destruct p; run; eexists _, _; (split; [reflexivity |]); split; auto. }
  destruct (_reason (self w)) as [r|]; [destruct (truthy r) |]; try exact G.
  exists (Ok r), w. auto.
Qed.

Lemma read_cached a w p :
  cached w p ->
  exists v w', read a w = (v, w') /\ cached w' p /\ wire w' = wire w
               /\ (a = ReadBody -> v = body_of p).
Proof.
  intros H. destruct a.
  - exists (body_of p), w. cbn [read]. rewrite (body_cached w p H). auto.
  - destruct (reason_cached w p H) as [v [w' [E [C W]]]].
    exists v, w'. repeat split; auto. discriminate.
Qed.

(** The first read of the [response] property asks the transport. *)
Lemma response_first w :
  _response (self w) = None ->
  exists v w', response w = (v, w') /\ cached w' (current (wire w))
    /\ current (wire w') = current (wire w)
    /\ fetches (wire w') = S (fetches (wire w))
    /\ _reason (self w') = _reason (self w)
    /\ match v with
       | Ok p => p = current (wire w)
       | Raise e => Raise e = body_of (current (wire w))
       end.
Proof.
  intros H. run. rewrite H. unfold cached.
  destruct (success (raw_status (self w))); red_run;
    destruct (current (wire w)); red_run; eexists _, _;
    (split; [reflexivity |]); repeat split.
Qed.

Lemma body_first w :
  _response (self w) = None ->
  exists w', body w = (body_of (current (wire w)), w')
    /\ cached w' (current (wire w))
    /\ current (wire w') = current (wire w)
    /\ fetches (wire w') = S (fetches (wire w))
    /\ _reason (self w') = _reason (self w).
Proof.
  intros H. destruct (response_first w H) as [v [w' [E [C [W [F [R V]]]]]]].
  exists w'. unfold body, bind. rewrite E.
  destruct v as [p|e]; [subst p; rewrite proxy_body_run | rewrite V]; auto.
Qed.

Lemma reason_first w :
  _response (self w) = None -> _reason (self w) = None ->
  exists v w', reason_prop w = (v, w')
    /\ cached w' (current (wire w))
    /\ current (wire w') = current (wire w)
    /\ fetches (wire w') = S (fetches (wire w)).
Proof.
  intros H R. destruct (response_first w H) as [v [w' [E [C [W [F [R' V]]]]]]].
  unfold reason_prop, bind at 1, get. red_run. rewrite R.
  unfold bind at 1. rewrite E. destruct v as [p|e].
  - subst p. unfold cached in C. destruct (current (wire w)); run;
      eexists _, _; (split; [reflexivity |]); repeat split; auto.
  - eexists _, _; (split; [reflexivity |]); repeat split; auto.
Qed.

Lemma read_settled a w p :
  settled w p ->
  exists w', read a w = (value_of a p, w') /\ settled w' p /\ wire w' = wire w.
Proof.
  intros [C R]. destruct a; cbn [read value_of].
  - exists w. rewrite (body_cached w p C). repeat split; auto.
  - unfold reason_prop, bind at 1, get. red_run.
    assert (G : exists w',
               (p <- response ;; r' <- proxy_reason p ;; set_reason r' ;;; ret r')%py w
               = (reason_of p, w') /\ settled w' p /\ wire w' = wire w).
    { unfold bind at 1. rewrite (response_cached w p C).
      unfold settled, cached in *.
      destruct p; run; eexists; (split; [reflexivity |]); repeat split; auto.
      intros r [= <-]. reflexivity. }
    destruct (_reason (self w)) as [r|] eqn:E; [destruct (truthy r) |]; try exact G.
    exists w. rewrite <- (R r eq_refl). repeat split; auto.
    intros r0 H0. apply R. congruence.
Qed.

Lemma reads_settled l : forall w p,
  settled w p ->
  exists vs w', reads l w = (vs, w') /\ settled w' p /\ wire w' = wire w
    /\ forall a v, In (a, v) vs -> v = value_of a p.
Proof.
  induction l as [|a l IH]; intros w p S.
  - exists [], w. split; [reflexivity |]. split; [exact S |].
    split; [reflexivity |]. intros ? ? [].
  - destruct (read_settled a w p S) as [w1 [E1 [S1 W1]]].
    destruct (IH w1 p S1) as [vs [w2 [E2 [S2 [W2 V]]]]].
    exists ((a, value_of a p) :: vs), w2. cbn [reads]. rewrite E1, E2.
    split; [reflexivity |]. split; [exact S2 |]. split; [congruence |].
    intros a' v [[= <- <-] | Hin]; auto.
Qed.

Lemma read_fresh a w :
  _response (self w) = None -> _reason (self w) = None ->
  success (raw_status (self w)) = true ->
  exists w', read a w = (value_of a (current (wire w)), w')
    /\ settled w' (current (wire w))
    /\ current (wire w') = current (wire w)
    /\ fetches (wire w') = S (fetches (wire w)).
Proof.
  intros H R T. unfold settled, cached.
  destruct a; cbn [read value_of]; run; rewrite ?R; red_run; rewrite H, T; red_run;
    destruct (current (wire w)); red_run; eexists;
    (split; [reflexivity |]); repeat split; red_run; rewrite ?R;
    try discriminate.
  intros r [= <-]. reflexivity.
Qed.

Section Init.
Variable lowercase_keys : Dict -> Dict.

(** The state the constructor leaves: nothing fetched for a success
    status; otherwise the body was read once, by [parse_error]. *)
Lemma RawResponse_init_state response t :
  let w0 := snd (RawResponse_init lowercase_keys response t) in
  current (wire w0) = current t
  /\ if success (first_status response)
     then _response (self w0) = None /\ _reason (self w0) = None
          /\ success (raw_status (self w0)) = true
          /\ fetches (wire w0) = fetches t
     else settled w0 (current t) /\ fetches (wire w0) = S (fetches t).
Proof.
  unfold RawResponse_init.
  set (fresh := match response with Some r => _ | None => _ end).
  assert (Hs : raw_status fresh = first_status response) by now destruct response.
  assert (Hr : _response fresh = None) by now destruct response.
  assert (Hn : _reason fresh = None) by now destruct response.
  rewrite Hs. destruct (success (first_status response)) eqn:T; cbn [negb].
  - cbn. rewrite Hs. auto.
  - destruct (body_first {| self := fresh; wire := t |} Hr)
      as [w' [E [C [W [F R]]]]].
    unfold bind. rewrite E. cbn [self wire] in *.
    assert (S : settled w' (current t)).
    { split; [exact C |]. intros r. rewrite R, Hn. discriminate. }
    destruct (body_of (current t)); cbn; auto.
Qed.

(** C5. Whatever the caller reads after construction, and however often:
    the transport is asked exactly once, no later than the first read (for
    a success status not before it), every read of the body returns the
    same value and every read of the reason does. *)
Theorem raw_body_fetched_once response t a rest :
  let w0 := snd (RawResponse_init lowercase_keys response t) in
  let w1 := snd (read a w0) in
  let out := reads (a :: rest) w0 in
  fetches (wire w1) = S (fetches t)
  /\ fetches (wire (snd out)) = S (fetches t)
  /\ (forall a' v, In (a', v) (fst out) -> v = value_of a' (current t))
  /\ (success (first_status response) = true -> fetches (wire w0) = fetches t).
Proof.
  intros w0 w1 out.
  destruct (RawResponse_init_state response t) as [Hc Hi]. fold w0 in Hc, Hi.
  assert (G : exists w1', read a w0 = (value_of a (current t), w1')
                /\ settled w1' (current t)
                /\ fetches (wire w1') = S (fetches t)).
  { destruct (success (first_status response)).
    - destruct Hi as [Hr [Hn [Hs Hf]]].
      destruct (read_fresh a w0 Hr Hn Hs) as [w' [E [S [_ F]]]].
      exists w'. rewrite Hc in E, S. rewrite F, Hf. auto.
    - destruct Hi as [S F].
      destruct (read_settled a w0 _ S) as [w' [E [S' W]]].
      exists w'. rewrite W. auto. }
  destruct G as [w1' [E1 [S1 F1]]].
  destruct (reads_settled rest w1' _ S1) as [vs [w2 [E2 [S2 [W2 V]]]]].
  subst w1 out. cbn [reads]. rewrite E1, E2. cbn [fst snd].
  repeat split.
  - exact F1.
  - now rewrite W2.
  - intros a' v [[= <- <-] | Hin]; auto.
  - intros T. rewrite T in Hi. tauto.
Qed.

End Init.

Local Open Scope Z_scope.

(** C5 at a concrete response: body, reason, body. *)
Lemma raw_body_fetched_once_witness :
  let t := {| current := Some ok_stream; fetches := 1 |} in
  let w0 := snd (RawResponse_init same_keys (Some ok_stream) t) in
  fetches (wire w0) = 1%nat
  /\ fetches (wire (snd (reads [ReadBody; ReadReason; ReadBody] w0))) = 2%nat
  /\ forall a' v,
       In (a', v) (fst (reads [ReadBody; ReadReason; ReadBody] w0)) ->
       v = value_of a' (Some ok_stream).
Proof.
  intros t w0.
  destruct (raw_body_fetched_once same_keys (Some ok_stream) t ReadBody
              [ReadReason; ReadBody]) as [_ [F [V S]]].
  split; [exact (S eq_refl) |]. split; [exact F | exact V].
Defined.

End RawResponseProps.

(** ** [Connection.request] *)

Module ConnectionProps.
Import PyStr PyStrFacts Py Urllib UrlEncode Morph ResponseM RawResponseM ConnectionM.
Local Open Scope py_scope.

Lemma count_app ch a b : count ch (a +:+ b) = (count ch a + count ch b)%nat.
Proof. induction a as [|c a IH]; simpl; [reflexivity | rewrite IH; lia]. Qed.

Lemma count_contains ch s : contains ch s = false <-> count ch s = 0%nat.
Proof.
  induction s as [|c r IH]; simpl; [tauto |].
  destruct (Ascii.eqb c ch); simpl; [split; discriminate | exact IH].
Qed.

Lemma hex_digit_not_qmark n : Ascii.eqb (hex_digit n) qmark = false.
Proof.
  unfold hex_digit. do 16 (destruct n as [|n]; [reflexivity |]).
  simpl. now destruct n.
Qed.

Lemma quote_char_no_qmark c : count qmark (quote_char c) = 0%nat.
Proof.
  unfold quote_char. destruct (always_safe c) eqn:S.
  - cbn [count]. destruct (Ascii.eqb c qmark) eqn:E; [| reflexivity].
    apply Ascii.eqb_eq in E. subst c. discriminate.
  - destruct (Ascii.eqb c " "); [reflexivity |].
    cbn [count]. now rewrite !hex_digit_not_qmark.
Qed.

Lemma quote_plus_no_qmark s : count qmark (quote_plus s) = 0%nat.
Proof.
  induction s as [|c r IH]; [reflexivity |].
  cbn [quote_plus]. now rewrite count_app, quote_char_no_qmark, IH.
Qed.

Lemma join_count ch sep l :
  count ch sep = 0%nat -> Forall (fun x => count ch x = 0%nat) l ->
  count ch (join sep l) = 0%nat.
Proof.
  intros Hs. induction 1 as [|x l Hx Hl IH]; [reflexivity |].
  destruct l as [|y l]; [exact Hx |].
  change (join sep (x :: y :: l)) with (x +:+ sep +:+ join sep (y :: l)).
  now rewrite !count_app, Hx, Hs, IH.
Qed.

(** The encoded query never holds a question mark. *)
Lemma urlencode_no_qmark q : count qmark (urlencode q) = 0%nat.
Proof.
  unfold urlencode. apply join_count; [reflexivity |].
  apply List.Forall_forall. intros x Hx.
  apply in_flat_map in Hx as [[k v] [_ Hx]]. cbn [fst snd] in Hx.
  assert (P : count qmark (quote_plus k +:+ "=") = 0%nat)
    by now rewrite count_app, quote_plus_no_qmark.
  destruct v as [s|l]; cbn [encode_pair] in Hx.
  - destruct Hx as [<-|[]].
    now rewrite count_app, quote_plus_no_qmark, count_app, quote_plus_no_qmark.
  - apply in_map_iff in Hx as [e [<- _]].
    now rewrite count_app, quote_plus_no_qmark, count_app, quote_plus_no_qmark.
Qed.

(** The three cases of [build_url]: a question mark (the only one of the
    URL) before the query when the action holds none, an ampersand when it
    holds one, the action alone without parameters. *)
Lemma build_url_separator action params :
  (has_items params = true -> contains qmark action = false ->
     build_url action params = action +:+ "?" +:+ urlencode (items params)
     /\ count qmark (build_url action params) = 1%nat)
  /\ (has_items params = true -> contains qmark action = true ->
        build_url action params = action +:+ "&" +:+ urlencode (items params))
  /\ (has_items params = false -> build_url action params = action).
Proof.
  unfold build_url, has_items. change "?"%char with qmark.
  destruct (items params) as [|kv r] eqn:E.
  - repeat split; try discriminate.
  - split; [| split]; try discriminate; intros _ H; rewrite H.
    + split; [reflexivity |]. cbn [join].
      rewrite !count_app, urlencode_no_qmark.
      apply count_contains in H. rewrite H. reflexivity.
    + reflexivity.
Qed.

Lemma bind_ok {S A B} (m : M S A) (k : A -> M S B) w b w' :
  bind m k w = (Ok b, w') ->
  exists a w1, m w = (Ok a, w1) /\ k a w1 = (Ok b, w').
Proof.
  unfold bind. destruct (m w) as [[a|e] w1]; [eauto | discriminate].
Qed.

Lemma bind_run {S A B} (m : M S A) (k : A -> M S B) w a w1 :
  m w = (Ok a, w1) -> bind m k w = k a w1.
Proof. unfold bind. now intros ->. Qed.

Ltac bind_inv H :=
  let a := fresh "a" in let w := fresh "w" in
  let E := fresh "E" in
  apply bind_ok in H as [a [w [E H]]].

Lemma silent_bind {A B} (m : M World A) (k : A -> M World B) :
  silent m -> (forall a, silent (k a)) -> silent (bind m k).
Proof.
  intros Hm Hk w. unfold bind. specialize (Hm w).
  destruct (m w) as [[a|e] w1]; cbn [snd] in *; [| exact Hm].
  now rewrite Hk.
Qed.

Lemma silent_ret {A} (a : A) : silent (ret a).
Proof. intros w. reflexivity. Qed.

Lemma silent_raise {A} e : silent (@raise World A e).
Proof. intros w. reflexivity. Qed.

Lemma silent_get : silent (@get World).
Proof. intros w. reflexivity. Qed.

Lemma silent_alloc o : silent (alloc o).
Proof. intros w. reflexivity. Qed.

Lemma silent_load l : silent (load l).
Proof. intros w. unfold load. now destruct (heap w !! l). Qed.

Lemma silent_reset_context : silent reset_context.
Proof.
  apply silent_bind; [apply silent_alloc |]. intros l w. reflexivity.
Qed.

Lemma silent_try_finally {A} (m : M World A) fin :
  silent m -> silent fin -> silent (try_finally m fin).
Proof.
  intros Hm Hf w. unfold try_finally. specialize (Hm w).
  destruct (m w) as [r w1]. specialize (Hf w1).
  destruct (fin w1) as [[u|e] w2]; cbn [snd] in *; congruence.
Qed.

Section RequestFacts.
Variable json_loads : string -> option json.
Variable xml_parse : parser_call -> xml_outcome.
Variable lowercase_keys : Dict -> Dict.
Variable exception_from_message : Z -> body_obj -> Dict -> exn.
Variable transport : nat -> Exchange -> wire_outcome.
Variable retryCls :
  RetryPolicy -> (ReqArgs -> M World AnyResponse)
  -> ReqArgs -> M World AnyResponse.
Context {hooks : Hooks}.
Variable g : Globals.

#[local] Abbreviation build_response :=
  (build_response json_loads xml_parse lowercase_keys exception_from_message).
#[local] Abbreviation _retryable_request :=
  (_retryable_request json_loads xml_parse lowercase_keys
     exception_from_message transport).
#[local] Abbreviation request :=
  (request json_loads xml_parse lowercase_keys exception_from_message
     transport retryCls g).
#[local] Abbreviation prepare := (prepare g).

Lemma copy_conn l w r w' : copy l w = (r, w') -> conn w' = conn w.
Proof.
  unfold copy, bind, load, alloc.
  destruct (heap w !! l); intros [= <- <-]; reflexivity.
Qed.

Lemma alloc_conn o w r w' : alloc o w = (r, w') -> conn w' = conn w.
Proof. intros [= <- <-]. reflexivity. Qed.

(** [prepare] ends by making sure the transport exists and returns the
    URL built from the normalized action and the parameters that the last
    hook handed back. *)
Lemma prepare_result act params data headers method raw stream w args w1 :
  prepare act params data headers method raw stream w = (Ok args, w1) ->
  connection (conn w1) = true
  /\ a_method args = method /\ a_raw args = raw /\ a_stream args = stream
  /\ exists a p lp,
       morph_action_hook (urljoin_other g) (ALLOW_PATH_DOUBLE_SLASHES g)
         (request_path (conn w)) act = Ok a
       /\ heap w1 !! lp = Some p
       /\ a_url args = build_url a p.
Proof.
  intros H. unfold ConnectionM.prepare in H.
  apply bind_ok in H as [l1 [wa [E1 H]]].
  apply bind_ok in H as [l2 [wb [E2 H]]].
  apply bind_ok in H as [wc [wd [E3 H]]].
  apply bind_ok in H as [a [we [E4 H]]].
  assert (Ca : conn wa = conn w)
    by (destruct params; [eapply copy_conn | eapply alloc_conn]; exact E1).
  assert (Cb : conn wb = conn wa)
    by (destruct headers; [eapply copy_conn | eapply alloc_conn]; exact E2).
  injection E3 as <- <-.
  assert (M : morph_action_hook (urljoin_other g) (ALLOW_PATH_DOUBLE_SLASHES g)
                (request_path (conn w)) act = Ok a).
  { rewrite <- Ca, <- Cb. now injection E4 as -> _. }
  clear E1 E2 E4 Ca Cb.
  repeat (bind_inv H; cbv zeta in H).
  match goal with
  | H : (let (_, _) := ?ph in _) _ = _ |- _ => destruct ph as [lp lh]
  end.
  apply bind_ok in H as [o [wf [Ea H]]].
  apply bind_ok in H as [wg [wh [Eb H]]].
  apply bind_ok in H as [u [wi [Ec H]]].
  unfold load in Ea. destruct (heap _ !! lp) as [o'|] eqn:L; [| discriminate].
  injection Ea as <- <-. injection Eb as <- <-.
  assert (C : connection (conn wi) = true /\ heap wi !! lp = Some o').
  { revert Ec. destruct (connection (conn _)) eqn:K; intros [= _ <-]; auto. }
  injection H as <- <-. cbn. destruct C as [C1 C2].
  repeat split; try assumption. exists a, o', lp. auto.
Qed.

Lemma silent_build_response raw response : silent (build_response raw response).
Proof.
  unfold ConnectionM.build_response. destruct raw.
  - intros w. now destruct (RawResponse_init _ _ _) as [[u|e] rw].
  - destruct response as [r|]; [| apply silent_raise].
    apply silent_bind; [apply silent_get |]. intros w0.
    apply silent_bind; [| intros; apply silent_ret].
    intros w. unfold zoom. now destruct (Response_init _ _ _ _ _ _ _).
Qed.

Lemma silent_response args :
  silent (response <- conn_getresponse ;;
          try_finally (build_response (a_raw args) response) reset_context).
Proof.
  apply silent_bind; [intros ?; reflexivity |]. intros r.
  apply silent_try_finally;
    [apply silent_build_response | apply silent_reset_context].
Qed.

Lemma silent_transport_error e k :
  transport_error e = Some k -> silent k.
Proof.
  assert (R : forall e', silent (reset_context ;;; @raise World unit e')).
  { intros e'. apply silent_bind; [apply silent_reset_context |].
    intros; apply silent_raise. }
  destruct e as [errno m| m | | | | | | |]; try discriminate; cbn [transport_error].
  - intros [= <-]. destruct errno as [z|]; [| apply R].
    destruct z as [|q|q]; try apply R.
    destruct q as [q|q|]; try apply R.
    destruct q as [q|q|]; try apply R.
    destruct q as [q|q|]; try apply R.
    apply silent_bind; [apply silent_get | intros; apply silent_raise].
  - intros [= <-]. apply R.
Qed.

(** One call of [_retryable_request] on an established connection asks
    the transport exactly once. *)
Lemma retryable_request_one_exchange args w :
  connection (conn w) = true -> is_Some (heap w !! a_headers args) ->
  exists x, sent (snd (_retryable_request args w)) = sent w ++ [x]
            /\ x_url x = a_url args /\ x_method x = a_method args.
Proof.
  intros C [h L].
  exists {| prepared := a_raw args; x_method := a_method args;
            x_url := a_url args; x_body := a_data args;
            x_headers := items h; x_stream := a_stream args |}.
  split; [| split; reflexivity].
  unfold ConnectionM._retryable_request. unfold bind at 1.
  assert (A : sent (snd (try_except (transport_call transport args)
                          transport_error w))
              = sent w ++ [{| prepared := a_raw args; x_method := a_method args;
                              x_url := a_url args; x_body := a_data args;
                              x_headers := items h;
                              x_stream := a_stream args |}]).
  { unfold try_except, transport_call, bind, get, load, send, ret.
    rewrite C, L.
    destruct (transport _ _) as [r|e]; [reflexivity |].
    destruct (transport_error e) as [k|] eqn:K; [| reflexivity].
    now rewrite (silent_transport_error e k K). }
  destruct (try_except _ _ w) as [[u|e] w1]; cbn [snd] in *; [| exact A].
  now rewrite silent_response.
Qed.

(** C7. The per-call argument, when given, decides; otherwise the module
    flag or the environment toggle does.  When retry is on, the prepared
    exchange goes through the retry coordinator; when it is off,
    [_retryable_request] is called directly and the transport is asked
    exactly once. *)
Theorem retry_wrapping_precedence
    act params data headers method raw stream retry_failed w :
  retry_enabled g retry_failed
  = match retry_failed with
    | Some b => b
    | None => RETRY_FAILED_HTTP_REQUESTS g || env_toggle g
    end
  /\ forall args w1,
       prepare act params data headers method raw stream w = (Ok args, w1) ->
       (retry_enabled g retry_failed = true ->
          request act params data headers method raw stream retry_failed w
          = retryCls {| p_retry_delay := retry_delay (conn w1);
                        p_timeout := timeout (conn w1);
                        p_backoff := backoff (conn w1) |}
              _retryable_request args w1)
       /\ (retry_enabled g retry_failed = false ->
            request act params data headers method raw stream retry_failed w
            = _retryable_request args w1
            /\ (is_Some (heap w1 !! a_headers args) ->
                  exists x,
                    sent (snd (request act params data headers method raw
                                 stream retry_failed w))
                    = sent w1 ++ [x])).
Proof.
  split.
  - unfold retry_enabled, env_toggle. destruct retry_failed; [reflexivity |].
    destruct (environ_retry g) as [v|]; [| now rewrite orb_false_r].
    destruct (truthy v); [now rewrite orb_true_r | now rewrite orb_false_r].
  - intros args w1 P. unfold ConnectionM.request.
    rewrite (bind_run _ _ _ _ _ P).
    split; intros ->; unfold request_to_be_executed; [reflexivity |].
    split; [reflexivity |]. intros L.
    destruct (prepare_result _ _ _ _ _ _ _ _ _ _ P) as [C _].
    destruct (retryable_request_one_exchange args w1 C L) as [x [S _]].
    eauto.
Qed.

End RequestFacts.

Lemma stable_refl w : stable w w.
Proof. intros k _. reflexivity. Qed.

Lemma stable_trans w0 w1 w2 : stable w0 w1 -> stable w1 w2 -> stable w0 w2.
Proof.
  intros H1 H2 k Hk. rewrite H2, H1; auto. rewrite H1; auto.
Qed.

Lemma newer_stable w0 w l : stable w0 w -> heap w !! l = None -> newer w0 l.
Proof.
  intros S N. unfold newer. destruct (heap w0 !! l) eqn:E; [| reflexivity].
  rewrite S in N by eauto. congruence.
Qed.

Lemma keeps_bind w0 {A B} (Q : A -> Prop) (R : B -> Prop) m (k : A -> M World B) :
  keeps w0 Q m -> (forall a, Q a -> keeps w0 R (k a)) -> keeps w0 R (bind m k).
Proof.
  intros Hm Hk w r w' S. unfold bind.
  destruct (m w) as [[a|e] w1] eqn:E; destruct (Hm w _ w1 S E) as [S1 Q1].
  - intros K. exact (Hk a (Q1 a eq_refl) w1 r w' S1 K).
  - intros [= <- <-]. split; [exact S1 | discriminate].
Qed.

Lemma keeps_weaken w0 {A} (Q R : A -> Prop) m :
  keeps w0 Q m -> (forall a, Q a -> R a) -> keeps w0 R m.
Proof.
  intros H W w r w' S E. destruct (H w r w' S E) as [S' Q']. split; eauto.
Qed.

Lemma keeps_quiet w0 {A} (m : M World A) : quiet m -> keeps w0 (fun _ => True) m.
Proof.
  intros H w r w' S E. split; [| auto].
  eapply stable_trans; [exact S | exact (H w r w' E)].
Qed.

Lemma keeps_ret w0 {A} (Q : A -> Prop) a : Q a -> keeps w0 Q (ret a).
Proof. intros H w r w' S [= <- <-]. split; [exact S | now intros ? [= <-]]. Qed.

Lemma quiet_ret {A} (a : A) : quiet (ret a).
Proof. intros w r w' [= <- <-]. apply stable_refl. Qed.

Lemma quiet_raise {A} e : quiet (@raise World A e).
Proof. intros w r w' [= <- <-]. apply stable_refl. Qed.

Lemma quiet_get : quiet (@get World).
Proof. intros w r w' [= <- <-]. apply stable_refl. Qed.

Lemma quiet_conn f : quiet (modify (fun w => set_conn (f w) w)).
Proof. intros w r w' [= <- <-]. intros k _. reflexivity. Qed.

Lemma quiet_bind {A B} (m : M World A) (k : A -> M World B) :
  quiet m -> (forall a, quiet (k a)) -> quiet (bind m k).
Proof.
  intros Hm Hk w r w'. unfold bind.
  destruct (m w) as [[a|e] w1] eqn:E.
  - intros K. eapply stable_trans; [exact (Hm _ _ _ E) | exact (Hk _ _ _ _ K)].
  - intros [= <- <-]. exact (Hm _ _ _ E).
Qed.

Lemma quiet_alloc o : quiet (alloc o).
Proof.
  intros w r w' [= <- <-]. intros k Hk. cbn.
  apply lookup_insert_ne. intros <-.
  apply elem_of_dom in Hk. exact (is_fresh _ Hk).
Qed.

Lemma alloc_newer w0 o : keeps w0 (newer w0) (alloc o).
Proof.
  intros w r w' S E. split.
  - eapply stable_trans; [exact S | exact (quiet_alloc o w r w' E)].
  - intros a ->. injection E as <- _.
    apply (newer_stable w0 w); [exact S |].
    apply not_elem_of_dom, is_fresh.
Qed.

Lemma quiet_load l : quiet (load l).
Proof.
  intros w r w'. unfold load.
  destruct (heap w !! l); intros [= <- <-]; apply stable_refl.
Qed.

Lemma copy_newer w0 l : keeps w0 (newer w0) (copy l).
Proof.
  eapply keeps_bind; [apply keeps_quiet, quiet_load |].
  intros o _. apply alloc_newer.
Qed.

Lemma store_newer w0 l o : newer w0 l -> keeps w0 (fun _ => True) (store l o).
Proof.
  intros N w r w' S [= <- <-]. split; [| auto].
  intros k Hk. cbn. rewrite lookup_insert_ne; [now apply S |].
  intros <-. unfold newer in N. rewrite N in Hk. now destruct Hk.
Qed.

Lemma update_newer w0 l d : newer w0 l -> keeps w0 (fun _ => True) (update l d).
Proof.
  intros N. eapply keeps_bind; [apply keeps_quiet, quiet_load |].
  intros [?|?] _; [now apply store_newer | apply keeps_quiet, quiet_raise].
Qed.

Lemma cache_busting_newer w0 g l :
  newer w0 l -> keeps w0 (newer w0) (_add_cache_busting_to_params g l).
Proof.
  intros N. eapply keeps_bind; [apply keeps_quiet, quiet_load |].
  intros o _. eapply keeps_bind.
  - destruct o; now apply store_newer.
  - intros _ _. now apply keeps_ret.
Qed.

Lemma local1_newer w0 h l :
  local1 h -> newer w0 l -> keeps w0 (newer w0) (h l).
Proof.
  intros H N w r w' S E. destruct (H l w r w' E) as [F R]. split.
  - intros k Hk. rewrite F; [now apply S | rewrite S; auto |].
    intros ->. unfold newer in N. rewrite N in Hk. now destruct Hk.
  - intros l' ->. destruct (R l' eq_refl) as [->|Hn]; [exact N |].
    now apply (newer_stable w0 w).
Qed.

Lemma local2_newer w0 h lp lh :
  local2 h -> newer w0 lp -> newer w0 lh ->
  keeps w0 (fun ph => newer w0 (fst ph) /\ newer w0 (snd ph)) (h lp lh).
Proof.
  intros H Np Nh w r w' S E. destruct (H lp lh w r w' E) as [F R]. split.
  - intros k Hk. rewrite F; [now apply S | rewrite S; auto | |];
      intros ->; unfold newer in *; [rewrite Np in Hk | rewrite Nh in Hk];
      now destruct Hk.
  - intros [p q] ->. destruct (R p q eq_refl) as [Hp Hq]. cbn [fst snd].
    split; [destruct Hp as [->|[->|Hn]] | destruct Hq as [->|[->|Hn]]];
      auto; now apply (newer_stable w0 w).
Qed.

Lemma quiet_reset_context : quiet reset_context.
Proof.
  apply quiet_bind; [apply quiet_alloc |]. intros l. apply quiet_conn.
Qed.

Lemma quiet_try_finally {A} (m : M World A) fin :
  quiet m -> quiet fin -> quiet (try_finally m fin).
Proof.
  intros Hm Hf w r w'. unfold try_finally.
  destruct (m w) as [r1 w1] eqn:E1. destruct (fin w1) as [[u|e] w2] eqn:E2;
    intros [= <- <-];
    (eapply stable_trans; [exact (Hm _ _ _ E1) | exact (Hf _ _ _ E2)]).
Qed.

Lemma quiet_try_except {A} (m : M World A) h :
  quiet m -> (forall e k, h e = Some k -> quiet k) -> quiet (try_except m h).
Proof.
  intros Hm Hh w r w'. unfold try_except.
  destruct (m w) as [[a|e] w1] eqn:E1.
  - intros [= <- <-]. exact (Hm _ _ _ E1).
  - destruct (h e) as [k|] eqn:K.
    + intros E2. eapply stable_trans; [exact (Hm _ _ _ E1) |].
      exact (Hh e k K _ _ _ E2).
    + intros [= <- <-]. exact (Hm _ _ _ E1).
Qed.

Section RequestFrame.
Variable json_loads : string -> option json.
Variable xml_parse : parser_call -> xml_outcome.
Variable lowercase_keys : Dict -> Dict.
Variable exception_from_message : Z -> body_obj -> Dict -> exn.
Variable transport : nat -> Exchange -> wire_outcome.
Variable retryCls :
  RetryPolicy -> (ReqArgs -> M World AnyResponse)
  -> ReqArgs -> M World AnyResponse.
Context {hooks : Hooks}.
Variable g : Globals.
Hypothesis hooks_local : HooksLocal hooks.
Hypothesis retry_local : RetryLocal retryCls.

#[local] Abbreviation build_response :=
  (build_response json_loads xml_parse lowercase_keys exception_from_message).
#[local] Abbreviation _retryable_request :=
  (_retryable_request json_loads xml_parse lowercase_keys
     exception_from_message transport).
#[local] Abbreviation request :=
  (request json_loads xml_parse lowercase_keys exception_from_message
     transport retryCls g).
#[local] Abbreviation prepare := (prepare g).

Lemma quiet_build_response raw response : quiet (build_response raw response).
Proof.
  unfold ConnectionM.build_response. destruct raw.
  - intros w r w'. destruct (RawResponse_init _ _ _) as [[u|e] rw];
      intros [= <- <-]; intros k _; reflexivity.
  - destruct response as [r|]; [| apply quiet_raise].
    apply quiet_bind; [apply quiet_get |]. intros w0.
    apply quiet_bind; [| intros; apply quiet_ret].
    intros w r' w'. unfold zoom. destruct (Response_init _ _ _ _ _ _ _).
    intros [= <- <-]. intros k _. reflexivity.
Qed.

Lemma quiet_transport_error e k : transport_error e = Some k -> quiet k.
Proof.
  assert (R : forall e', quiet (reset_context ;;; @raise World unit e')).
  { intros e'. apply quiet_bind; [apply quiet_reset_context |].
    intros; apply quiet_raise. }
  destruct e as [errno m| m | | | | | | |]; try discriminate; cbn [transport_error].
  - intros [= <-]. destruct errno as [z|]; [| apply R].
    destruct z as [|q|q]; try apply R.
    destruct q as [q|q|]; try apply R.
    destruct q as [q|q|]; try apply R.
    destruct q as [q|q|]; try apply R.
    apply quiet_bind; [apply quiet_get | intros; apply quiet_raise].
  - intros [= <-]. apply R.
Qed.

Lemma quiet_send x : quiet (send transport x).
Proof.
  intros w r w'. unfold send. destruct (transport _ _);
    intros [= <- <-]; intros k _; reflexivity.
Qed.

Lemma quiet_retryable_request args : quiet (_retryable_request args).
Proof.
  unfold ConnectionM._retryable_request.
  apply quiet_bind; [| intros _; apply quiet_bind].
  - apply quiet_try_except; [| apply quiet_transport_error].
    unfold transport_call. apply quiet_bind; [apply quiet_get |]. intros w.
    apply quiet_bind.
    + destruct (connection (conn w)); [apply quiet_ret | apply quiet_raise].
    + intros _. apply quiet_bind; [apply quiet_load |]. intros h.
      apply quiet_send.
  - intros w r w' [= <- <-]. intros k _. reflexivity.
  - intros r. apply quiet_try_finally;
      [apply quiet_build_response | apply quiet_reset_context].
Qed.

Lemma quiet_request_to_be_executed enabled args :
  quiet (request_to_be_executed json_loads xml_parse lowercase_keys
           exception_from_message transport retryCls enabled args).
Proof.
  unfold request_to_be_executed. destruct enabled.
  - apply quiet_bind; [apply quiet_get |]. intros w.
    apply retry_local. apply quiet_retryable_request.
  - apply quiet_retryable_request.
Qed.

Lemma prepare_keeps w0 act params data headers method raw stream :
  keeps w0 (fun _ => True)
    (prepare act params data headers method raw stream).
Proof.
  destruct hooks_local as [HP HH HC HE].
  unfold ConnectionM.prepare.
  eapply keeps_bind.
  { destruct params; [apply copy_newer | apply alloc_newer]. }
  intros lp Np. eapply keeps_bind.
  { destruct headers; [apply copy_newer | apply alloc_newer]. }
  intros lh Nh.
  eapply keeps_bind; [apply keeps_quiet, quiet_get |]. intros w1 _.
  eapply keeps_bind.
  { apply keeps_quiet. destruct (morph_action_hook _ _ _);
      [apply quiet_ret | apply quiet_raise]. }
  intros a _.
  eapply keeps_bind; [apply keeps_quiet, quiet_conn |]. intros _ _.
  eapply keeps_bind; [apply (local1_newer w0 _ lp HP Np) |]. intros lp1 Np1.
  eapply keeps_bind; [apply keeps_quiet, quiet_get |]. intros w2 _.
  eapply keeps_bind.
  { destruct (_ && _); [now apply cache_busting_newer | now apply keeps_ret]. }
  intros lp2 Np2.
  eapply keeps_bind; [apply (local1_newer w0 _ lh HH Nh) |]. intros lh1 Nh1.
  eapply keeps_bind; [apply keeps_quiet, quiet_get |]. intros w3 _.
  eapply keeps_bind; [now apply update_newer |]. intros _ _.
  eapply keeps_bind; [now apply update_newer |]. intros _ _.
  eapply keeps_bind; [apply keeps_quiet, quiet_get |]. intros w4 _.
  cbv zeta.
  eapply keeps_bind.
  { destruct (negb _); now apply update_newer. }
  intros _ _.
  eapply keeps_bind.
  { apply keeps_quiet. destruct data as [d|]; [| apply quiet_ret].
    destruct (truthy d); [| apply quiet_ret].
    apply quiet_bind; [apply HE | intros; apply quiet_ret]. }
  intros d' _.
  eapply keeps_bind; [apply (local2_newer w0 _ lp2 lh1 HC Np2 Nh1) |].
  intros [lp3 lh2] [Np3 Nh2]. cbn [fst snd] in *.
  apply keeps_quiet.
  apply quiet_bind; [apply quiet_load |]. intros p.
  apply quiet_bind; [apply quiet_get |]. intros w5.
  apply quiet_bind; [| intros; apply quiet_ret].
  destruct (connection (conn w5)); [apply quiet_ret | apply quiet_conn].
Qed.

(** C9. [request] works on copies: of the objects that exist when it is
    called (the caller's [params] and [headers] among them) none is
    changed when it returns or raises. *)
Theorem request_keeps_caller_mappings
    act params data headers method raw stream retry_failed w r w' :
  request act params data headers method raw stream retry_failed w = (r, w') ->
  (forall lp, params = Some lp -> is_Some (heap w !! lp) ->
              heap w' !! lp = heap w !! lp)
  /\ (forall lh, headers = Some lh -> is_Some (heap w !! lh) ->
                 heap w' !! lh = heap w !! lh).
Proof.
  intros E.
  assert (S : stable w w').
  { assert (K : keeps w (fun _ : AnyResponse => True)
                  (request act params data headers method raw stream
                     retry_failed)).
    { unfold ConnectionM.request. eapply keeps_bind; [apply prepare_keeps |].
      intros args _. apply keeps_quiet, quiet_request_to_be_executed. }
    exact (proj1 (K w r w' (stable_refl w) E)). }
  split; intros l _ Hl; now apply S.
Qed.

End RequestFrame.

Local Open Scope Z_scope.

Lemma reset_context_empty w : context_empty (snd (reset_context w)).
Proof. unfold context_empty. cbn. apply lookup_insert_eq. Qed.

Lemma reset_context_ok w : exists w', reset_context w = (Ok tt, w').
Proof. eexists. reflexivity. Qed.

Lemma try_finally_reset {A} (m : M World A) w :
  context_empty (snd (try_finally m reset_context w)).
Proof.
  unfold try_finally. destruct (m w) as [r w1].
  pose proof (reset_context_empty w1) as H.
  destruct (reset_context_ok w1) as [w2 E]. rewrite E in *. exact H.
Qed.

Lemma reset_then_raise {A} e w :
  (reset_context ;;; @raise World A e) w = (Raise e, snd (reset_context w)).
Proof. reflexivity. Qed.

Section Reset.
Variable json_loads : string -> option json.
Variable xml_parse : parser_call -> xml_outcome.
Variable lowercase_keys : Dict -> Dict.
Variable exception_from_message : Z -> body_obj -> Dict -> exn.
Variable transport : nat -> Exchange -> wire_outcome.

(** The exit paths of [_retryable_request] that do reset the context: a
    transport that answers (whatever the response class then does), a
    name-resolution failure other than number -5, a TLS failure. *)
Lemma retryable_request_resets args w h :
  connection (conn w) = true -> heap w !! a_headers args = Some h ->
  match transport (length (sent w))
          {| prepared := a_raw args; x_method := a_method args;
             x_url := a_url args; x_body := a_data args;
             x_headers := items h; x_stream := a_stream args |} with
  | Answers _ => True
  | Fails (Gaierror errno _) => errno <> Some (-5)
  | Fails (SSLError _ _ _) => True
  | Fails _ => False
  end ->
  context_empty
    (snd (_retryable_request json_loads xml_parse lowercase_keys
            exception_from_message transport args w)).
Proof.
  intros C L T. unfold ConnectionM._retryable_request.
  unfold bind at 1, try_except, transport_call, bind, get, load, send, ret.
  rewrite C, L. destruct (transport _ _) as [r|e].
  - apply try_finally_reset.
  - assert (R : forall e',
      context_empty
        (snd (let (r, s') := (reset_context ;;; @raise World unit e')
                               (set_sent
                                  (sent w ++
                                   [{| prepared := a_raw args;
                                       x_method := a_method args;
                                       x_url := a_url args;
                                       x_body := a_data args;
                                       x_headers := items h;
                                       x_stream := a_stream args |}]) w) in
              match r with
              | Ok a =>
                  (response <- conn_getresponse ;;
                   try_finally
                     (build_response json_loads xml_parse lowercase_keys
                        exception_from_message (a_raw args) response)
                     reset_context) s'
              | Raise e0 => (Raise e0, s')
              end))).
    { intros e'. rewrite reset_then_raise. apply reset_context_empty. }
    destruct e as [errno m| m | | | | | | |]; try contradiction;
      cbn [transport_error].
    + destruct errno as [z|]; [| apply R].
      destruct z as [|q|q]; try apply R.
      destruct q as [q|q|]; try apply R.
      destruct q as [q|q|]; try apply R.
      destruct q as [q|q|]; try apply R.
      congruence.
    + apply R.
Qed.

End Reset.

Lemma BaseHooks_local : HooksLocal BaseHooks.
Proof.
  split.
  - intros l w r w' [= <- <-]. split; [reflexivity | intros ? [= <-]; auto].
  - intros l w r w' [= <- <-]. split; [reflexivity | intros ? [= <-]; auto].
  - intros lp lh w r w' [= <- <-]. split; [reflexivity |].
    intros ? ? [= <- <-]. auto.
  - intros d. apply quiet_ret.
Qed.

Lemma ApiKeyHooks_local : HooksLocal ApiKeyHooks.
Proof.
  split.
  - intros l w r w'. cbn [add_default_params ApiKeyHooks].
    unfold bind, load, store, modify, ret.
    destruct (heap w !! l) as [[d|q]|] eqn:L; intros [= <- <-]; cbn [heap set_heap];
      (split; [| intros ? [= <-]; auto]); try reflexivity;
      intros k _ Hk; now apply lookup_insert_ne.
  - intros l w r w'. cbn [add_default_headers ApiKeyHooks].
    unfold update, bind, load, store, modify, ret, raise.
    destruct (heap w !! l) as [[d|q]|] eqn:L; intros [= <- <-]; cbn [heap set_heap];
      (split; [| intros ? [=]; auto]); try reflexivity;
      intros k _ Hk; now apply lookup_insert_ne.
  - intros lp lh w r w' [= <- <-]. split; [reflexivity |].
    intros ? ? [= <- <-]. auto.
  - intros d. apply quiet_ret.
Qed.

Lemma no_retry_local : RetryLocal no_retry.
Proof. intros policy f H. exact H. Qed.

(** C1, on the failing path.  The caller sets a context, the host does not
    resolve (number -5): [request] raises the friendlier error and the
    connection still holds the caller's context, not an empty one. *)
Theorem request_no_address_keeps_context :
  let run :=
    (set_context 1%positive ;;;
     request literal_json no_xml same_keys HTTPError no_address no_retry
       plain_globals "/servers" None None None "GET" false false None)%py
      sample_world in
  (exists msg, fst run = Raise (Gaierror None msg))
  /\ heap (snd run) !! context (conn (snd run))
     = Some (ODict [("job", VStr "42")])
  /\ ~ context_empty (snd run).
Proof.
  cbv zeta. split; [eexists; vm_compute; reflexivity |].
  assert (E : heap (snd ((set_context 1%positive ;;;
     request literal_json no_xml same_keys HTTPError no_address no_retry
       plain_globals "/servers" None None None "GET" false false None)%py
      sample_world)) !! context (conn (snd ((set_context 1%positive ;;;
     request literal_json no_xml same_keys HTTPError no_address no_retry
       plain_globals "/servers" None None None "GET" false false None)%py
      sample_world))) = Some (ODict [("job", VStr "42")]))
    by (vm_compute; reflexivity).
  split; [exact E |]. unfold context_empty. rewrite E. discriminate.
Qed.

(** C9 at a concrete call: a provider whose hooks write into what they
    are given; the caller's two dictionaries are as before. *)
Lemma request_keeps_caller_mappings_witness :
  let run :=
    request (hooks := ApiKeyHooks) literal_json no_xml same_keys HTTPError
      answers_ok no_retry plain_globals "/servers" (Some 3%positive) None
      (Some 4%positive) "GET" false false None sample_world in
  heap (snd run) !! 3%positive = Some (ODict [("limit", VStr "10")])
  /\ heap (snd run) !! 4%positive = Some (ODict [("Accept", VStr "text/plain")]).
Proof.
  intros run.
  destruct (request_keeps_caller_mappings (hooks := ApiKeyHooks)
              literal_json no_xml same_keys HTTPError answers_ok no_retry
              plain_globals ApiKeyHooks_local no_retry_local
              "/servers" (Some 3%positive) None (Some 4%positive) "GET"
              false false None sample_world (fst run) (snd run)
              (surjective_pairing run)) as [Hp Hh].
  split.
  - etransitivity; [apply (Hp 3%positive eq_refl); vm_compute; eauto |].
    reflexivity.
  - etransitivity; [apply (Hh 4%positive eq_refl); vm_compute; eauto |].
    reflexivity.
Defined.

Lemma sample_prepared_ok : sample_prepared = (Ok sample_args, snd sample_prepared).
Proof.
  rewrite (surjective_pairing sample_prepared) at 1.
  apply (f_equal (fun r => (r, snd sample_prepared))).
  vm_compute. reflexivity.
Qed.

(** C7 at the same call, retry off: one exchange. *)
Lemma retry_wrapping_precedence_witness :
  exists x,
    sent (snd (request literal_json no_xml same_keys HTTPError answers_ok
                 no_retry plain_globals "/servers" (Some 3%positive) None
                 (Some 4%positive) "GET" false false None sample_world))
    = sent (snd sample_prepared) ++ [x].
Proof.
  refine (proj2 (proj2 (proj2 (retry_wrapping_precedence literal_json no_xml
           same_keys HTTPError answers_ok no_retry plain_globals "/servers"
           (Some 3%positive) None (Some 4%positive) "GET" false false None
           sample_world) sample_args (snd sample_prepared) sample_prepared_ok)
           eq_refl) _).
  vm_compute. eauto.
Defined.

End ConnectionProps.

(** ** [PollingConnection.async_request] *)

Module PollingProps.
Import PyStr Py PollingM.
Local Open Scope py_scope.
Local Open Scope Z_scope.

Section PollingFacts.
Variable Resp : Type.
Variable server : nat -> Kwargs -> result Resp * Z.
Context {hooks : PollingHooks Resp}.
Variable poll_interval : Z.
Variable timeout : Z.

#[local] Abbreviation poll_loop := (poll_loop server poll_interval).
#[local] Abbreviation async_request :=
  (async_request server poll_interval timeout).
#[local] Abbreviation elapsed := (elapsed server poll_interval).
#[local] Abbreviation PollWorld := (PollWorld Resp).

(** One turn of the loop whose request answers and whose job is not
    done. *)
Lemma poll_loop_step fuel end_ k resp0 (w : PollWorld) r d :
  now w < end_ ->
  server (issued w) k = (Ok r, d) ->
  has_completed r = Ok false ->
  poll_loop (S fuel) end_ k resp0 false w
  = poll_loop fuel end_ k r false
      {| now := now w + d + poll_interval;
         issued := S (issued w);
         trace := ((trace w ++ [Requested k (Ok r)])
                     ++ [Checked r]) ++ [Slept poll_interval] |}.
Proof.
  intros T Sv C. cbn [PollingM.poll_loop].
  unfold bind at 1, time. apply Z.ltb_lt in T. rewrite T. cbn [andb negb].
  unfold bind at 1, request. rewrite Sv.
  unfold bind at 1, check. cbn [now issued trace]. rewrite C.
  unfold bind at 1, sleep. cbn [negb now issued trace]. reflexivity.
Qed.

Lemma poll_loop_done fuel end_ k resp0 (w : PollWorld) r d :
  now w < end_ ->
  server (issued w) k = (Ok r, d) ->
  has_completed r = Ok true ->
  poll_loop (S fuel) end_ k resp0 false w
  = (Ok (Some (r, true)),
     {| now := now w + d; issued := S (issued w);
        trace := (trace w ++ [Requested k (Ok r)])
                   ++ [Checked r] |}).
Proof.
  intros T Sv C. cbn [PollingM.poll_loop].
  unfold bind at 1, time. apply Z.ltb_lt in T. rewrite T. cbn [andb negb].
  unfold bind at 1, request. rewrite Sv.
  unfold bind at 1, check. cbn [now issued trace]. rewrite C.
  unfold bind at 1, ret. cbn [negb].
  destruct fuel; cbn [PollingM.poll_loop]; unfold bind, time, ret;
    cbn [now]; now rewrite andb_false_r.
Qed.

Lemma poll_loop_late fuel end_ k resp0 c (w : PollWorld) :
  end_ <= now w ->
  poll_loop fuel end_ k resp0 c w = (Ok (Some (resp0, c)), w).
Proof.
  intros T. apply Z.ltb_ge in T.
  destruct fuel; cbn [PollingM.poll_loop]; unfold bind, time, ret; now rewrite T.
Qed.

(** The job completes at the poll number [N + 1], which starts before the
    deadline. *)
Lemma poll_loop_completes k end_ resp N : forall fuel resp0 (w : PollWorld),
  (N < fuel)%nat ->
  (forall i, (i < N)%nat ->
     exists r, fst (server (issued w + i) k) = Ok r
               /\ has_completed r = Ok false) ->
  fst (server (issued w + N) k) = Ok resp ->
  has_completed resp = Ok true ->
  0 <= poll_interval -> (forall n, 0 <= snd (server n k)) ->
  now w + elapsed k (issued w) N < end_ ->
  exists w', poll_loop fuel end_ k resp0 false w = (Ok (Some (resp, true)), w')
             /\ issued w' = (issued w + S N)%nat.
Proof.
  induction N as [|N IH]; intros fuel resp0 w F Hf Hl Hc Hi Hd Ht.
  - destruct fuel as [|fuel]; [lia |].
    rewrite Nat.add_0_r in Hl. cbn [PollingM.elapsed] in Ht.
    destruct (server (issued w) k) as [o d] eqn:Sv. cbn [fst] in Hl. subst o.
    assert (T : now w < end_) by lia.
    eexists. rewrite (poll_loop_done _ _ _ _ _ _ _ T Sv Hc).
    split; [reflexivity |]. cbn [issued]. lia.
  - destruct fuel as [|fuel]; [lia |].
    destruct (Hf 0%nat ltac:(lia)) as [r [Sr C]]. rewrite Nat.add_0_r in Sr.
    destruct (server (issued w) k) as [o d] eqn:Sv. cbn [fst] in Sr. subst o.
    cbn [PollingM.elapsed] in Ht. rewrite Sv in Ht. cbn [snd] in Ht.
    pose proof (Hd (issued w)) as D0. rewrite Sv in D0. cbn [snd] in D0.
    assert (E0 : 0 <= elapsed k (S (issued w)) N).
    { clear -Hi Hd. generalize (S (issued w)).
      induction N as [|N IHN]; intros j; cbn [PollingM.elapsed]; [lia |].
      specialize (IHN (S j)). specialize (Hd j). lia. }
    assert (T : now w < end_) by lia.
    rewrite (poll_loop_step _ _ _ _ _ _ _ T Sv C).
    set (w1 := {| now := now w + d + poll_interval; issued := S (issued w);
                  trace := ((trace w ++ [Requested k (Ok r)])
                              ++ [Checked r]) ++ [Slept poll_interval] |}).
    destruct (IH fuel r w1) as [w' [E I]]; try assumption.
    + lia.
    + intros i Li. cbn [w1 issued].
      replace (S (issued w) + i)%nat with (issued w + S i)%nat by lia.
      apply Hf. lia.
    + cbn [w1 issued].
      replace (S (issued w) + N)%nat with (issued w + S N)%nat by lia.
      exact Hl.
    + cbn [w1 now issued]. lia.
    + exists w'. split; [exact E |]. rewrite I. cbn [w1 issued]. lia.
Qed.

(** The job never completes: the loop ends at the first test that finds
    the deadline passed. *)
Lemma poll_loop_times_out k end_ : forall fuel resp0 (w : PollWorld),
  (forall i, exists r, fst (server (issued w + i) k) = Ok r
                       /\ has_completed r = Ok false) ->
  0 < poll_interval -> (forall n, 0 <= snd (server n k)) ->
  (Z.to_nat (end_ - now w) <= fuel)%nat ->
  exists n resp' w',
    poll_loop fuel end_ k resp0 false w = (Ok (Some (resp', false)), w')
    /\ issued w' = (issued w + n)%nat
    /\ now w' = now w + elapsed k (issued w) n
    /\ end_ <= now w'
    /\ (forall m, (m < n)%nat -> now w + elapsed k (issued w) m < end_).
Proof.
  induction fuel as [|fuel IH]; intros resp0 w Hf Hi Hd F.
  - exists 0%nat, resp0, w. rewrite poll_loop_late by lia.
    cbn [PollingM.elapsed]. repeat split; try lia.
  - destruct (Z_lt_le_dec (now w) end_) as [T|T].
    + destruct (Hf 0%nat) as [r [Sr C]]. rewrite Nat.add_0_r in Sr.
      destruct (server (issued w) k) as [o d] eqn:Sv. cbn [fst] in Sr. subst o.
      pose proof (Hd (issued w)) as D0. rewrite Sv in D0. cbn [snd] in D0.
      rewrite (poll_loop_step _ _ _ _ _ _ _ T Sv C).
      set (w1 := {| now := now w + d + poll_interval; issued := S (issued w);
                    trace := ((trace w ++ [Requested k (Ok r)])
                                ++ [Checked r]) ++ [Slept poll_interval] |}).
      destruct (IH r w1) as [n [resp' [w' [E [I [N [L M]]]]]]]; try assumption.
      * intros i. cbn [w1 issued].
        replace (S (issued w) + i)%nat with (issued w + S i)%nat by lia.
        apply Hf.
      * cbn [w1 now]. lia.
      * exists (S n), resp', w'. cbn [w1 now issued] in *.
        split; [exact E |]. split; [lia |].
        cbn [PollingM.elapsed]. rewrite Sv. cbn [snd].
        split; [lia |]. split; [exact L |].
        intros [|m] Lm; cbn [PollingM.elapsed]; [lia |].
        rewrite Sv. cbn [snd]. specialize (M m ltac:(lia)). lia.
    + exists 0%nat, resp0, w. rewrite poll_loop_late by lia.
      cbn [PollingM.elapsed]. repeat split; try lia.
Qed.

(** The shape of what one run of the loop adds to the trace. *)
Lemma poll_loop_trace k end_ : forall fuel resp c (w : PollWorld) r w',
  poll_loop fuel end_ k resp c w = (r, w') ->
  exists evs,
    trace w' = trace w ++ evs
    /\ checks_follow_requests evs
    /\ (now w < end_ -> c = false -> (1 <= fuel)%nat ->
        exists o rest, evs = Requested k o :: rest)
    /\ (forall resp' c', r = Ok (Some (resp', c')) ->
          (evs = [] /\ resp' = resp /\ c' = c)
          \/ exists pre,
               evs = pre ++ [Requested k (Ok resp'); Checked resp']
                         ++ (if c' then [] else [Slept poll_interval])).
Proof.
  induction fuel as [|fuel IH]; intros resp c w r w'; cbn [PollingM.poll_loop];
    unfold bind at 1, time.
  - destruct ((now w <? end_) && negb c) eqn:B; intros [= <- <-];
      exists []; rewrite app_nil_r; (split; [reflexivity |]);
      (split; [exact I |]); (split; [lia |]); intros ? ? [=]; subst; auto.
  - destruct ((now w <? end_) && negb c) eqn:B.
    2:{ intros [= <- <-]. exists []. rewrite app_nil_r.
        split; [reflexivity |]. split; [exact I |]. split.
        - intros T -> _. apply Z.ltb_lt in T. rewrite T in B. discriminate.
        - intros ? ? [= <- <-]. auto. }
    unfold bind at 1, request.
    destruct (server (issued w) k) as [[r1|e] d] eqn:Sv.
    2:{ intros [= <- <-]. exists [Requested k (Raise e)]. cbn [trace].
        split; [reflexivity |]. split; [exact I |]. split; [eauto |].
        intros ? ? [=]. }
    unfold bind at 1, check. cbn [now issued trace].
    destruct (has_completed r1) as [c1|e] eqn:C.
    2:{ intros [= <- <-]. exists [Requested k (Ok r1); Checked r1]. cbn [trace].
        rewrite <- app_assoc. split; [reflexivity |].
        split; [cbn; auto |]. split; [eauto |]. intros ? ? [=]. }
    unfold bind at 1.
    set (w2 := snd ((if negb c1 then sleep Resp poll_interval else ret tt)
                      {| now := now w + d; issued := S (issued w);
                         trace := (trace w ++ [Requested k (Ok r1)])
                                    ++ [Checked r1] |})).
    assert (E2 : (if negb c1 then sleep Resp poll_interval else ret tt)
                   {| now := now w + d; issued := S (issued w);
                      trace := (trace w ++ [Requested k (Ok r1)])
                                 ++ [Checked r1] |} = (Ok tt, w2))
      by (subst w2; destruct c1; reflexivity).
    rewrite E2. intros L.
    destruct (IH r1 c1 w2 r w' L) as [evs [T [F [_ R]]]].
    assert (T2 : trace w2 = trace w ++ [Requested k (Ok r1); Checked r1]
                              ++ (if c1 then [] else [Slept poll_interval])).
    { subst w2. destruct c1; cbn; now rewrite <- !app_assoc. }
    exists (([Requested k (Ok r1); Checked r1]
               ++ (if c1 then [] else [Slept poll_interval])) ++ evs).
    split; [now rewrite T, T2, !app_assoc |].
    split; [destruct c1; cbn; auto |].
    split; [intros _ _ _; eexists _, _; reflexivity |].
    intros resp' c' ->. right.
    destruct (R resp' c' eq_refl) as [[-> [-> ->]] | [pre ->]].
    + exists []. now rewrite app_nil_r.
    + exists (([Requested k (Ok r1); Checked r1]
                 ++ (if c1 then [] else [Slept poll_interval])) ++ pre).
      now rewrite <- !app_assoc.
Qed.


(** C4 (as the code has it).  After an initiating request that answers:
    (a) if the completion test is false on the first [N] polls and true on
    the next, and that poll starts before the deadline, [async_request]
    returns its response; (b) if the test is never true, [async_request]
    raises the job-timeout error once the deadline has passed, after [n]
    polls of which each started before the deadline, and makes no request
    after that. *)
Theorem async_request_completes_or_times_out
    action params data headers method context (w : PollWorld) r0 d0 k1 :
  server (issued w)
    (get_request_kwargs action params data headers method context)
  = (Ok r0, d0) ->
  get_poll_request_kwargs r0 context
    (get_request_kwargs action params data headers method context) = Ok k1 ->
  (forall n, 0 <= snd (server n k1)) ->
  (forall N resp fuel,
     0 <= poll_interval ->
     (forall i, (i < N)%nat ->
        exists r, fst (server (S (issued w) + i) k1) = Ok r
                  /\ has_completed r = Ok false) ->
     fst (server (S (issued w) + N) k1) = Ok resp ->
     has_completed resp = Ok true ->
     elapsed k1 (S (issued w)) N < timeout ->
     (N < fuel)%nat ->
     exists w',
       async_request fuel action params data headers method context w
       = (Ok (Some resp), w')
       /\ issued w' = (S (issued w) + S N)%nat)
  /\ (forall fuel,
        0 < poll_interval ->
        (forall i, exists r, fst (server (S (issued w) + i) k1) = Ok r
                             /\ has_completed r = Ok false) ->
        (Z.to_nat timeout <= fuel)%nat ->
        exists n w',
          async_request fuel action params data headers method context w
          = (Raise (LibcloudError (timeout_message timeout)), w')
          /\ issued w' = (S (issued w) + n)%nat
          /\ now w' = now w + d0 + elapsed k1 (S (issued w)) n
          /\ timeout <= elapsed k1 (S (issued w)) n
          /\ (forall m, (m < n)%nat -> elapsed k1 (S (issued w)) m < timeout)).
Proof.
  intros Sv G Hd.
  set (w1 := {| now := now w + d0; issued := S (issued w);
                trace := trace w
                         ++ [Requested (get_request_kwargs action params data
                                          headers method context) (Ok r0)] |}).
  assert (U : forall fuel,
            async_request fuel action params data headers method context w
            = (out <- poll_loop fuel (now w1 + timeout) k1 r0 false ;;
               match out with
               | None => ret None
               | Some (response, completed) =>
                   if negb completed
                   then raise (LibcloudError (timeout_message timeout))
                   else ret (Some response)
               end) w1).
  { intros fuel. unfold PollingM.async_request.
    unfold bind at 1, request. rewrite Sv.
    unfold bind at 1, lift. rewrite G. reflexivity. }
  split.
  - intros N resp fuel Hi Hf Hl Hc Ht F.
    destruct (poll_loop_completes k1 (now w1 + timeout) resp N fuel r0 w1)
      as [w' [E I]]; try assumption.
    + cbn [w1 now issued]. lia.
    + exists w'. rewrite U. unfold bind. rewrite E. split; [reflexivity | exact I].
  - intros fuel Hi Hf F.
    destruct (poll_loop_times_out k1 (now w1 + timeout) fuel r0 w1)
      as [n [resp' [w' [E [I [N [L M]]]]]]]; try assumption.
    + replace (now w1 + timeout - now w1) with timeout by lia. exact F.
    + exists n, w'. rewrite U. unfold bind. rewrite E.
      cbn [w1 now issued] in *.
      split; [reflexivity |]. split; [exact I |]. split; [exact N |].
      split; [lia |]. intros m Lm. specialize (M m Lm). lia.
Qed.

End PollingFacts.

(** C4 as stated fails: the completion test is false on the first two
    polls and true on the third, but with a timeout of 1000 ticks and 500
    ticks between polls the deadline passes after the second poll, and
    the third response is never returned. *)
Lemma completion_after_deadline_not_returned :
  ~ (exists fuel,
       fst (async_request (hooks := JobHooks) (job_server 0) 500 1000 fuel
              "/jobs" None None None "POST" None idle)
       = Ok (Some "done")).
Proof.
  intros [fuel E].
  destruct fuel as [|[|fuel]]; [vm_compute in E; discriminate ..|].
  unfold async_request in E. unfold bind at 1, request in E.
  cbn [job_server issued idle now trace Nat.eqb orb] in E.
  unfold bind at 1, lift in E.
  cbn [get_poll_request_kwargs get_request_kwargs JobHooks] in E.
  unfold bind at 1, time in E. cbn [now] in E.
  unfold bind at 1 in E.
  rewrite (poll_loop_step string (job_server 0) 500 _ _ job_kwargs "done"
             _ "pending" 0) in E; [| reflexivity ..].
  rewrite (poll_loop_step string (job_server 0) 500 _ _ job_kwargs "pending"
             _ "pending" 0) in E; [| reflexivity ..].
  rewrite poll_loop_late in E by (cbn; lia).
  cbn in E. discriminate.
Qed.

(** C4 at two concrete services: with requests of 100 ticks and the
    default interval and timeout the third poll's response is returned; a
    job that never completes times out. *)
Lemma async_request_completes_or_times_out_witness :
  (exists w',
     async_request (hooks := JobHooks) (job_server 100) default_poll_interval
       default_timeout 3 "/jobs" None None None "POST" None idle
     = (Ok (Some "done"), w')
     /\ issued w' = 4%nat)
  /\ (exists n w',
        async_request (hooks := JobHooks) (stuck_server 0) 500 1000 1000
          "/jobs" None None None "POST" None idle
        = (Raise (LibcloudError (timeout_message 1000)), w')
        /\ issued w' = (1 + n)%nat
        /\ now w' = 0 + 0 + elapsed (stuck_server 0) 500 job_kwargs 1 n
        /\ 1000 <= elapsed (stuck_server 0) 500 job_kwargs 1 n
        /\ (forall m, (m < n)%nat ->
                      elapsed (stuck_server 0) 500 job_kwargs 1 m < 1000)).
Proof.
  split.
  - refine (proj1 (async_request_completes_or_times_out string (job_server 100)
                     (hooks := JobHooks) default_poll_interval default_timeout
                     "/jobs" None None None "POST" None idle "done" 100
                     job_kwargs eq_refl eq_refl _)
              2%nat "done" 3%nat _ _ eq_refl eq_refl _ _).
    + intros n. cbn. lia.
    + vm_compute. discriminate.
    + intros [|[|i]] Hi; [eexists; split; reflexivity .. | lia].
    + vm_compute. reflexivity.
    + lia.
  - refine (proj2 (async_request_completes_or_times_out string (stuck_server 0)
                     (hooks := JobHooks) 500 1000
                     "/jobs" None None None "POST" None idle "pending" 0
                     job_kwargs eq_refl eq_refl _)
              1000%nat _ _ _).
    + intros n. cbn. lia.
    + lia.
    + intros i. eexists. split; reflexivity.
    + vm_compute. lia.
Defined.



End PollingProps.

(** ** [LazyObject] *)

Module LazyObjectProps.
Import Py LazyObjectM.
Local Open Scope py_scope.

Section LazyFacts.
Variable Val : Type.
Variable construct : nat -> result (gmap string Val).

#[local] Abbreviation uses := (uses construct).
#[local] Abbreviation apply_use := (apply_use construct).

(** Once the slot is filled, a use of the proxy is the use of the object
    and the class is not called. *)
Lemma apply_use_filled (u : use Val) o n :
  apply_use u {| _lazy_obj := Some o; constructed := n |}
  = (fst (direct_use u o),
     {| _lazy_obj := Some (snd (direct_use u o)); constructed := n |}).
Proof.
  destruct u as [attr|attr value]; cbn.
  - unfold LazyObjectM.__getattribute__, bind, _get_lazy_obj, ret. cbn.
    destruct (getattr o attr); reflexivity.
  - reflexivity.
Qed.

Lemma uses_filled l : forall o n,
  uses l {| _lazy_obj := Some o; constructed := n |}
  = (fst (direct_uses l o),
     {| _lazy_obj := Some (snd (direct_uses l o)); constructed := n |}).
Proof.
  induction l as [|u l IH]; intros o n; [reflexivity |].
  cbn [LazyObjectM.uses direct_uses]. rewrite apply_use_filled, IH.
  destruct (direct_use u o) as [v o1]. cbn [fst snd].
  destruct (direct_uses l o1) as [vs o2]. reflexivity.
Qed.

(** The first use of a fresh proxy calls the class. *)
Lemma apply_use_first (u : use Val) o n :
  construct n = Ok o ->
  apply_use u {| _lazy_obj := None; constructed := n |}
  = (fst (direct_use u o),
     {| _lazy_obj := Some (snd (direct_use u o)); constructed := S n |}).
Proof.
  intros C. destruct u as [attr|attr value]; cbn.
  - unfold LazyObjectM.__getattribute__, bind, _get_lazy_obj, ret. cbn.
    rewrite C. destruct (getattr o attr); reflexivity.
  - unfold LazyObjectM.__setattr__, bind, _get_lazy_obj, modify, ret. cbn.
    rewrite C. reflexivity.
Qed.

(** X1. [lazy] calls nothing; when the class can be instantiated, the first
    use of the proxy instantiates it, no later use does, and every use
    gives what the same use of the instance would. *)
Theorem lazy_proxy_transparent (l : list (use Val)) o :
  construct 0 = Ok o ->
  constructed (@lazy Val) = 0
  /\ (l <> [] ->
      uses l lazy
      = (fst (direct_uses l o),
         {| _lazy_obj := Some (snd (direct_uses l o)); constructed := 1 |})).
Proof.
  intros C. split; [reflexivity |].
  destruct l as [|u l]; [congruence | intros _].
  cbn [LazyObjectM.uses direct_uses]. unfold lazy.
  rewrite (apply_use_first u o 0 C), uses_filled.
  destruct (direct_use u o) as [v o1]. cbn [fst snd].
  destruct (direct_uses l o1) as [vs o2]. reflexivity.
Qed.

(** X3. A failed instantiation is not remembered: the use raises what the
    class raised, the slot stays empty, and the next use calls the class
    again. *)
Theorem lazy_failed_construction_retried (u u' : use Val) e (p : Proxy Val) :
  _lazy_obj p = None ->
  construct (constructed p) = Raise e ->
  exists p1,
    apply_use u p = (Raise e, p1)
    /\ _lazy_obj p1 = None
    /\ constructed p1 = S (constructed p)
    /\ match construct (S (constructed p)) with
       | Ok o =>
           apply_use u' p1
           = (fst (direct_use u' o),
              {| _lazy_obj := Some (snd (direct_use u' o));
                 constructed := S (S (constructed p)) |})
       | Raise e' => fst (apply_use u' p1) = Raise e'
       end.
Proof.
  destruct p as [o n]. cbn. intros -> C.
  exists {| _lazy_obj := None; constructed := S n |}.
  split.
  - destruct u; cbn;
      unfold LazyObjectM.__getattribute__, LazyObjectM.__setattr__, bind,
        _get_lazy_obj; cbn; now rewrite C.
  - split; [reflexivity |]. split; [reflexivity |].
    destruct (construct (S n)) as [o|e'] eqn:C'.
    + now apply apply_use_first.
    + destruct u'; cbn;
        unfold LazyObjectM.__getattribute__, LazyObjectM.__setattr__, bind,
          _get_lazy_obj; cbn; now rewrite C'.
Qed.

End LazyFacts.

Local Open Scope Z_scope.

Lemma lazy_proxy_transparent_witness :
  uses steady [Get "size"; Put "size" 4; Get "size"; Get "name"] lazy
  = ([Ok (Some 3); Ok None; Ok (Some 4); Raise (AttributeError "name")],
     {| _lazy_obj := Some (<["size" := 4]> (<["size" := 3]> ∅));
        constructed := 1 |}).
Proof.
  etransitivity.
  - apply (proj2 (lazy_proxy_transparent Z steady
                    [Get "size"; Put "size" 4; Get "size"; Get "name"]
                    (<["size" := 3]> ∅) eq_refl)).
    discriminate.
  - reflexivity.
Defined.

Lemma lazy_failed_construction_retried_witness :
  exists p1,
    apply_use flaky (Get "retries") lazy
    = (Raise (OtherError "ConnectionRefusedError"), p1)
    /\ _lazy_obj p1 = None
    /\ constructed p1 = 1%nat
    /\ apply_use flaky (Get "retries") p1
       = (Ok (Some 1),
          {| _lazy_obj := Some (<["retries" := 1]> ∅); constructed := 2 |}).
Proof.
  destruct (lazy_failed_construction_retried Z flaky (Get "retries")
              (Get "retries") (OtherError "ConnectionRefusedError") lazy
              eq_refl eq_refl) as [p1 [E [N [C R]]]].
  exists p1. repeat split; assumption.
Defined.

End LazyObjectProps.

(** ** [HTTPResponse.read] *)

Module HTTPResponseProps.
Import Py HTTPResponseM.

Section ReadFacts.
Variable St : Type.
Variable fp_is_None : St -> bool.
Variable _method : St -> string.
Variable close : St -> St.
Variable httplib_read : option Z -> St -> result string * St.

#[local] Abbreviation read := (read St fp_is_None _method close httplib_read).
#[local] Abbreviation read_all :=
  (read_all St fp_is_None _method close httplib_read).

(** X4. On a response to a [HEAD] request (closing it does not change the
    request method) no read ever reaches the inherited [read]: every read
    returns the empty string, whatever [amt]; and once the response is
    closed, nothing closes it again. *)
Theorem head_response_never_read amts (o : Obj St) :
  (forall s, _method (close s) = _method s) ->
  _method (state o) = "HEAD" ->
  Forall (fun r => r = Ok "") (fst (read_all amts o))
  /\ length (fst (read_all amts o)) = length amts
  /\ inherited_reads (snd (read_all amts o)) = inherited_reads o
  /\ ((forall s, fp_is_None (close s) = true) ->
      (closes (snd (read_all amts o)) <= S (closes o))%nat
      /\ (fp_is_None (state o) = true ->
          closes (snd (read_all amts o)) = closes o)).
Proof.
  intros K. revert o.
  induction amts as [|amt rest IH]; intros o H.
  - cbn. repeat split; auto.
  - assert (R : exists o1,
      read amt o = (Ok "", o1)
      /\ _method (state o1) = "HEAD"
      /\ inherited_reads o1 = inherited_reads o
      /\ (fp_is_None (state o) = true -> o1 = o)
      /\ (fp_is_None (state o) = false ->
          closes o1 = S (closes o) /\ state o1 = close (state o))).
    { unfold HTTPResponseM.read. destruct (fp_is_None (state o)) eqn:F.
      - exists o. repeat split; auto; discriminate.
      - rewrite H. cbn [String.eqb Ascii.eqb Bool.eqb andb].
        eexists. split; [reflexivity |]. cbn. rewrite K.
        repeat split; auto; discriminate. }
    destruct R as [o1 [R [H1 [I1 [Same Closed]]]]].
    cbn [HTTPResponseM.read_all]. rewrite R.
    destruct (IH o1 H1) as [A [B [C D]]].
    destruct (read_all rest o1) as [rs o2]. cbn [fst snd] in *.
    split; [constructor; [reflexivity | exact A] |].
    split; [cbn [List.length]; now rewrite B |].
    split; [now rewrite C |].
    intros Cl. destruct (D Cl) as [D1 D2].
    destruct (fp_is_None (state o)) eqn:F.
    + rewrite (Same eq_refl) in *. split; [exact D1 |].
      intros _. apply D2. exact F.
    + destruct (Closed eq_refl) as [C1 S1]. split; [| discriminate].
      rewrite D2; [lia |]. rewrite S1. apply Cl.
Qed.

End ReadFacts.

Lemma head_response_never_read_witness :
  let o := {| state := {| fp := Some "HTTP/1.1 200 OK"; method := "HEAD" |};
              closes := 0; inherited_reads := 0 |} in
  let out := read_all Plain plain_fp_is_None method plain_close plain_read
               [None; Some 10%Z; None] o in
  Forall (fun r => r = Ok "") (fst out)
  /\ length (fst out) = 3%nat
  /\ inherited_reads (snd out) = 0%nat.
Proof.
  intros o out.
  destruct (head_response_never_read Plain plain_fp_is_None method plain_close
              plain_read [None; Some 10%Z; None] o (fun s => eq_refl) eq_refl)
    as [A [B [C _]]].
  repeat split; assumption.
Defined.

End HTTPResponseProps.

(** ** [Connection.__init__], [_tuple_from_url] and [connect] *)

Module EndpointProps.
Import PyStr PyStrFacts Py EndpointM.
Local Open Scope Z_scope.

Lemma split_length sep s : length (split sep s) = S (count sep s).
Proof.
  induction s as [|c r IH]; [reflexivity |]. cbn [split count].
  destruct (Ascii.eqb c sep); cbn [length]; [now rewrite IH |].
  destruct (split sep r) as [|h t]; cbn [length] in *; lia.
Qed.

Lemma contains_count ch s : contains ch s = true <-> (1 <= count ch s)%nat.
Proof.
  induction s as [|c r IH]; cbn [contains count]; [split; [discriminate | lia] |].
  destruct (Ascii.eqb c ch); cbn [orb]; [split; [lia | reflexivity] |].
  exact IH.
Qed.

(** A string with exactly one separator is the two fields around it. *)
Lemma split_two sep s a b :
  split sep s = [a; b] ->
  s = a +:+ String sep b /\ contains sep a = false /\ contains sep b = false.
Proof.
  intros E. pose proof (join_split sep s) as J.
  pose proof (split_sep_free sep s) as F. rewrite E in J, F.
  pose proof (List.Forall_inv F) as Fa.
  pose proof (List.Forall_inv (List.Forall_inv_tail F)) as Fb.
  cbn [join] in J. split; [| split; assumption].
  rewrite <- J. reflexivity.
Qed.

Lemma kw_get_set k k' v d :
  kw_get k (kw_set k' v d) = if String.eqb k' k then Some v else kw_get k d.
Proof.
  induction d as [|[k0 v0] d IH]; cbn [kw_set kw_get].
  - destruct (String.eqb k' k); reflexivity.
  - destruct (String.eqb k0 k') eqn:E0; cbn [kw_get].
    + apply String.eqb_eq in E0. subst k0.
      destruct (String.eqb k' k); reflexivity.
    + destruct (String.eqb k0 k) eqn:E1; [| exact IH].
      apply String.eqb_eq in E1. subst k0.
      rewrite String.eqb_sym in E0. now rewrite E0.
Qed.

Section UrlFacts.
Variable urlparse : string -> result ParseResult.
Variable int : string -> option Z.

#[local] Abbreviation _tuple_from_url := (_tuple_from_url urlparse int).
#[local] Abbreviation Connection_init := (Connection_init urlparse int).
#[local] Abbreviation connect := (connect urlparse int).

Lemma default_port_nonzero s : default_port s <> 0.
Proof. unfold default_port. destruct (String.eqb s "http"); lia. Qed.

(** X5. What [_tuple_from_url] returns, when it returns: the scheme is
    [http] (secure 0) or [https] (secure 1); the request path is the
    parsed one; the host holds no colon; the port is never 0: it is the
    port written in the network location, or the default of the scheme
    when none is written or the one written is 0. *)
Theorem tuple_from_url_result url u host port secure rp :
  urlparse url = Ok u ->
  _tuple_from_url url = Ok (host, port, secure, rp) ->
  (scheme u = "http" /\ secure = 0 \/ scheme u = "https" /\ secure = 1)
  /\ rp = path u
  /\ port <> 0
  /\ contains ":" host = false
  /\ (netloc u = host /\ port = default_port (scheme u)
      \/ exists p v,
           netloc u = host +:+ ":" +:+ p /\ contains ":" p = false
           /\ int p = Some v
           /\ port = if v =? 0 then default_port (scheme u) else v).
Proof.
  intros P. unfold EndpointM._tuple_from_url. rewrite P.
  cbn [existsb orb negb].
  destruct (String.eqb (scheme u) "http") eqn:Eh;
    [| destruct (String.eqb (scheme u) "https") eqn:Es];
    cbn [orb negb]; [| | discriminate].
  - apply String.eqb_eq in Eh.
    destruct (contains ":" (netloc u)) eqn:C.
    + destruct (split ":" (netloc u)) as [|a [|b [|c l]]] eqn:S; try discriminate.
      destruct (int b) as [v|] eqn:I; [| discriminate].
      destruct (split_two _ _ _ _ S) as [N [Fa Fb]].
      cbn [truthy_num]. intros [= <- <- <- <-].
      split; [left; split; [exact Eh | reflexivity] |].
      split; [reflexivity |]. split.
      { destruct (v =? 0) eqn:Z0; cbn [negb];
          [apply default_port_nonzero | now apply Z.eqb_neq]. }
      split; [exact Fa |]. right. exists b, v.
      split; [exact N |]. split; [exact Fb |]. split; [exact I |].
      destruct (v =? 0); reflexivity.
    + cbn [truthy_num]. intros [= <- <- <- <-].
      split; [left; split; [exact Eh | reflexivity] |].
      split; [reflexivity |]. split; [apply default_port_nonzero |].
      split; [exact C |]. left. split; reflexivity.
  - apply String.eqb_eq in Es.
    destruct (contains ":" (netloc u)) eqn:C.
    + destruct (split ":" (netloc u)) as [|a [|b [|c l]]] eqn:S; try discriminate.
      destruct (int b) as [v|] eqn:I; [| discriminate].
      destruct (split_two _ _ _ _ S) as [N [Fa Fb]].
      cbn [truthy_num]. intros [= <- <- <- <-].
      split; [right; split; [exact Es | reflexivity] |].
      split; [reflexivity |]. split.
      { destruct (v =? 0) eqn:Z0; cbn [negb];
          [apply default_port_nonzero | now apply Z.eqb_neq]. }
      split; [exact Fa |]. right. exists b, v.
      split; [exact N |]. split; [exact Fb |]. split; [exact I |].
      destruct (v =? 0); reflexivity.
    + cbn [truthy_num]. intros [= <- <- <- <-].
      split; [right; split; [exact Es | reflexivity] |].
      split; [reflexivity |]. split; [apply default_port_nonzero |].
      split; [exact C |]. left. split; reflexivity.
Qed.

(** X6. What [_tuple_from_url] refuses: a scheme other than [http] and
    [https], and a network location with more than one colon (an address
    in brackets, a user name with a password). *)
Theorem tuple_from_url_rejects url u :
  urlparse url = Ok u ->
  (scheme u <> "http" -> scheme u <> "https" ->
     _tuple_from_url url
     = Raise (LibcloudError
                ("Invalid scheme: " +:+ scheme u +:+ " in url " +:+ url)))
  /\ (scheme u = "http" \/ scheme u = "https" ->
      (2 <= count ":" (netloc u))%nat ->
      _tuple_from_url url
      = Raise (OtherError "ValueError: too many values to unpack (expected 2)")).
Proof.
  intros P. unfold EndpointM._tuple_from_url. rewrite P.
  cbn [existsb orb negb]. split.
  - intros Nh Ns.
    apply String.eqb_neq in Nh, Ns. now rewrite Nh, Ns.
  - intros Sc Cn.
    assert (B : String.eqb (scheme u) "http" || (String.eqb (scheme u) "https" || false)
                = true).
    { destruct Sc as [-> | ->]; reflexivity. }
    rewrite B. cbn [negb].
    assert (C : contains ":" (netloc u) = true) by (apply contains_count; lia).
    rewrite C. pose proof (split_length ":" (netloc u)) as L.
    destruct (split ":" (netloc u)) as [|a [|b [|c l]]]; cbn [length] in L;
      try reflexivity; lia.
Qed.

(** X7. [Connection.__init__]: the constructor refuses a false [secure]
    argument for a class that does not allow insecure connections,
    before it looks at anything else; otherwise, with a URL that
    [_tuple_from_url] accepts, the host, the port, the secure flag and the
    request path are those of the URL, whatever the arguments say. *)
Theorem Connection_init_url cls secure host port url timeout proxy_url
    retry_delay backoff :
  (allow_insecure cls = false -> secure = false ->
     Connection_init cls secure host port url timeout proxy_url retry_delay
       backoff
     = Raise (OtherError
                "ValueError: Non https connections are not allowed (use secure=True)"))
  /\ (allow_insecure cls = true \/ secure = true ->
      forall u h p s rp,
        url = Some u -> u <> "" ->
        _tuple_from_url u = Ok (h, p, s, rp) ->
        exists a,
          Connection_init cls secure host port url timeout proxy_url
            retry_delay backoff = Ok a
          /\ EndpointM.host a = h /\ EndpointM.port a = p
          /\ EndpointM.secure a = s /\ request_path a = rp).
Proof.
  unfold EndpointM.Connection_init. split.
  - intros -> ->. reflexivity.
  - intros A u h p s rp -> N T.
    assert (B : negb (allow_insecure cls) && negb secure = false).
    { destruct A as [-> | ->]; [reflexivity | apply andb_false_r]. }
    rewrite B. cbn [truthy_str]. unfold truthy.
    apply String.eqb_neq in N. rewrite N. cbn [negb]. rewrite T.
    eexists. split; [reflexivity |]. cbn. auto.
Qed.

(** X8. [Connection.connect]: the transport is always built with a host, a
    port and the connection's own secure flag, which replace what the
    caller put under these names; with a base URL the host and the port
    are those of the URL, but the secure flag is still the connection's;
    keyword arguments under other names are passed on. *)
Theorem connect_kwargs self opt host port base_url kwargs kw :
  connect self opt host port base_url kwargs = Ok kw ->
  kw_get "secure" kw = Some (KInt (EndpointM.secure self))
  /\ (forall b h p s rp,
        base_url = Some b -> _tuple_from_url b = Ok (h, p, s, rp) ->
        kw_get "host" kw = Some (KStr h) /\ kw_get "port" kw = Some (KInt p))
  /\ (base_url = None -> truthy_str (EndpointM.base_url opt) = false ->
      kw_get "host" kw
      = Some (KStr (if truthy_str host
                    then match host with Some h => h | None => "" end
                    else EndpointM.host self))
      /\ kw_get "port" kw
         = Some (KInt (if truthy_num port
                       then match port with Some p => p | None => 0 end
                       else EndpointM.port self)))
  /\ (forall k,
        ~ In k ["host"; "port"; "secure"; "key_file"; "cert_file"; "timeout";
                "proxy_url"] ->
        kw_get k kw = kw_get k kwargs).
Proof.
  unfold EndpointM.connect.
  set (endpoint := if truthy_str (EndpointM.base_url opt) && _ then _ else _).
  destruct endpoint as [[h0 p0]|e] eqn:E; [| discriminate].
  intros [= <-]. subst endpoint.
  split; [| split; [| split]].
  - destruct (truthy_str (proxy_url self)), (truthy_num (timeout self)),
      (cert_file opt) as [cf|], (key_file opt) as [kf|];
      rewrite ?kw_get_set; reflexivity.
  - intros b h p s rp -> T. rewrite andb_false_r, T in E.
    injection E as <- <-.
    split;
      destruct (truthy_str (proxy_url self)), (truthy_num (timeout self)),
        (cert_file opt) as [cf|], (key_file opt) as [kf|];
      rewrite ?kw_get_set; reflexivity.
  - intros -> B. rewrite B in E. cbn [andb] in E. injection E as <- <-.
    split;
      destruct (truthy_str (proxy_url self)), (truthy_num (timeout self)),
        (cert_file opt) as [cf|], (key_file opt) as [kf|];
      rewrite ?kw_get_set; reflexivity.
  - intros k N. cbn [In] in N.
    assert (Q : forall lit,
              In lit ["host"; "port"; "secure"; "key_file"; "cert_file";
                      "timeout"; "proxy_url"] ->
              String.eqb lit k = false).
    { intros lit I. apply String.eqb_neq. intros <-. exact (N I). }
    destruct (truthy_str (proxy_url self)), (truthy_num (timeout self)),
      (cert_file opt) as [cf|], (key_file opt) as [kf|];
      rewrite ?kw_get_set, ?Q by (cbn [In]; tauto); reflexivity.
Qed.
End UrlFacts.

Lemma tuple_from_url_result_witness :
  _tuple_from_url simple_urlparse decimal "http://example.com:8080/api"
  = Ok ("example.com", 8080, 0, "/api")
  /\ 8080 <> 0 /\ contains ":" "example.com" = false.
Proof.
  split; [reflexivity |].
  destruct (tuple_from_url_result simple_urlparse decimal
              "http://example.com:8080/api"
              {| scheme := "http"; netloc := "example.com:8080"; path := "/api";
                 params := ""; query := ""; fragment := "" |}
              "example.com" 8080 0 "/api" eq_refl eq_refl)
    as [_ [_ [P [C _]]]].
  split; assumption.
Defined.

Lemma tuple_from_url_rejects_witness :
  _tuple_from_url simple_urlparse decimal "ftp://example.com/pub"
  = Raise (LibcloudError "Invalid scheme: ftp in url ftp://example.com/pub")
  /\ _tuple_from_url simple_urlparse decimal "https://admin:pw@example.com:8443/"
     = Raise (OtherError "ValueError: too many values to unpack (expected 2)").
Proof.
  split.
  - apply (proj1 (tuple_from_url_rejects simple_urlparse decimal
                    "ftp://example.com/pub"
                    {| scheme := "ftp"; netloc := "example.com"; path := "/pub";
                       params := ""; query := ""; fragment := "" |} eq_refl));
      discriminate.
  - apply (proj2 (tuple_from_url_rejects simple_urlparse decimal
                    "https://admin:pw@example.com:8443/"
                    {| scheme := "https"; netloc := "admin:pw@example.com:8443";
                       path := "/"; params := ""; query := ""; fragment := "" |}
                    eq_refl)).
    + right. reflexivity.
    + cbn. lia.
Defined.

(** A class that allows no insecure connection, built from an [http]
    URL with [secure] left at its default: the connection is insecure. *)
Lemma Connection_init_url_witness :
  exists a,
    Connection_init simple_urlparse decimal https_only true None None
      (Some "http://example.com/api") None None None None = Ok a
    /\ EndpointM.host a = "example.com" /\ EndpointM.port a = 80
    /\ EndpointM.secure a = 0 /\ request_path a = "/api".
Proof.
  apply (proj2 (Connection_init_url simple_urlparse decimal https_only true
                  None None (Some "http://example.com/api") None None None
                  None) (or_intror eq_refl) "http://example.com/api"
           "example.com" 80 0 "/api" eq_refl);
    [discriminate | reflexivity].
Defined.

Lemma connect_kwargs_witness :
  let kw := [("host", KStr "example.com"); ("port", KInt 80);
             ("secure", KInt 1)] in
  connect simple_urlparse decimal default_attrs no_optional None None
    (Some "http://example.com/api") [] = Ok kw
  /\ kw_get "secure" kw = Some (KInt (EndpointM.secure default_attrs)).
Proof.
  split; [reflexivity |].
  exact (proj1 (connect_kwargs simple_urlparse decimal default_attrs
                  no_optional None None (Some "http://example.com/api") [] _
                  eq_refl)).
Defined.

End EndpointProps.

(** ** [BaseDriver.__init__] *)

Module DriverProps.
Import PyStr Py EndpointM EndpointProps DriverM.
Local Open Scope Z_scope.

Lemma kw_get_del k k' d :
  k <> k' -> kw_get k (kw_del k' d) = kw_get k d.
Proof.
  intros N. induction d as [|[k0 v0] d IH]; cbn [kw_del kw_get]; [reflexivity |].
  destruct (String.eqb k0 k') eqn:E0.
  - apply String.eqb_eq in E0. subst k0.
    apply String.eqb_neq in N. rewrite String.eqb_sym in N. now rewrite N.
  - cbn [kw_get]. now rewrite IH.
Qed.

Lemma kw_get_del_same k d : kw_get k (kw_del k d) = None.
Proof.
  induction d as [|[k0 v0] d IH]; cbn [kw_del kw_get]; [reflexivity |].
  destruct (String.eqb k0 k) eqn:E; [exact IH |].
  cbn [kw_get]. now rewrite E.
Qed.

Lemma pop_host ex a b c d :
  kw_pop "host"
    (kw_set "proxy_url" a
       (kw_set "backoff" b (kw_set "retry_delay" c (kw_set "timeout" d ex))))
  = kw_pop "host" ex.
Proof. unfold kw_pop. now rewrite !kw_get_set. Qed.

(** X9. The keyword arguments of the connection: the four that
    [BaseDriver.__init__] takes from its own keyword arguments are always
    passed, as given by the caller or as [None], and replace what
    [_ex_connection_class_kwargs] returned under these names; the other
    entries of [_ex_connection_class_kwargs] are passed on, except [host],
    which is never among the keyword arguments: it is passed by position
    when it is true and dropped otherwise. *)
Theorem driver_connection_kwargs ex key secret secure host port kwargs :
  let kw := snd (connection_call ex key secret secure host port kwargs) in
  Forall (fun k => kw_get k kw = Some (kw_pop k kwargs))
    ["timeout"; "retry_delay"; "backoff"; "proxy_url"]
  /\ kw_get "host" kw = None
  /\ (forall k,
        ~ In k ["timeout"; "retry_delay"; "backoff"; "proxy_url"; "host"] ->
        kw_get k kw = kw_get k ex)
  /\ (forall v, kw_get "host" ex = Some v -> kw_truthy v = true ->
        exists pre post,
          fst (connection_call ex key secret secure host port kwargs)
          = pre ++ v :: post
          /\ pre = [KStr key]
                   ++ match secret with Some s => [KStr s] | None => [] end
                   ++ [KBool secure]).
Proof.
  unfold connection_call. cbn [snd fst]. split; [| split; [| split]].
  - repeat constructor; rewrite kw_get_del by discriminate;
      rewrite ?kw_get_set; reflexivity.
  - apply kw_get_del_same.
  - intros k N. cbn [In] in N.
    assert (Q : forall lit,
              In lit ["timeout"; "retry_delay"; "backoff"; "proxy_url"; "host"] ->
              String.eqb lit k = false).
    { intros lit I. apply String.eqb_neq. intros <-. exact (N I). }
    rewrite kw_get_del by (intros ->; apply N; tauto).
    rewrite !kw_get_set, !Q by (cbn [In]; tauto). reflexivity.
  - intros v G T. rewrite !pop_host. unfold kw_pop. rewrite G, T.
    exists ([KStr key] ++ match secret with Some s => [KStr s] | None => [] end
              ++ [KBool secure]),
           (match port with Some p => [KInt p] | None => [] end).
    split; [| reflexivity].
    destruct v; try discriminate; destruct secret, port; reflexivity.
Qed.

(** X10. The positional arguments meet the parameters of [ConnectionKey], the
    default connection class, as follows (no host among the keyword
    arguments of the class).  Without a secret and with a host, each
    value reaches the parameter of its name.  Without a secret and
    without a host, a port is taken for the host.  With a secret, the
    secret is taken for [secure], and [secure] for the host. *)
Theorem driver_positional_binding ex key secret secure host port kwargs :
  kw_get "host" ex = None ->
  let args := fst (connection_call ex key secret secure host port kwargs) in
  (secret = None -> forall h, host = Some h ->
     bind_positional ConnectionKey_params args
     = Some ([("key", KStr key); ("secure", KBool secure); ("host", KStr h)]
               ++ match port with Some p => [("port", KInt p)] | None => [] end))
  /\ (secret = None -> host = None -> forall p, port = Some p ->
      bind_positional ConnectionKey_params args
      = Some [("key", KStr key); ("secure", KBool secure); ("host", KInt p)])
  /\ (forall s, secret = Some s ->
      exists rest,
        bind_positional ConnectionKey_params args
        = Some ([("key", KStr key); ("secure", KStr s);
                 ("host", KBool secure)] ++ rest)
        /\ bind_positional ConnectionUserAndKey_params args
           = Some ([("user_id", KStr key); ("key", KStr s);
                    ("secure", KBool secure)]
                     ++ match host with
                        | Some h => [("host", KStr h)]
                        | None => []
                        end
                     ++ match port with
                        | Some p => [(match host with
                                      | Some _ => "port"
                                      | None => "host"
                                      end, KInt p)]
                        | None => []
                        end)).
Proof.
  intros G. unfold connection_call. cbn [fst].
  rewrite !pop_host. unfold kw_pop. rewrite G. cbn [kw_truthy].
  split; [| split].
  - intros -> h ->. destruct port; reflexivity.
  - intros -> -> p ->. reflexivity.
  - intros s ->. destruct host as [h|], port as [p|]; eexists; split; reflexivity.
Qed.

Lemma driver_positional_binding_witness :
  bind_positional ConnectionKey_params
    (fst (connection_call [] "api-key" None true None (Some 8080) []))
  = Some [("key", KStr "api-key"); ("secure", KBool true);
          ("host", KInt 8080)].
Proof.
  exact (proj1 (proj2 (driver_positional_binding [] "api-key" None true None
                         (Some 8080) [] eq_refl)) eq_refl eq_refl 8080 eq_refl).
Defined.

End DriverProps.

(** ** The body of a response *)

Module ResponseBodyProps.
Import PyStr Py ResponseM ConnectionToolsM.
Local Open Scope py_scope.
Local Open Scope Z_scope.

Lemma lstrip_ws_blank t : blank t = true -> lstrip_ws t = "".
Proof.
  induction t as [|c r IH]; cbn [blank lstrip_ws]; [reflexivity |].
  intros B. apply andb_true_iff in B as [Sc Br]. rewrite Sc. auto.
Qed.

Lemma strip_blank t : blank t = true -> strip t = "".
Proof. intros B. unfold strip. now rewrite lstrip_ws_blank. Qed.

(** A text that starts with no white space is left as it is, and what
    is left after the white space on the left is removed starts with
    none. *)
Lemma lstrip_ws_fixed s : leading s = false -> lstrip_ws s = s.
Proof.
  destruct s as [|c [|d [|e r]]]; cbn [leading lstrip_ws];
    try reflexivity; destruct (is_space c); try discriminate;
    try reflexivity; destruct (is_space2 c d); try discriminate;
    try reflexivity; destruct (is_space3 c d e); try discriminate;
    reflexivity.
Qed.

Lemma lstrip_ws_leading s : leading (lstrip_ws s) = false.
Proof.
  assert (G : forall n t, (String.length t <= n)%nat ->
                          leading (lstrip_ws t) = false).
  { induction n as [|n IH]; intros t L.
    - destruct t; [reflexivity | cbn in L; lia].
    - destruct t as [|c r]; [reflexivity |]. cbn [String.length] in L.
      cbn [lstrip_ws]. destruct (is_space c) eqn:S1; [apply IH; lia |].
      destruct r as [|d r2]; [cbn [leading]; now rewrite S1 |].
      cbn [String.length] in L.
      destruct (is_space2 c d) eqn:S2; [apply IH; lia |].
      destruct r2 as [|e r3]; [cbn [leading]; now rewrite S1, S2 |].
      cbn [String.length] in L.
      destruct (is_space3 c d e) eqn:S3; [apply IH; lia |].
      cbn [leading]. now rewrite S1, S2, S3. }
  exact (G _ s (le_n _)).
Qed.

Lemma leading_app y z : leading y = true -> leading (y +:+ z) = true.
Proof.
  destruct y as [|c [|d [|e r]]]; cbn [leading String.append];
    try discriminate; intros H.
  - rewrite orb_false_r in H. now rewrite H.
  - rewrite orb_false_r in H. apply orb_true_iff in H as [-> | H];
      [reflexivity |].
    rewrite H. destruct z; cbn; now rewrite ?orb_true_r.
  - exact H.
Qed.

Lemma rstrip_ws_prefix s : exists z, s = rstrip_ws s +:+ z.
Proof.
  induction s as [|c r [z IH]]; [now exists "" |].
  cbn [rstrip_ws]. cbv zeta. destruct (white (String c (rstrip_ws r))).
  - now exists (String c r).
  - exists z. cbn [String.append]. now rewrite <- IH.
Qed.

Lemma rstrip_ws_idem s : rstrip_ws (rstrip_ws s) = rstrip_ws s.
Proof.
  induction s as [|c r IH]; cbn [rstrip_ws]; [reflexivity |]. cbv zeta.
  destruct (white (String c (rstrip_ws r))) eqn:E; [reflexivity |].
  cbn [rstrip_ws]. cbv zeta. now rewrite IH, E.
Qed.

Lemma strip_fixed s :
  lstrip_ws (strip s) = strip s /\ rstrip_ws (strip s) = strip s
  /\ strip (strip s) = strip s.
Proof.
  assert (L : lstrip_ws (strip s) = strip s).
  { apply lstrip_ws_fixed. unfold strip.
    destruct (leading (rstrip_ws (lstrip_ws s))) eqn:E; [| reflexivity].
    destruct (rstrip_ws_prefix (lstrip_ws s)) as [z Z].
    apply (leading_app _ z) in E. rewrite <- Z, lstrip_ws_leading in E.
    discriminate. }
  assert (R : rstrip_ws (strip s) = strip s) by apply rstrip_ws_idem.
  split; [exact L |]. split; [exact R |].
  unfold strip at 1. now rewrite L, R.
Qed.

Section BodyFacts.
Variable json_loads : string -> option json.
Variable xml_parse : parser_call -> xml_outcome.
Variable lowercase_keys : Dict -> Dict.
Variable exception_from_message : Z -> body_obj -> Dict -> exn.

#[local] Abbreviation Response_init :=
  (Response_init json_loads xml_parse lowercase_keys exception_from_message).

(** X11. A response without text, or whose text is white space only, has the
    empty body; unless the class parses empty bodies no format parser is
    called, for any of the three classes: a success status gives the empty
    string as the parsed object, an error status the mapped error with the
    empty string as its message. *)
Theorem blank_body_not_parsed cls response log :
  match text response with
  | Some t => blank t = true
  | None => True
  end ->
  parse_zero_length_body cls = false ->
  Response_init cls response log
  = (if success (status_code response)
     then Ok {| headers := lowercase_keys (resp_headers response);
                error := reason response;
                status := status_code response;
                body := ""; object := BStr "" |}
     else Raise (exception_from_message (status_code response) (BStr "")
                   (lowercase_keys (resp_headers response))),
     log).
Proof.
  intros B Z. unfold ResponseM.Response_init.
  assert (E : match text response with
              | Some t => strip t
              | None => ""
              end = "").
  { destruct (text response) as [t|]; [now apply strip_blank | reflexivity]. }
  rewrite E.
  unfold parse_error, parse_body, Response_parse_body,
    JsonResponse_parse_body, XmlResponse_parse_body.
  rewrite Z. cbn [String.length Nat.eqb negb andb].
  destruct (success (status_code response)); cbn [negb];
    destruct (kind cls); reflexivity.
Qed.

(** X12. The body of a response that was built has no white space at either
    end: stripping it again changes nothing; for the base class the
    parsed object is that body and no parser was called. *)
Theorem Response_body_stripped cls response log r log' :
  Response_init cls response log = (Ok r, log') ->
  lstrip_ws (body r) = body r /\ rstrip_ws (body r) = body r
  /\ strip (body r) = body r
  /\ (kind cls = BaseResponse -> object r = BStr (body r) /\ log' = log).
Proof.
  unfold ResponseM.Response_init.
  set (b := match text response with Some t => strip t | None => "" end).
  assert (F : lstrip_ws b = b /\ rstrip_ws b = b /\ strip b = b).
  { subst b. destruct (text response) as [t|]; [apply strip_fixed |].
    repeat split. }
  destruct (success (status_code response)); cbn [negb].
  - unfold bind. destruct (parse_body _ _ _ _ _) as [[o|e] lg] eqn:P;
      [| discriminate].
    intros [= <- <-]. cbn [body object].
    destruct F as [F1 [F2 F3]].
    split; [exact F1 |]. split; [exact F2 |]. split; [exact F3 |].
    intros K. unfold parse_body in P. rewrite K in P.
    injection P as <- <-. split; reflexivity.
  - unfold bind. destruct (parse_error _ _ _ _ _) as [[o|e] lg];
      discriminate.
Qed.

(** X13. [JsonResponse] with a body to parse: [json.loads] is called exactly
    once, on the stripped text, whatever the status.  A text that is not
    JSON raises [MalformedResponseError], also under a success status;
    otherwise a success status gives the parsed document as the object
    and an error status the mapped error with the parsed document as its
    message. *)
Theorem JsonResponse_parsed_once cls response log :
  kind cls = JsonResponse ->
  match text response with
  | Some t => strip t <> ""
  | None => False
  end \/ parse_zero_length_body cls = true ->
  Response_init cls response log
  = (match json_loads match text response with
                      | Some t => strip t
                      | None => ""
                      end with
     | None =>
         Raise (MalformedResponseError "Failed to parse JSON"
                  match text response with Some t => strip t | None => "" end)
     | Some j =>
         if success (status_code response)
         then Ok {| headers := lowercase_keys (resp_headers response);
                    error := reason response;
                    status := status_code response;
                    body := match text response with
                            | Some t => strip t
                            | None => ""
                            end;
                    object := BJson j |}
         else Raise (exception_from_message (status_code response) (BJson j)
                       (lowercase_keys (resp_headers response)))
     end,
     log ++ [JsonLoads match text response with
                       | Some t => strip t
                       | None => ""
                       end]).
Proof.
  intros K N. unfold ResponseM.Response_init.
  set (b := match text response with Some t => strip t | None => "" end).
  assert (G : (String.length b =? 0)%nat && negb (parse_zero_length_body cls)
              = false).
  { destruct N as [N | ->]; [| apply andb_false_r].
    subst b. destruct (text response) as [t|]; [| contradiction].
    destruct (strip t); [congruence | reflexivity]. }
  unfold parse_error, parse_body, JsonResponse_parse_body. rewrite K, G.
  unfold bind, log_call, modify.
  destruct (success (status_code response)); cbn [negb];
    destruct (json_loads b); reflexivity.
Qed.

End BodyFacts.

Lemma blank_body_not_parsed_witness :
  Response_init literal_json no_xml same_keys HTTPError
    {| kind := JsonResponse; parse_zero_length_body := false |}
    {| status_code := 200; reason := "OK"; resp_headers := [];
       text := Some (String (ascii_of_nat 10) "  "); content := "" |} []
  = (Ok {| headers := []; error := "OK"; status := 200; body := "";
           object := BStr "" |}, []).
Proof.
  exact (blank_body_not_parsed literal_json no_xml same_keys HTTPError
           {| kind := JsonResponse; parse_zero_length_body := false |}
           {| status_code := 200; reason := "OK"; resp_headers := [];
              text := Some (String (ascii_of_nat 10) "  "); content := "" |}
           [] eq_refl eq_refl).
Defined.

Lemma Response_body_stripped_witness :
  strip " done " = "done"
  /\ rstrip_ws "done" = "done" /\ lstrip_ws "done" = "done".
Proof.
  split; [reflexivity |].
  destruct (Response_body_stripped literal_json no_xml same_keys HTTPError
              {| kind := BaseResponse; parse_zero_length_body := false |}
              {| status_code := 200; reason := "OK"; resp_headers := [];
                 text := Some " done "; content := " done " |} []
              {| headers := []; error := "OK"; status := 200; body := "done";
                 object := BStr "done" |} [] eq_refl) as [L [R _]].
  split; [exact R | exact L].
Defined.

Lemma JsonResponse_parsed_once_witness :
  Response_init literal_json no_xml same_keys HTTPError
    {| kind := JsonResponse; parse_zero_length_body := false |}
    {| status_code := 200; reason := "OK"; resp_headers := [];
       text := Some "<html>"; content := "<html>" |} []
  = (Raise (MalformedResponseError "Failed to parse JSON" "<html>"),
     [JsonLoads "<html>"]).
Proof.
  assert (N : strip "<html>" <> "") by (vm_compute; discriminate).
  rewrite (JsonResponse_parsed_once literal_json no_xml same_keys HTTPError
             {| kind := JsonResponse; parse_zero_length_body := false |}
             {| status_code := 200; reason := "OK"; resp_headers := [];
                text := Some "<html>"; content := "<html>" |} [] eq_refl
             (or_introl N)).
  vm_compute. reflexivity.
Defined.

End ResponseBodyProps.

(** ** [Connection.request]: headers, cache busting, user agent, context *)

Module RequestProps.
Import PyStr PyStrFacts Py Urllib UrlEncode Morph ResponseM RawResponseM.
Import ConnectionM ConnectionProps ConnectionToolsM.
Local Open Scope py_scope.
Local Open Scope Z_scope.

Lemma dict_get_set k k' v d :
  dict_get k (dict_set k' v d) = if String.eqb k' k then Some v else dict_get k d.
Proof.
  induction d as [|[k0 v0] d IH]; cbn [dict_set dict_get].
  - destruct (String.eqb k' k); reflexivity.
  - destruct (String.eqb k0 k') eqn:E0; cbn [dict_get].
    + apply String.eqb_eq in E0. subst k0.
      destruct (String.eqb k' k); reflexivity.
    + destruct (String.eqb k0 k) eqn:E1; [| exact IH].
      apply String.eqb_eq in E1. subst k0.
      rewrite String.eqb_sym in E0. now rewrite E0.
Qed.

Lemma alloc_result o w l w' :
  alloc o w = (Ok l, w') ->
  heap w' !! l = Some o /\ heap w !! l = None /\ conn w' = conn w
  /\ forall k, k <> l -> heap w' !! k = heap w !! k.
Proof.
  intros [= <- <-]. cbn. split; [apply lookup_insert_eq |].
  split; [apply not_elem_of_dom, is_fresh |]. split; [reflexivity |].
  intros k Hk. now apply lookup_insert_ne.
Qed.

(** A new object for an optional mapping: a copy, or an empty
    dictionary. *)
Lemma fresh_mapping (arg : option loc) w l w' o :
  match arg with
  | Some l0 => copy l0
  | None => alloc (ODict [])
  end w = (Ok l, w') ->
  match arg with
  | Some l0 => heap w !! l0 = Some o
  | None => o = ODict []
  end ->
  heap w' !! l = Some o /\ heap w !! l = None /\ conn w' = conn w
  /\ forall k, k <> l -> heap w' !! k = heap w !! k.
Proof.
  destruct arg as [l0|]; intros E L.
  - unfold copy, bind, load in E. rewrite L in E. now apply alloc_result.
  - subst o. now apply alloc_result.
Qed.

Lemma update_result l d w d0 :
  heap w !! l = Some (ODict d0) ->
  exists w', update l d w = (Ok tt, w')
    /\ heap w' !! l = Some (ODict (dict_update d0 d))
    /\ conn w' = conn w
    /\ forall k, k <> l -> heap w' !! k = heap w !! k.
Proof.
  intros L. unfold update, bind, load, store, modify. rewrite L.
  eexists. split; [reflexivity |]. cbn.
  split; [apply lookup_insert_eq |]. split; [reflexivity |].
  intros k N. now apply lookup_insert_ne.
Qed.

Lemma cache_busting_result g l w o :
  heap w !! l = Some o ->
  exists w', _add_cache_busting_to_params g l w = (Ok l, w')
    /\ heap w' !! l = Some (with_cache_busting g o)
    /\ conn w' = conn w
    /\ forall k, k <> l -> heap w' !! k = heap w !! k.
Proof.
  intros L. unfold _add_cache_busting_to_params, bind, load, store, modify, ret.
  rewrite L. destruct o; cbn; eexists; (split; [reflexivity |]); cbn;
    (split; [apply lookup_insert_eq |]); (split; [reflexivity |]);
    intros k N; now apply lookup_insert_ne.
Qed.

(** [request] of [Connection] itself, up to the hand-over: the URL, the
    headers and the body that reach the transport. *)
Lemma prepare_base g act params data headers method raw stream w args w1 p0 o0 :
  prepare (hooks := BaseHooks) g act params data headers method raw stream w
  = (Ok args, w1) ->
  match params with
  | Some lp => heap w !! lp = Some p0
  | None => p0 = ODict []
  end ->
  match headers with
  | Some lh => heap w !! lh = Some o0
  | None => o0 = ODict []
  end ->
  exists a h0,
    o0 = ODict h0
    /\ morph_action_hook (urljoin_other g) (ALLOW_PATH_DOUBLE_SLASHES g)
         (request_path (conn w)) act
       = Ok a
    /\ a_url args
       = build_url a (if cache_busting (conn w) && String.eqb method "GET"
                      then with_cache_busting g p0 else p0)
    /\ heap w !! a_headers args = None
    /\ heap w1 !! a_headers args
       = Some (ODict (dict_update h0 (own_headers g (conn w))))
    /\ a_data args = data.
Proof.
  intros H LP LH. unfold prepare in H.
  apply bind_ok in H as [l1 [wa [E1 H]]].
  destruct (fresh_mapping _ _ _ _ _ E1 LP) as [L1 [N1 [C1 K1]]].
  apply bind_ok in H as [l2 [wb [E2 H]]].
  assert (LH' : match headers with
                | Some lh => heap wa !! lh = Some o0
                | None => o0 = ODict []
                end).
  { destruct headers as [lh|]; [| exact LH]. rewrite K1; [exact LH |].
    intros ->. rewrite N1 in LH. discriminate. }
  destruct (fresh_mapping _ _ _ _ _ E2 LH') as [L2 [N2 [C2 K2]]].
  assert (D : l1 <> l2) by (intros <-; rewrite L1 in N2; discriminate).
  assert (L1b : heap wb !! l1 = Some p0) by (rewrite K2; auto).
  assert (N2w : heap w !! l2 = None) by (rewrite <- K1; auto).
  apply bind_ok in H as [wc [wd [E3 H]]]. injection E3 as <- <-.
  apply bind_ok in H as [a [we [E4 H]]].
  assert (M : morph_action_hook (urljoin_other g) (ALLOW_PATH_DOUBLE_SLASHES g)
                (request_path (conn w)) act = Ok a
              /\ we = wb).
  { rewrite <- C1, <- C2. now injection E4 as -> <-. }
  destruct M as [M ->].
  apply bind_ok in H as [u1 [wf [E5 H]]]. injection E5 as _ <-.
  apply bind_ok in H as [l1' [wg [E6 H]]]. injection E6 as <- <-.
  apply bind_ok in H as [wh [wi [E7 H]]]. injection E7 as <- <-.
  match type of H with (_ ?X = _) => remember X as ws eqn:Ws end.
  assert (Hs : heap ws = heap wb
               /\ cache_busting (conn ws) = cache_busting (conn w)
               /\ ua (conn ws) = ua (conn w) /\ driver (conn ws) = driver (conn w)
               /\ host (conn ws) = host (conn w) /\ port (conn ws) = port (conn w)).
  { subst ws. cbn. rewrite C2, C1. auto 10. }
  clear Ws. destruct Hs as [Hp [Cb Q]].
  rewrite Cb in H.
  apply bind_ok in H as [l1' [wj [E8 H]]].
  set (p1 := if cache_busting (conn w) && String.eqb method "GET"
             then with_cache_busting g p0 else p0).
  assert (B : l1' = l1 /\ heap wj !! l1 = Some p1
              /\ heap wj !! l2 = Some o0
              /\ ua (conn wj) = ua (conn w) /\ driver (conn wj) = driver (conn w)
              /\ host (conn wj) = host (conn w) /\ port (conn wj) = port (conn w)).
  { subst p1. destruct (cache_busting (conn w) && String.eqb method "GET").
    - destruct (cache_busting_result g l1 ws p0) as [w' [R [G1 [G2 G3]]]];
        [now rewrite Hp |].
      unfold loc in *. rewrite R in E8. injection E8 as <- <-.
      split; [reflexivity |]. split; [exact G1 |].
      split; [rewrite G3, Hp by auto; exact L2 |].
      rewrite G2. exact Q.
    - injection E8 as <- <-. rewrite Hp. auto. }
  clear Q. destruct B as [-> [P1 [H2 [Ua [Dr [Ho Po]]]]]].
  apply bind_ok in H as [l2' [wk [E9 H]]]. injection E9 as <- <-.
  apply bind_ok in H as [wl [wm [E10 H]]]. injection E10 as <- <-.
  assert (UA : _user_agent g (conn wj) = _user_agent g (conn w))
    by (unfold _user_agent; now rewrite Ua, Dr).
  rewrite UA in H.
  apply bind_ok in H as [u2 [wn [E11 H]]].
  assert (Dh : exists h0, o0 = ODict h0).
  { unfold update, bind, load in E11. unfold loc in *. rewrite H2 in E11.
    destruct o0 as [h0|]; [eauto | discriminate]. }
  destruct Dh as [h0 ->]. exists a, h0.
  split; [reflexivity |]. split; [exact M |].
  destruct (update_result l2 [("User-Agent", VStr (_user_agent g (conn w)))]
              wj h0 H2) as [w' [R [G1 [G2 G3]]]].
  unfold loc in *. rewrite R in E11. injection E11 as _ <-. clear R.
  apply bind_ok in H as [u3 [wo [E12 H]]].
  destruct (update_result l2 [("Accept-Encoding", VStr "gzip,deflate")]
              w' _ G1) as [w'' [R [G1' [G2' G3']]]].
  rewrite R in E12. injection E12 as _ <-. clear R.
  apply bind_ok in H as [wp [wq [E13 H]]]. injection E13 as <- <-.
  cbv zeta in H.
  apply bind_ok in H as [u4 [wr [E14 H]]].
  assert (R : exists w3,
            wr = w3
            /\ heap w3 !! l2
               = Some (ODict (dict_update h0 (own_headers g (conn w))))
            /\ conn w3 = conn w'' 
            /\ forall k, k <> l2 -> heap w3 !! k = heap w'' !! k).
  { unfold own_headers, host_header. rewrite <- Po, <- Ho, <- G2, <- G2'.
    destruct (negb (existsb (Z.eqb (port (conn w''))) [80; 443])).
    - destruct (update_result l2
                  [("Host", VStr (host (conn w'') +:+ ":"
                                  +:+ str_of_Z (port (conn w''))))]
                  w'' _ G1') as [w3 [R [A1 [A2 A3]]]].
      rewrite R in E14. injection E14 as _ <-. exists w3. auto.
    - destruct (update_result l2 [("Host", VStr (host (conn w'')))]
                  w'' _ G1') as [w3 [R [A1 [A2 A3]]]].
      rewrite R in E14. injection E14 as _ <-. exists w3. auto. }
  destruct R as [w3 [-> [A1 [A2 A3]]]].
  apply bind_ok in H as [d' [ws' [E15 H]]].
  assert (W15 : ws' = w3 /\ d' = data).
  { destruct data as [d|]; [destruct (truthy d) |]; now injection E15 as <- <-. }
  destruct W15 as [-> ->].
  apply bind_ok in H as [ph [wt [E16 H]]]. injection E16 as <- <-.
  apply bind_ok in H as [o [wu [E17 H]]].
  unfold load in E17. rewrite A3, G3', G3, P1 in E17 by auto.
  injection E17 as <- <-.
  apply bind_ok in H as [wv [ww [E18 H]]]. injection E18 as <- <-.
  apply bind_ok in H as [u5 [wx [E19 H]]].
  injection H as <- <-. cbn [a_url a_headers a_data].
  split; [reflexivity |]. split; [exact N2w |]. split; [| reflexivity].
  destruct (connection (conn w3)); injection E19 as _ <-; exact A1.
Qed.

(** X14. The headers [request] of [Connection] hands to the transport are a
    new dictionary: the caller's entries, with [User-Agent],
    [Accept-Encoding] and [Host] set by the connection whatever the caller
    put under these names; [Host] carries the port unless it is 80 or
    443. *)
Theorem request_own_headers
    g act params data headers method raw stream w args w1 :
  prepare (hooks := BaseHooks) g act params data headers method raw stream w
  = (Ok args, w1) ->
  match headers with
  | Some lh => is_Some (heap w !! lh)
  | None => True
  end ->
  exists h0 h,
    match headers with
    | Some lh => heap w !! lh = Some (ODict h0)
    | None => h0 = []
    end
    /\ heap w !! a_headers args = None
    /\ heap w1 !! a_headers args = Some (ODict h)
    /\ dict_get "User-Agent" h = Some (VStr (_user_agent g (conn w)))
    /\ dict_get "Accept-Encoding" h = Some (VStr "gzip,deflate")
    /\ dict_get "Host" h
       = Some (VStr (if negb (existsb (Z.eqb (port (conn w))) [80; 443])
                     then host (conn w) +:+ ":" +:+ str_of_Z (port (conn w))
                     else host (conn w)))
    /\ forall k, k <> "User-Agent" -> k <> "Accept-Encoding" -> k <> "Host" ->
                 dict_get k h = dict_get k h0.
Proof.
  intros H Hh.
  assert (P : exists p0, match params with
                         | Some lp => heap w !! lp = Some p0
                         | None => p0 = ODict []
                         end).
  { destruct params as [lp|]; [| eauto]. unfold prepare in H.
    apply bind_ok in H as [l1 [wa [E1 _]]]. unfold copy, bind, load in E1.
    destruct (heap w !! lp) as [p0|]; [eauto | discriminate]. }
  destruct P as [p0 LP].
  assert (O : exists o0, match headers with
                         | Some lh => heap w !! lh = Some o0
                         | None => o0 = ODict []
                         end).
  { destruct headers as [lh|]; [destruct Hh as [o0 Hh] |]; eauto. }
  destruct O as [o0 LH].
  destruct (prepare_base _ _ _ _ _ _ _ _ _ _ _ _ _ H LP LH)
    as [a [h0 [-> [_ [_ [N [L _]]]]]]].
  exists h0, (dict_update h0 (own_headers g (conn w))).
  split.
  { destruct headers as [lh|]; [exact LH | now injection LH as ->]. }
  split; [exact N |]. split; [exact L |].
  unfold dict_update, own_headers, host_header. cbn [fold_left fst snd].
  rewrite !dict_get_set. cbn [String.eqb Ascii.eqb Bool.eqb andb].
  repeat split.
  intros k N1 N2 N3. rewrite !dict_get_set.
  apply String.eqb_neq in N1, N2, N3. rewrite String.eqb_sym in N1, N2, N3.
  now rewrite N1, N2, N3.
Qed.

(** X15. Cache busting: when the class asks for it and the method is exactly
    [GET], the parameters that reach the URL are the caller's with the
    [cache-busting] entry set (a dictionary) or appended (a list of
    pairs), so the URL always has a query; for any other method, [get] in
    lower case included, they are the caller's. *)
Theorem request_cache_busting
    g act params data headers method raw stream w args w1 p0 :
  prepare (hooks := BaseHooks) g act params data headers method raw stream w
  = (Ok args, w1) ->
  match params with
  | Some lp => heap w !! lp = Some p0
  | None => p0 = ODict []
  end ->
  match headers with
  | Some lh => is_Some (heap w !! lh)
  | None => True
  end ->
  cache_busting (conn w) = true ->
  exists a,
    morph_action_hook (urljoin_other g) (ALLOW_PATH_DOUBLE_SLASHES g)
      (request_path (conn w)) act
    = Ok a
    /\ (method = "GET" ->
        a_url args
        = a +:+ (if contains "?" a then "&" else "?")
            +:+ urlencode (items (with_cache_busting g p0)))
    /\ (method <> "GET" -> a_url args = build_url a p0).
Proof.
  intros H LP Hh CB.
  assert (O : exists o0, match headers with
                         | Some lh => heap w !! lh = Some o0
                         | None => o0 = ODict []
                         end).
  { destruct headers as [lh|]; [destruct Hh as [o0 Hh] |]; eauto. }
  destruct O as [o0 LH].
  destruct (prepare_base _ _ _ _ _ _ _ _ _ _ _ _ _ H LP LH)
    as [a [h0 [_ [M [U _]]]]].
  exists a. split; [exact M |]. rewrite CB in U. cbn [andb] in U. split.
  - intros ->. cbn [String.eqb Ascii.eqb Bool.eqb andb] in U. rewrite U.
    unfold build_url.
    assert (I : exists kv r, items (with_cache_busting g p0) = kv :: r).
    { destruct p0 as [d|l]; cbn [with_cache_busting items].
      - destruct d as [|[k v] d]; cbn [dict_set]; [eauto |].
        destruct (String.eqb k "cache-busting"); eauto.
      - destruct l; cbn; eauto. }
    destruct I as [kv [r I]]. rewrite I.
    destruct (contains "?" a); reflexivity.
  - intros N. apply String.eqb_neq in N. now rewrite N in U.
Qed.

(** X16. [user_agent_append]: the token is added, in brackets, at the end of
    the user agent string, after a space when other tokens came before;
    nothing else of the string changes. *)
Theorem user_agent_append_extends g token w :
  exists w',
    user_agent_append token w = (Ok tt, w')
    /\ heap w' = heap w
    /\ _user_agent g (conn w')
       = _user_agent g (conn w)
           +:+ (match ua (conn w) with [] => "" | _ :: _ => " " end)
           +:+ "(" +:+ token +:+ ")".
Proof.
  eexists. split; [reflexivity |]. split; [reflexivity |].
  cbn [conn set_conn]. unfold _user_agent. cbn [ua driver].
  rewrite map_app. cbn [map].
  assert (J : join " " (map (fun x => "(" +:+ x +:+ ")") (ua (conn w))
                        ++ ["(" +:+ token +:+ ")"])
              = join " " (map (fun x => "(" +:+ x +:+ ")") (ua (conn w)))
                  +:+ (match ua (conn w) with [] => "" | _ :: _ => " " end)
                  +:+ "(" +:+ token +:+ ")").
  { destruct (ua (conn w)) as [|t l]; [reflexivity |].
    rewrite join_snoc by discriminate. reflexivity. }
  rewrite J. destruct (driver (conn w)); now rewrite !append_assoc.
Qed.

(** X17. [set_context] takes a dictionary only, and the connection then
    shares the caller's object; [reset_context] gives the connection a
    new empty dictionary and leaves the caller's object as it is. *)
Theorem context_shared_then_replaced l w :
  (forall x, heap w !! l = Some (OList x) ->
     set_context l w
     = (Raise (OtherError "TypeError: context needs to be a dictionary"), w))
  /\ (forall d, heap w !! l = Some (ODict d) ->
       exists w1 w2,
         set_context l w = (Ok tt, w1)
         /\ context (conn w1) = l /\ heap w1 = heap w
         /\ reset_context w1 = (Ok tt, w2)
         /\ heap w2 !! l = Some (ODict d)
         /\ context (conn w2) <> l
         /\ heap w !! context (conn w2) = None
         /\ context_empty w2
         /\ forall k, is_Some (heap w !! k) -> heap w2 !! k = heap w !! k).
Proof.
  split.
  - intros x L. unfold set_context, bind, load. now rewrite L.
  - intros d L. unfold set_context, bind, load, modify. rewrite L.
    eexists _, _. split; [reflexivity |]. split; [reflexivity |].
    split; [reflexivity |]. split; [reflexivity |].
    cbn [heap set_heap set_conn conn context].
    assert (F : heap w !! fresh (dom (heap w)) = None)
      by apply not_elem_of_dom, is_fresh.
    assert (N : fresh (dom (heap w)) <> l)
      by (intros E; rewrite E, L in F; discriminate).
    split; [rewrite lookup_insert_ne by exact N; exact L |].
    split; [exact N |]. split; [exact F |].
    split; [unfold context_empty; cbn; apply lookup_insert_eq |].
    intros k [o Hk]. apply lookup_insert_ne. intros <-.
    rewrite F in Hk. discriminate.
Qed.

Lemma tagged_prepared_ok :
  tagged_prepared = (Ok tagged_args, snd tagged_prepared).
Proof.
  rewrite (surjective_pairing tagged_prepared) at 1.
  apply (f_equal (fun r => (r, snd tagged_prepared))).
  vm_compute. reflexivity.
Qed.

(** The caller names a user agent and a host of its own: both are
    replaced, the [Accept] entry is kept. *)
Lemma request_own_headers_witness :
  exists h0 h,
    heap tagged_world !! 4%positive = Some (ODict h0)
    /\ heap (snd tagged_prepared) !! 6%positive = Some (ODict h)
    /\ dict_get "User-Agent" h0 = Some (VStr "curl/8")
    /\ dict_get "User-Agent" h
       = Some (VStr (_user_agent plain_globals tagged_conn))
    /\ dict_get "Host" h = Some (VStr "api.example.invalid:8080")
    /\ dict_get "Accept" h = dict_get "Accept" h0.
Proof.
  destruct (request_own_headers plain_globals "/servers" (Some 3%positive)
              None (Some 4%positive) "GET" false false tagged_world
              tagged_args (snd tagged_prepared) tagged_prepared_ok)
    as [h0 [h [L0 [_ [L [U [_ [Ho K]]]]]]]].
  { vm_compute. eauto. }
  exists h0, h. split; [exact L0 |]. split; [exact L |].
  split; [| split; [exact U | split; [exact Ho | apply K; discriminate]]].
  vm_compute in L0. injection L0 as <-. reflexivity.
Defined.

Lemma detailed_prepared_ok :
  detailed_prepared = (Ok detailed_args, snd detailed_prepared).
Proof.
  rewrite (surjective_pairing detailed_prepared) at 1.
  apply (f_equal (fun r => (r, snd detailed_prepared))).
  vm_compute. reflexivity.
Qed.

(** An action with a query of its own: the parameters, the caller's
    [cache-busting] entry replaced, follow an ampersand. *)
Lemma request_cache_busting_witness :
  a_url detailed_args
  = "/servers?detail=1" +:+ "&"
      +:+ urlencode
            (items (with_cache_busting plain_globals
                      (ODict [("limit", VStr "10");
                              ("cache-busting", VStr "mine")]))).
Proof.
  destruct (request_cache_busting plain_globals "/servers?detail=1"
              (Some 3%positive) None (Some 4%positive) "GET" false false
              tagged_world detailed_args (snd detailed_prepared)
              (ODict [("limit", VStr "10"); ("cache-busting", VStr "mine")])
              detailed_prepared_ok eq_refl) as [a [M [U _]]].
  - vm_compute. eauto.
  - reflexivity.
  - assert (A : a = "/servers?detail=1")
      by (vm_compute in M; now injection M as <-).
    rewrite (U eq_refl), A. reflexivity.
Defined.

End RequestProps.

(** ** [Connection.request]: the URL *)

Module SeparatorProps.
Import PyStr PyStrFacts Py Urllib UrlEncode Morph ResponseM RawResponseM.
Import ConnectionM ConnectionProps ConnectionToolsM RequestProps.
Local Open Scope py_scope.
Local Open Scope Z_scope.

Lemma bind_bind {S A B C} (m : M S A) (k : A -> M S B) (h : B -> M S C) w :
  bind (bind m k) h w = bind m (fun a => bind (k a) h) w.
Proof. unfold bind. destruct (m w) as [[a|e] w1]; reflexivity. Qed.

Lemma bind_ext_at {S A B} (m : M S A) (k k' : A -> M S B) w :
  (forall a w1, k a w1 = k' a w1) -> bind m k w = bind m k' w.
Proof. intros H. unfold bind. destruct (m w) as [[a|e] w1]; auto. Qed.

(** [prepare] is its two parts, one after the other. *)
Lemma prepare_split {hooks : Hooks} g act params data headers method raw
    stream w :
  prepare g act params data headers method raw stream w
  = (x <- run_hooks g act params data headers method ;;
     let '(a, lp, lh, d) := x in
     hand_over a lp lh d method raw stream) w.
Proof.
  unfold prepare, run_hooks.
  repeat (rewrite bind_bind; apply bind_ext_at; intros ? ?; cbv zeta).
  match goal with |- (let (_, _) := ?ph in _) _ = _ => destruct ph end.
  reflexivity.
Qed.

(** The action the hooks hand back is the normalized one. *)
Lemma run_hooks_action {hooks : Hooks} g act params data headers method
    w a lp lh d w0 :
  run_hooks g act params data headers method w = (Ok (a, lp, lh, d), w0) ->
  morph_action_hook (urljoin_other g) (ALLOW_PATH_DOUBLE_SLASHES g)
    (request_path (conn w)) act = Ok a.
Proof.
  intros H. unfold run_hooks in H.
  apply bind_ok in H as [l1 [wa [E1 H]]].
  apply bind_ok in H as [l2 [wb [E2 H]]].
  apply bind_ok in H as [wc [wd [E3 H]]].
  apply bind_ok in H as [a' [we [E4 H]]].
  assert (Ca : conn wa = conn w)
    by (destruct params; [eapply copy_conn | eapply alloc_conn]; exact E1).
  assert (Cb : conn wb = conn wa)
    by (destruct headers; [eapply copy_conn | eapply alloc_conn]; exact E2).
  injection E3 as <- <-. rewrite Cb, Ca in E4. injection E4 as E4 _.
  rewrite E4. f_equal.
  repeat (apply bind_ok in H as [? [? [_ H]]]; cbv zeta in H).
  match type of H with
  | (let (_, _) := ?ph in _) _ = _ => destruct ph
  end.
  now injection H as <- _ _ _ _.
Qed.

(** C8 (as the code has it).  The URL is built from the normalized action
    [a] and from the parameters [p] as they are once the hooks have run:
    with at least one parameter, the action, one separator and the
    encoded query, the separator being [?] (the only one of the URL) when
    the action holds none and [&] when it holds one; with no parameter,
    the action unchanged.  For [Connection]'s own hooks the parameters
    are the caller's (none when [params] is [None]), to which a [GET] on
    a connection with [cache_busting] adds the [cache-busting] entry. *)
Theorem request_url_separator g act params data headers method raw stream w :
  (forall (hooks : Hooks) a lp lh d w0 p,
     run_hooks g act params data headers method w = (Ok (a, lp, lh, d), w0) ->
     heap w0 !! lp = Some p ->
     exists url w1,
       prepare g act params data headers method raw stream w
       = (Ok {| a_url := url; a_method := method; a_raw := raw;
                a_stream := stream; a_headers := lh; a_data := d |}, w1)
       /\ morph_action_hook (urljoin_other g) (ALLOW_PATH_DOUBLE_SLASHES g)
            (request_path (conn w)) act = Ok a
       /\ (has_items p = true -> contains qmark a = false ->
             url = a +:+ "?" +:+ urlencode (items p)
             /\ count qmark url = 1%nat)
       /\ (has_items p = true -> contains qmark a = true ->
             url = a +:+ "&" +:+ urlencode (items p))
       /\ (has_items p = false -> url = a))
  /\ (forall args w1 p0,
        prepare (hooks := BaseHooks) g act params data headers method raw
          stream w = (Ok args, w1) ->
        match params with
        | Some lp => heap w !! lp = Some p0
        | None => p0 = ODict []
        end ->
        match headers with
        | Some lh => is_Some (heap w !! lh)
        | None => True
        end ->
        let p := if cache_busting (conn w) && String.eqb method "GET"
                 then with_cache_busting g p0 else p0 in
        exists a,
          morph_action_hook (urljoin_other g) (ALLOW_PATH_DOUBLE_SLASHES g)
            (request_path (conn w)) act = Ok a
          /\ (has_items p = true -> contains qmark a = false ->
                a_url args = a +:+ "?" +:+ urlencode (items p)
                /\ count qmark (a_url args) = 1%nat)
          /\ (has_items p = true -> contains qmark a = true ->
                a_url args = a +:+ "&" +:+ urlencode (items p))
          /\ (has_items p = false -> a_url args = a)).
Proof.
  split.
  - intros hooks a lp lh d w0 p R L.
    exists (build_url a p).
    rewrite prepare_split. rewrite (bind_run _ _ _ _ _ R).
    unfold hand_over, bind at 1, load. rewrite L. unfold bind, get, ret.
    destruct (connection (conn w0)); cbn; eexists;
      (split; [reflexivity |]);
      (split; [exact (run_hooks_action _ _ _ _ _ _ _ _ _ _ _ _ R) |]);
      apply build_url_separator.
  - intros args w1 p0 H LP Hh p.
    assert (O : exists o0, match headers with
                           | Some lh => heap w !! lh = Some o0
                           | None => o0 = ODict []
                           end).
    { destruct headers as [lh|]; [destruct Hh as [o0 Hh] |]; eauto. }
    destruct O as [o0 LH].
    destruct (prepare_base _ _ _ _ _ _ _ _ _ _ _ _ _ H LP LH)
      as [a [h0 [_ [M [U _]]]]].
    exists a. split; [exact M |]. fold p in U. rewrite U.
    apply build_url_separator.
Qed.

(** C8 as stated fails: the caller passes an empty dictionary, the
    connection asks for cache busting and the method is [GET]; the URL is
    not the action but the action with a query. *)
Lemma cache_busting_extends_empty_params :
  ~ (forall g act lp method w args w1,
       heap w !! lp = Some (ODict []) ->
       prepare (hooks := BaseHooks) g act (Some lp) None None method false
         false w = (Ok args, w1) ->
       morph_action_hook (urljoin_other g) (ALLOW_PATH_DOUBLE_SLASHES g)
         (request_path (conn w)) act = Ok (a_url args)).
Proof.
  intros C.
  specialize (C plain_globals "/servers" 5%positive "GET" bare_world
                _ _ eq_refl (surjective_pairing _)).
  vm_compute in C. discriminate.
Qed.

Lemma sample_hooked_ok action a :
  fst (sample_hooked action) = Ok (a, 5%positive, 6%positive, None) ->
  sample_hooked action
  = (Ok (a, 5%positive, 6%positive, None), snd (sample_hooked action)).
Proof. intros <-. apply surjective_pairing. Qed.

(** C8 at two concrete calls with one parameter, under the prefix [/api]:
    [/servers], and an action that has a query of its own. *)
Lemma request_url_separator_witness :
  (exists w1,
     prepare (hooks := BaseHooks) plain_globals "/servers" (Some 3%positive)
       None (Some 4%positive) "GET" false false sample_world
     = (Ok {| a_url := "/api/servers?limit=10"; a_method := "GET";
              a_raw := false; a_stream := false; a_headers := 6%positive;
              a_data := None |}, w1))
  /\ (exists w1,
        prepare (hooks := BaseHooks) plain_globals "/servers?detail=1"
          (Some 3%positive) None (Some 4%positive) "GET" false false
          sample_world
        = (Ok {| a_url := "/api/servers?detail=1&limit=10";
                 a_method := "GET"; a_raw := false; a_stream := false;
                 a_headers := 6%positive; a_data := None |}, w1)).
Proof.
  split.
  - destruct (proj1 (request_url_separator plain_globals "/servers"
                       (Some 3%positive) None (Some 4%positive) "GET" false
                       false sample_world)
                BaseHooks "/api/servers" 5%positive 6%positive None
                (snd (sample_hooked "/servers"))
                (ODict [("limit", VStr "10")])
                (sample_hooked_ok "/servers" "/api/servers" eq_refl) eq_refl)
      as [url [w1 [P [_ [Q _]]]]].
    destruct (Q eq_refl eq_refl) as [U _]. rewrite U in P.
    exists w1. exact P.
  - destruct (proj1 (request_url_separator plain_globals "/servers?detail=1"
                       (Some 3%positive) None (Some 4%positive) "GET" false
                       false sample_world)
                BaseHooks "/api/servers?detail=1" 5%positive 6%positive None
                (snd (sample_hooked "/servers?detail=1"))
                (ODict [("limit", VStr "10")])
                (sample_hooked_ok "/servers?detail=1" "/api/servers?detail=1"
                   eq_refl) eq_refl)
      as [url [w1 [P [_ [_ [A _]]]]]].
    rewrite (A eq_refl eq_refl) in P.
    exists w1. exact P.
Defined.

End SeparatorProps.

(** ** [_retryable_request]: failures and answers of the transport *)

Module TransportProps.
Import PyStr PyStrFacts Py Urllib UrlEncode Morph ResponseM RawResponseM.
Import ConnectionM ConnectionProps ConnectionToolsM.
Local Open Scope py_scope.
Local Open Scope Z_scope.

Section TransportFacts.
Variable json_loads : string -> option json.
Variable xml_parse : parser_call -> xml_outcome.
Variable lowercase_keys : Dict -> Dict.
Variable exception_from_message : Z -> body_obj -> Dict -> exn.
Variable transport : nat -> Exchange -> wire_outcome.

#[local] Abbreviation _retryable_request :=
  (_retryable_request json_loads xml_parse lowercase_keys
     exception_from_message transport).
#[local] Abbreviation Response_init :=
  (Response_init json_loads xml_parse lowercase_keys exception_from_message).

(** The first [try] of [_retryable_request] on an established
    connection. *)
Lemma transport_call_run args w h :
  connection (conn w) = true -> heap w !! a_headers args = Some h ->
  transport_call transport args w
  = (match transport (length (sent w)) (exchange_of args h) with
     | Answers r => Ok tt
     | Fails e => Raise e
     end,
     match transport (length (sent w)) (exchange_of args h) with
     | Answers r =>
         set_wire {| current := Some r; fetches := fetches (wire w) |}
           (set_sent (sent w ++ [exchange_of args h]) w)
     | Fails e => set_sent (sent w ++ [exchange_of args h]) w
     end).
Proof.
  intros C L. unfold transport_call, bind, get, load, send, ret.
  rewrite C, L. fold (exchange_of args h).
  destruct (transport _ _); reflexivity.
Qed.

(** X18. A transport failure.  A name-resolution failure number -5 is
    replaced by one whose message names the host.  A TLS failure is
    replaced by a plain [ssl.SSLError] built from its text: the class and
    the [errno] of the transport's exception are not kept, and the text
    of the new one is the [repr] of a tuple.  Any other exception leaves
    as the transport raised it.  The response is never asked for and no
    response object is built; the context is reset for a TLS failure and
    for a name-resolution failure other than number -5; and unless the
    failure is one the [except] clauses name, the connection is left as
    it was. *)
Theorem transport_failure_translated args w h e :
  connection (conn w) = true -> heap w !! a_headers args = Some h ->
  transport (length (sent w)) (exchange_of args h) = Fails e ->
  exists w',
    _retryable_request args w
    = (Raise match e with
             | Gaierror (Some (-5)) message =>
                 Gaierror None (no_address_message message (conn w))
             | SSLError _ _ text => SSLError "SSLError" None (STuple text)
             | _ => e
             end, w')
    /\ sent w' = sent w ++ [exchange_of args h]
    /\ wire w' = wire w
    /\ parser_log w' = parser_log w
    /\ match e with
       | Gaierror (Some (-5)) _ => conn w' = conn w /\ heap w' = heap w
       | Gaierror _ _ | SSLError _ _ _ => context_empty w'
       | _ => conn w' = conn w /\ heap w' = heap w
       end.
Proof.
  intros C L T. unfold ConnectionM._retryable_request.
  unfold bind at 1, try_except. rewrite (transport_call_run args w h C L), T.
  set (ws := set_sent (sent w ++ [exchange_of args h]) w).
  assert (R : forall e',
    exists w',
      (let (r, s') := (reset_context ;;; @raise World unit e') ws in
       match r with
       | Ok _ =>
           (response <- conn_getresponse ;;
            try_finally
              (build_response json_loads xml_parse lowercase_keys
                 exception_from_message (a_raw args) response)
              reset_context) s'
       | Raise e0 => (Raise e0, s')
       end) = (Raise e', w')
      /\ sent w' = sent w ++ [exchange_of args h]
      /\ wire w' = wire w /\ parser_log w' = parser_log w
      /\ context_empty w').
  { intros e'. rewrite reset_then_raise. eexists. split; [reflexivity |].
    split; [reflexivity |]. split; [reflexivity |]. split; [reflexivity |].
    apply reset_context_empty. }
  destruct e as [errno m| c errno t | | | | | | |];
    cbn [transport_error];
    try (eexists; split; [reflexivity |]; cbn; auto; fail).
  - destruct errno as [z|]; [| exact (R (Gaierror None m))].
    destruct z as [|q|q];
      [exact (R (Gaierror (Some 0) m))
      | exact (R (Gaierror (Some (Z.pos q)) m)) |].
    destruct q as [q|q|];
      [| exact (R (Gaierror (Some (Z.neg q~0)) m))
       | exact (R (Gaierror (Some (Z.neg 1)) m))].
    destruct q as [q|q|];
      [exact (R (Gaierror (Some (Z.neg q~1~1)) m)) |
      | exact (R (Gaierror (Some (Z.neg 3)) m))].
    destruct q as [q|q|];
      [exact (R (Gaierror (Some (Z.neg q~1~0~1)) m))
      | exact (R (Gaierror (Some (Z.neg q~0~0~1)) m)) |].
    eexists. split; [reflexivity |]. cbn. auto.
  - exact (R (SSLError "SSLError" None (STuple t))).
Qed.

(** X19. A transport that answers, buffered response: what leaves
    [_retryable_request] is what the constructor of the response class
    makes of the answer, a response or an exception; the answer was asked
    for once; and the context is reset in both cases, with no object of
    the caller touched. *)
Theorem buffered_response_built args w h r :
  connection (conn w) = true -> heap w !! a_headers args = Some h ->
  a_raw args = false ->
  transport (length (sent w)) (exchange_of args h) = Answers r ->
  exists w',
    _retryable_request args w
    = (match fst (Response_init (responseCls (conn w)) r (parser_log w)) with
       | Ok b => Ok (Buffered b)
       | Raise e => Raise e
       end, w')
    /\ parser_log w'
       = snd (Response_init (responseCls (conn w)) r (parser_log w))
    /\ wire w' = {| current := Some r; fetches := S (fetches (wire w)) |}
    /\ sent w' = sent w ++ [exchange_of args h]
    /\ context_empty w'
    /\ forall k, is_Some (heap w !! k) -> heap w' !! k = heap w !! k.
Proof.
  intros C L Rw T. unfold ConnectionM._retryable_request.
  unfold bind at 1, try_except. rewrite (transport_call_run args w h C L), T.
  unfold bind at 1, conn_getresponse. cbn [wire set_wire current fetches].
  rewrite Rw. unfold try_finally, build_response, bind at 1, get.
  unfold bind at 1, zoom. cbn [conn set_wire set_sent parser_log].
  destruct (Response_init _ _ _) as [[b|e] lg]; cbn [fst snd];
    unfold ret, reset_context, bind, alloc, modify;
    (eexists; split; [reflexivity |]); cbn;
    (split; [reflexivity |]); (split; [reflexivity |]);
    (split; [reflexivity |]);
    (split; [unfold context_empty; cbn; apply lookup_insert_eq |]);
    intros k Hk; apply lookup_insert_ne; intros <-;
    apply elem_of_dom in Hk; exact (is_fresh _ Hk).
Qed.

(** X20. A transport that answers, raw response: [_retryable_request] returns
    the response object whatever the status, an error status included;
    with an error status the construction itself asks for the answer a
    second time and keeps it; the context is reset. *)
Theorem raw_response_returned args w h r :
  connection (conn w) = true -> heap w !! a_headers args = Some h ->
  a_raw args = true ->
  transport (length (sent w)) (exchange_of args h) = Answers r ->
  exists rr w',
    _retryable_request args w = (Ok (Raw rr), w')
    /\ raw_status rr = status_code r
    /\ raw_headers rr = lowercase_keys (resp_headers r)
    /\ raw_error rr = Some (reason r)
    /\ _response rr
       = (if success (status_code r) then None else Some (Some r))
    /\ current (wire w') = Some r
    /\ fetches (wire w')
       = ((if success (status_code r) then 1 else 2) + fetches (wire w))%nat
    /\ parser_log w' = parser_log w
    /\ context_empty w'.
Proof.
  intros C L Rw T. unfold ConnectionM._retryable_request.
  unfold bind at 1, try_except. rewrite (transport_call_run args w h C L), T.
  unfold bind at 1, conn_getresponse. cbn [wire set_wire current fetches].
  rewrite Rw. unfold try_finally, build_response, RawResponse_init.
  cbn [wire set_wire set_sent raw_status].
  destruct (success (status_code r)) eqn:Sc; cbn [negb].
  - unfold ret. cbn [self RawResponseM.wire].
    unfold reset_context, bind, alloc, modify.
    eexists _, _. split; [reflexivity |]. cbn.
    repeat (split; [reflexivity |]).
    unfold context_empty. cbn. apply lookup_insert_eq.
  - unfold bind at 1, body, bind at 1, response, bind at 1, get.
    cbn [self _response]. unfold bind at 1, getresponse.
    cbn [RawResponseM.wire current fetches self].
    unfold bind at 1, set_response, modify. cbn [self raw_status].
    rewrite Sc. cbn [negb].
    unfold bind, proxy_body, ret. cbn [self RawResponseM.wire].
    unfold reset_context, bind, alloc, modify.
    eexists _, _. split; [reflexivity |]. cbn.
    repeat (split; [reflexivity |]).
    unfold context_empty. cbn. apply lookup_insert_eq.
Qed.

End TransportFacts.

(** A host that does not resolve, and a certificate that does not
    verify: of the second failure the class and the [errno] are gone. *)
Lemma transport_failure_translated_witness :
  (exists w',
     _retryable_request literal_json no_xml same_keys HTTPError no_address
       tagged_args (snd tagged_prepared)
     = (Raise (Gaierror None
                 (no_address_message
                    "[Errno -5] No address associated with hostname"
                    (conn (snd tagged_prepared)))), w')
     /\ wire w' = wire (snd tagged_prepared)
     /\ parser_log w' = parser_log (snd tagged_prepared))
  /\ (exists w',
        _retryable_request literal_json no_xml same_keys HTTPError
          no_certificate tagged_args (snd tagged_prepared)
        = (Raise (SSLError "SSLError" None (STuple verify_failed)), w')
        /\ context_empty w').
Proof.
  split.
  - destruct (transport_failure_translated literal_json no_xml same_keys
                HTTPError no_address tagged_args (snd tagged_prepared)
                tagged_headers
                (Gaierror (Some (-5))
                   "[Errno -5] No address associated with hostname")
                ltac:(vm_compute; reflexivity) ltac:(vm_compute; reflexivity)
                eq_refl) as [w' [E [_ [Wi [Pl _]]]]].
    exists w'. split; [exact E | split; assumption].
  - destruct (transport_failure_translated literal_json no_xml same_keys
                HTTPError no_certificate tagged_args (snd tagged_prepared)
                tagged_headers
                (SSLError "SSLCertVerificationError" (Some 1) verify_failed)
                ltac:(vm_compute; reflexivity) ltac:(vm_compute; reflexivity)
                eq_refl) as [w' [E [_ [_ [_ Ce]]]]].
    exists w'. split; [exact E | exact Ce].
Defined.

(** A JSON class and an answer 503 whose body is the JSON text [null]:
    the mapped error carries the parsed body. *)
Lemma buffered_response_built_witness :
  exists w',
    _retryable_request literal_json no_xml same_keys HTTPError
      answers_unavailable tagged_args (snd tagged_prepared)
    = (Raise (HTTPError 503 (BJson JNull) []), w')
    /\ context_empty w'.
Proof.
  destruct (buffered_response_built literal_json no_xml same_keys HTTPError
              answers_unavailable tagged_args (snd tagged_prepared)
              tagged_headers unavailable
              ltac:(vm_compute; reflexivity) ltac:(vm_compute; reflexivity)
              eq_refl eq_refl) as [w' [E [_ [_ [_ [Ce _]]]]]].
  exists w'. split; [| exact Ce]. rewrite E. reflexivity.
Defined.

(** The same answer to a raw request: no exception, two fetches. *)
Lemma raw_response_returned_witness :
  exists rr w',
    _retryable_request literal_json no_xml same_keys HTTPError
      answers_unavailable tagged_raw_args (snd tagged_prepared)
    = (Ok (Raw rr), w')
    /\ raw_status rr = 503
    /\ fetches (wire w') = 2%nat.
Proof.
  destruct (raw_response_returned literal_json no_xml same_keys HTTPError
              answers_unavailable tagged_raw_args (snd tagged_prepared)
              tagged_headers unavailable
              ltac:(vm_compute; reflexivity) ltac:(vm_compute; reflexivity)
              eq_refl eq_refl)
    as [rr [w' [E [St [_ [_ [_ [_ [Fe _]]]]]]]]].
  exists rr, w'. split; [exact E |]. split; [exact St |].
  rewrite Fe. vm_compute. reflexivity.
Defined.

End TransportProps.

(** ** The query string *)

Module QueryProps.
Import PyStr PyStrFacts Py Urllib UrlEncode ConnectionM ConnectionProps.

Lemma split_whole sep x : contains sep x = false -> split sep x = [x].
Proof.
  induction x as [|c r IH]; cbn [contains split]; [reflexivity |].
  intros H. apply orb_false_iff in H as [E C]. rewrite E, (IH C). reflexivity.
Qed.

(** Splitting what [join] built gives the fields back, when no field
    holds the separator. *)
Lemma split_join sep l :
  l <> [] -> Forall (fun x => contains sep x = false) l ->
  split sep (join (String sep "") l) = l.
Proof.
  intros N F. induction F as [|x l Hx Hl IH]; [congruence |].
  destruct l as [|y l]; [now apply split_whole |].
  change (join (String sep "") (x :: y :: l))
    with (x +:+ String sep (join (String sep "") (y :: l))).
  rewrite split_app_sep, (split_whole _ _ Hx), IH by discriminate.
  reflexivity.
Qed.

Lemma hex_digit_safe n : always_safe (hex_digit n) = true.
Proof.
  unfold hex_digit. do 16 (destruct n as [|n]; [reflexivity |]).
  simpl. now destruct n.
Qed.

(** A character that [quote_plus] does not let through. *)
Lemma quote_plus_escapes ch s :
  always_safe ch = false -> ch <> "+"%char -> ch <> "%"%char ->
  count ch (quote_plus s) = 0%nat.
Proof.
  intros Sf Np Nc.
  assert (H : forall n, Ascii.eqb (hex_digit n) ch = false).
  { intros n. apply Ascii.eqb_neq. intros <-.
    rewrite hex_digit_safe in Sf. discriminate. }
  apply Ascii.eqb_neq in Np, Nc. rewrite Ascii.eqb_sym in Np, Nc.
  induction s as [|c r IH]; [reflexivity |].
  cbn [quote_plus]. rewrite count_app, IH, Nat.add_0_r.
  unfold quote_char. destruct (always_safe c) eqn:Sc.
  - cbn [count]. destruct (Ascii.eqb c ch) eqn:E; [| reflexivity].
    apply Ascii.eqb_eq in E. subst c. congruence.
  - destruct (Ascii.eqb c " "); cbn [count]; [now rewrite Np |].
    now rewrite Nc, !H.
Qed.

(** One encoded field: a single equals sign, no ampersand, no question
    mark. *)
Lemma encoded_field k v :
  let f := quote_plus k +:+ "=" +:+ quote_plus v in
  count "=" f = 1%nat /\ contains "&" f = false /\ contains "?" f = false.
Proof.
  cbv zeta. split; [| split].
  - rewrite !count_app, !quote_plus_escapes by (reflexivity || discriminate).
    reflexivity.
  - apply count_contains.
    rewrite !count_app, !quote_plus_escapes by (reflexivity || discriminate).
    reflexivity.
  - apply count_contains.
    rewrite !count_app, !quote_plus_escapes by (reflexivity || discriminate).
    reflexivity.
Qed.

(** X21. The URL [request] builds can be taken apart again.  With an action
    that holds no question mark, splitting the URL at [?] gives the action
    and the query; splitting the query at [&] gives one field per
    parameter value, each with a single [=], whatever characters the keys
    and the values hold.  When the parameters hold no value at all (only
    empty sequences), the URL is the action and a bare separator. *)
Theorem request_query_fields action params :
  has_items params = true ->
  let fields :=
    flat_map (fun kv => encode_pair (fst kv) (snd kv)) (items params) in
  (contains "?" action = false ->
     split "?" (build_url action params) = [action; urlencode (items params)])
  /\ (fields <> [] -> split "&" (urlencode (items params)) = fields)
  /\ Forall (fun f => count "=" f = 1%nat /\ contains "&" f = false
                      /\ contains "?" f = false) fields
  /\ (fields = [] ->
      build_url action params
      = action +:+ (if contains "?" action then "&" else "?")).
Proof.
  intros I fields.
  assert (F : Forall (fun f => count "=" f = 1%nat /\ contains "&" f = false
                               /\ contains "?" f = false) fields).
  { apply List.Forall_forall. intros x Hx.
    apply in_flat_map in Hx as [[k v] [_ Hx]]. cbn [fst snd] in Hx.
    destruct v as [s|l]; cbn [encode_pair] in Hx.
    - destruct Hx as [<-|[]]. apply encoded_field.
    - apply in_map_iff in Hx as [e [<- _]]. apply encoded_field. }
  assert (U : build_url action params
              = action +:+ (if contains "?" action then "&" else "?")
                  +:+ urlencode (items params)).
  { unfold build_url. unfold has_items in I.
    destruct (items params) as [|kv r]; [discriminate |].
    destruct (contains "?" action); reflexivity. }
  split; [| split; [| split; [exact F |]]].
  - intros C. rewrite U, C.
    change (action +:+ "?" +:+ urlencode (items params))
      with (action +:+ String "?" (urlencode (items params))).
    rewrite split_app_sep, (split_whole _ _ C), split_whole; [reflexivity |].
    apply count_contains, urlencode_no_qmark.
  - intros N. unfold urlencode. apply split_join; [exact N |].
    eapply List.Forall_impl; [| exact F]. cbv beta. tauto.
  - intros E. rewrite U. unfold urlencode. fold fields. rewrite E.
    cbn [join]. now rewrite !append_nil_r.
Qed.

(** A value with an ampersand and an equals sign in it, and a parameter
    with two values. *)
Lemma request_query_fields_witness :
  split "?" (build_url "/search"
               (ODict [("q", VStr "a&b=c"); ("tag", VSeq ["x"; "y"])]))
  = ["/search"; "q=a%26b%3Dc&tag=x&tag=y"]
  /\ split "&" "q=a%26b%3Dc&tag=x&tag=y" = ["q=a%26b%3Dc"; "tag=x"; "tag=y"].
Proof.
  destruct (request_query_fields "/search"
              (ODict [("q", VStr "a&b=c"); ("tag", VSeq ["x"; "y"])]) eq_refl)
    as [A [B _]].
  split; [exact (A eq_refl) | apply B; discriminate].
Defined.

End QueryProps.

(** ** [PollingConnection.async_request]: bounds and trace *)

Module PollingLoopProps.
Import PyStr Py PollingM PollingToolsM.
Local Open Scope py_scope.
Local Open Scope Z_scope.

Lemma requests_app {Resp} (a b : list (event Resp)) :
  requests (a ++ b) = (requests a + requests b)%nat.
Proof.
  induction a as [|[k r|r|d] a IH]; cbn [requests app]; [reflexivity | | |];
    now rewrite IH.
Qed.

Section LoopFacts.
Variable Resp : Type.
Variable server : nat -> Kwargs -> result Resp * Z.
Context {hooks : PollingHooks Resp}.
Variable poll_interval : Z.
Variable timeout : Z.

#[local] Abbreviation poll_loop := (poll_loop server poll_interval).
#[local] Abbreviation async_request :=
  (async_request server poll_interval timeout).
#[local] Abbreviation PollWorld := (PollWorld Resp).

#[local] Abbreviation after_poll := (after_poll poll_interval).

(** The ways one turn of the loop can go. *)
Lemma poll_loop_inv fuel end_ k resp c (w : PollWorld) r w' :
  poll_loop fuel end_ k resp c w = (r, w') ->
  ((now w <? end_) && negb c = false /\ r = Ok (Some (resp, c)) /\ w' = w)
  \/ ((now w <? end_) && negb c = true
      /\ ((fuel = 0%nat /\ r = Ok None /\ w' = w)
          \/ exists fuel', fuel = S fuel'
             /\ ((exists e d,
                    server (issued w) k = (Raise e, d) /\ r = Raise e
                    /\ w' = {| now := now w + d; issued := S (issued w);
                               trace := trace w ++ [Requested k (Raise e)] |})
                 \/ (exists r1 d e,
                       server (issued w) k = (Ok r1, d)
                       /\ has_completed r1 = Raise e /\ r = Raise e
                       /\ w' = {| now := now w + d; issued := S (issued w);
                                  trace := trace w
                                           ++ [Requested k (Ok r1); Checked r1] |})
                 \/ (exists r1 d c1,
                       server (issued w) k = (Ok r1, d)
                       /\ has_completed r1 = Ok c1
                       /\ poll_loop fuel' end_ k r1 c1 (after_poll k w r1 d c1)
                          = (r, w'))))).
Proof.
  destruct fuel as [|fuel]; cbn [PollingM.poll_loop]; unfold bind at 1, time.
  - destruct ((now w <? end_) && negb c) eqn:B; intros [= <- <-]; auto 10.
  - destruct ((now w <? end_) && negb c) eqn:B;
      [| intros [= <- <-]; auto].
    intros H. right. split; [reflexivity |]. right. exists fuel.
    split; [reflexivity |].
    unfold bind at 1, request in H.
    destruct (server (issued w) k) as [[r1|e] d] eqn:Sv.
    2:{ injection H as <- <-. left. eauto. }
    unfold bind at 1, check in H. cbn [now issued trace] in H.
    destruct (has_completed r1) as [c1|e] eqn:C.
    2:{ injection H as <- <-. right. left. exists r1, d, e.
        rewrite <- app_assoc. auto. }
    right. right. exists r1, d, c1. split; [reflexivity |].
    split; [exact C |]. unfold bind at 1 in H.
    unfold PollingToolsM.after_poll.
    destruct c1; cbn [negb] in H; unfold sleep, ret in H;
      cbn [now issued trace] in H; rewrite <- H; f_equal; f_equal;
      first [lia | now rewrite ?app_nil_r, <- ?app_assoc].
Qed.

(** Once the job is completed the loop is over, whatever the fuel. *)
Lemma poll_loop_completed fuel end_ k resp (w : PollWorld) :
  poll_loop fuel end_ k resp true w = (Ok (Some (resp, true)), w).
Proof.
  destruct fuel; cbn [PollingM.poll_loop]; unfold bind, time, ret;
    now rewrite andb_false_r.
Qed.

(** The arithmetic of the loop: time does not run backwards, a poll after
    the first starts at least one interval after its predecessor, and a
    fuel of as many turns as the deadline is ticks away is enough. *)
Lemma poll_loop_bounded k end_ : forall fuel resp c (w : PollWorld) r w',
  0 < poll_interval -> (forall n, 0 <= snd (server n k)) ->
  poll_loop fuel end_ k resp c w = (r, w') ->
  (issued w <= issued w')%nat
  /\ (issued w' = issued w
      \/ (c = false
          /\ now w + (Z.of_nat (issued w' - issued w) - 1) * poll_interval
             < end_))
  /\ ((Z.to_nat (end_ - now w) <= fuel)%nat -> r <> Ok None).
Proof.
  induction fuel as [|fuel IH]; intros resp c w r w' Hi Hd H;
    apply poll_loop_inv in H
      as [[B [-> ->]] | [B [[F [-> ->]] | [fuel' [F H]]]]];
    try discriminate.
  - split; [lia |]. split; [now left |]. discriminate.
  - split; [lia |]. split; [now left |].
    apply andb_true_iff in B as [B _]. apply Z.ltb_lt in B. lia.
  - split; [lia |]. split; [now left |]. discriminate.
  - injection F as <-.
    apply andb_true_iff in B as [B Bc]. apply Z.ltb_lt in B.
    apply negb_true_iff in Bc. subst c.
    destruct H as [[e [d [Sv [-> ->]]]]
                  | [[r1 [d [e [Sv [C [-> ->]]]]]]
                    | [r1 [d [c1 [Sv [C H]]]]]]]; cbn [issued now].
    + split; [lia |]. split; [| discriminate]. right. split; [reflexivity |].
      replace (S (issued w) - issued w)%nat with 1%nat by lia. lia.
    + split; [lia |]. split; [| discriminate]. right. split; [reflexivity |].
      replace (S (issued w) - issued w)%nat with 1%nat by lia. lia.
    + pose proof (Hd (issued w)) as D0. rewrite Sv in D0. cbn [snd] in D0.
      destruct c1.
      * rewrite poll_loop_completed in H. injection H as <- <-.
        cbn [issued after_poll].
        split; [lia |]. split; [| discriminate]. right.
        split; [reflexivity |].
        replace (S (issued w) - issued w)%nat with 1%nat by lia. lia.
      * destruct (IH _ _ _ _ _ Hi Hd H) as [L [A Fu]].
        cbn [issued now after_poll] in *.
        split; [lia |]. split.
        -- right. split; [reflexivity |].
           destruct A as [A | [_ A]].
           ++ rewrite A.
              replace (S (issued w) - issued w)%nat with 1%nat by lia. lia.
           ++ replace (Z.of_nat (issued w' - issued w))
                with (Z.of_nat (issued w' - S (issued w)) + 1) by lia.
              nia.
        -- intros Fl. apply Fu. lia.
Qed.

(** What the loop adds to the trace: requests with the same keyword
    arguments and sleeps of one interval. *)
Lemma poll_loop_events k end_ : forall fuel resp c (w : PollWorld) r w',
  poll_loop fuel end_ k resp c w = (r, w') ->
  exists evs,
    trace w' = trace w ++ evs
    /\ polls_with k poll_interval evs
    /\ issued w' = (issued w + requests evs)%nat.
Proof.
  induction fuel as [|fuel IH]; intros resp c w r w' H;
    apply poll_loop_inv in H
      as [[B [-> ->]] | [B [[F [-> ->]] | [fuel' [F H]]]]];
    try discriminate;
    try (exists []; rewrite app_nil_r; cbn [requests];
         split; [reflexivity |]; split; [constructor | lia]).
  injection F as <-.
  destruct H as [[e [d [Sv [-> ->]]]]
                | [[r1 [d [e [Sv [C [-> ->]]]]]]
                  | [r1 [d [c1 [Sv [C H]]]]]]]; cbn [issued trace].
  - exists [Requested k (Raise e)]. split; [reflexivity |].
    split; [repeat constructor |]. cbn. lia.
  - exists [Requested k (Ok r1); Checked r1]. split; [reflexivity |].
    split; [repeat constructor |]. cbn. lia.
  - destruct (IH _ _ _ _ _ H) as [evs [T [P I]]].
    cbn [issued trace after_poll] in *.
    exists (([Requested k (Ok r1); Checked r1]
               ++ (if c1 then [] else [Slept poll_interval])) ++ evs).
    split; [now rewrite T, <- !app_assoc |]. split.
    + apply Forall_app. split; [| exact P].
      destruct c1; repeat constructor.
    + rewrite I, requests_app. destruct c1; cbn; lia.
Qed.

(** [async_request] after an initiating request that answered and a
    [get_poll_request_kwargs] that returned. *)
Lemma async_request_unfold
    fuel action params data headers method context (w : PollWorld) r0 d0 k1 :
  server (issued w)
    (get_request_kwargs action params data headers method context)
  = (Ok r0, d0) ->
  get_poll_request_kwargs r0 context
    (get_request_kwargs action params data headers method context) = Ok k1 ->
  async_request fuel action params data headers method context w
  = (out <- poll_loop fuel (now w + d0 + timeout) k1 r0 false ;;
     match out with
     | None => ret None
     | Some (response, completed) =>
         if negb completed
         then raise (LibcloudError (timeout_message timeout))
         else ret (Some response)
     end)
      {| now := now w + d0; issued := S (issued w);
         trace := trace w
                  ++ [Requested (get_request_kwargs action params data
                                   headers method context) (Ok r0)] |}.
Proof.
  intros Sv G. unfold PollingM.async_request.
  unfold bind at 1, request. rewrite Sv.
  unfold bind at 1, lift. rewrite G. reflexivity.
Qed.

(** The end of [async_request] changes nothing of the world. *)
Lemma async_request_tail (out : result (option (Resp * bool))) (w1 : PollWorld)
    r w' :
  match out with
  | Ok o =>
      match o with
      | None => ret None
      | Some (response, completed) =>
          if negb completed
          then raise (LibcloudError (timeout_message timeout))
          else ret (Some response)
      end w1
  | Raise e => (Raise e, w1)
  end = (r, w') ->
  w' = w1 /\ (r = Ok None -> out = Ok None).
Proof.
  destruct out as [[[resp c]|]|e]; [destruct c | |]; cbn;
    intros [= <- <-]; split; auto; discriminate.
Qed.

(** X22. A timeout that is not positive: the initiating request is the only
    one, no completion test is made, and the job-timeout error is raised
    at once, whatever the fuel. *)
Theorem nonpositive_timeout_never_polls
    fuel action params data headers method context (w : PollWorld) r0 d0 k1 :
  timeout <= 0 ->
  server (issued w)
    (get_request_kwargs action params data headers method context)
  = (Ok r0, d0) ->
  get_poll_request_kwargs r0 context
    (get_request_kwargs action params data headers method context) = Ok k1 ->
  async_request fuel action params data headers method context w
  = (Raise (LibcloudError (timeout_message timeout)),
     {| now := now w + d0; issued := S (issued w);
        trace := trace w
                 ++ [Requested (get_request_kwargs action params data
                                  headers method context) (Ok r0)] |}).
Proof.
  intros T Sv G. rewrite (async_request_unfold _ _ _ _ _ _ _ _ _ _ _ Sv G).
  unfold bind.
  assert (B : (now w + d0 <? now w + d0 + timeout) = false)
    by (apply Z.ltb_ge; lia).
  destruct fuel; cbn [PollingM.poll_loop]; unfold bind, time, ret;
    cbn [now]; rewrite B; reflexivity.
Qed.

(** X23. [async_request] ends (interval positive, requests that take no
    negative time): the initiating request is always made; a poll after
    the first starts at least one interval after its predecessor, so
    that [p] polls took place only if [(p - 1) * poll_interval] is less
    than the timeout; and a fuel of [timeout] turns is never used up. *)
Theorem async_request_bounded
    fuel action params data headers method context (w : PollWorld) r w' :
  0 < poll_interval -> (forall n k, 0 <= snd (server n k)) ->
  async_request fuel action params data headers method context w = (r, w') ->
  (S (issued w) <= issued w')%nat
  /\ (issued w' = S (issued w)
      \/ (Z.of_nat (issued w' - S (issued w)) - 1) * poll_interval < timeout)
  /\ ((Z.to_nat timeout <= fuel)%nat -> r <> Ok None).
Proof.
  intros Hi Hd.
  set (k0 := get_request_kwargs action params data headers method context).
  destruct (server (issued w) k0) as [[r0|e] d0] eqn:Sv.
  2:{ unfold PollingM.async_request. fold k0.
      unfold bind at 1, request. rewrite Sv. intros [= <- <-]. cbn [issued].
      split; [lia |]. split; [now left | discriminate]. }
  destruct (get_poll_request_kwargs r0 context k0) as [k1|e] eqn:G.
  2:{ unfold PollingM.async_request. fold k0.
      unfold bind at 1, request. rewrite Sv.
      unfold bind at 1, lift. rewrite G. intros [= <- <-]. cbn [issued].
      split; [lia |]. split; [now left | discriminate]. }
  rewrite (async_request_unfold _ _ _ _ _ _ _ _ _ _ _ Sv G). fold k0.
  unfold bind at 1.
  destruct (poll_loop fuel _ k1 r0 false _) as [out w1] eqn:L.
  intros E. apply async_request_tail in E as [-> N].
  destruct (poll_loop_bounded k1 _ _ _ _ _ _ _ Hi (fun n => Hd n k1) L)
    as [Le [A Fu]].
  cbn [issued now] in *. split; [exact Le |]. split.
  - destruct A as [A | [_ A]]; [now left | right; lia].
  - intros Fl Rn. apply Fu; [| now apply N].
    replace (now w + d0 + timeout - (now w + d0)) with timeout by lia.
    exact Fl.
Qed.

(** X24. The keyword arguments of the polls are computed once, from the
    initiating response: every request after the first is made with
    them, every sleep lasts one poll interval, and the requests made are
    the initiating one and those of the trace. *)
Theorem polls_share_kwargs
    fuel action params data headers method context (w : PollWorld)
    r w' r0 d0 k1 :
  server (issued w)
    (get_request_kwargs action params data headers method context)
  = (Ok r0, d0) ->
  get_poll_request_kwargs r0 context
    (get_request_kwargs action params data headers method context) = Ok k1 ->
  async_request fuel action params data headers method context w = (r, w') ->
  exists evs,
    trace w'
    = trace w
        ++ Requested (get_request_kwargs action params data headers method
                        context) (Ok r0) :: evs
    /\ polls_with k1 poll_interval evs
    /\ issued w' = (S (issued w) + requests evs)%nat.
Proof.
  intros Sv G. rewrite (async_request_unfold _ _ _ _ _ _ _ _ _ _ _ Sv G).
  unfold bind at 1.
  destruct (poll_loop fuel _ k1 r0 false _) as [out w1] eqn:L.
  intros E. apply async_request_tail in E as [-> _].
  destruct (poll_loop_events k1 _ _ _ _ _ _ _ L) as [evs [T [P I]]].
  cbn [issued trace] in *. exists evs.
  split; [now rewrite T, <- app_assoc |]. split; assumption.
Qed.

End LoopFacts.

(** X25. [PollingConnection] as it is, without the two methods a provider
    has to write: [async_request] makes the initiating request and
    nothing else; it raises what that request raised or, when it
    answered, the [NotImplementedError] of [get_poll_request_kwargs].  The
    context is not among the keyword arguments of the request. *)
Theorem base_class_cannot_poll (Resp : Type)
    (server : nat -> Kwargs -> result Resp * Z) poll_interval timeout
    fuel action params data headers method context (w : PollWorld Resp) :
  let k0 := {| k_action := action; k_params := params; k_data := data;
               k_headers := headers; k_method := method |} in
  async_request (hooks := BasePollingHooks Resp) server poll_interval timeout
    fuel action params data headers method context w
  = (Raise match fst (server (issued w) k0) with
           | Ok _ => NotImplementedError "get_poll_request_kwargs not implemented"
           | Raise e => e
           end,
     {| now := now w + snd (server (issued w) k0); issued := S (issued w);
        trace := trace w ++ [Requested k0 (fst (server (issued w) k0))] |}).
Proof.
  intros k0. unfold async_request.
  cbn [get_request_kwargs BasePollingHooks]. fold k0.
  unfold bind at 1, request.
  destruct (server (issued w) k0) as [[r0|e] d0]; reflexivity.
Qed.

Lemma nonpositive_timeout_never_polls_witness :
  async_request (hooks := JobHooks) (done_server 100) 500 0 3
    "/jobs" None None None "POST" None idle
  = (Raise (LibcloudError (timeout_message 0)),
     {| now := 100; issued := 1;
        trace := [Requested {| k_action := "/jobs"; k_params := None;
                               k_data := None; k_headers := None;
                               k_method := "POST" |} (Ok "done")] |}).
Proof.
  exact (nonpositive_timeout_never_polls string (done_server 100)
           (hooks := JobHooks) 500 0 3 "/jobs" None None None "POST" None
           idle "done" 100 job_kwargs ltac:(lia) eq_refl eq_refl).
Defined.

(** A job that never completes, polled every 500 ticks for 1000 ticks:
    two polls. *)
Lemma async_request_bounded_witness :
  let out := async_request (hooks := JobHooks) (stuck_server 0) 500 1000 1000
               "/jobs" None None None "POST" None idle in
  (1 <= issued (snd out))%nat
  /\ (issued (snd out) = 1%nat
      \/ (Z.of_nat (issued (snd out) - 1) - 1) * 500 < 1000)
  /\ fst out <> Ok None.
Proof.
  intros out.
  destruct (async_request_bounded string (stuck_server 0) (hooks := JobHooks)
              500 1000 1000 "/jobs" None None None "POST" None idle
              (fst out) (snd out) ltac:(lia) ltac:(intros; cbn; lia)
              (surjective_pairing out)) as [A [B C]].
  split; [exact A |]. split; [exact B |]. apply C. vm_compute. lia.
Defined.

Lemma polls_share_kwargs_witness :
  exists evs,
    trace (snd (async_request (hooks := JobHooks) (job_server 100)
                  default_poll_interval default_timeout 3
                  "/jobs" None None None "POST" None idle))
    = [] ++ Requested
              {| k_action := "/jobs"; k_params := None; k_data := None;
                 k_headers := None; k_method := "POST" |} (Ok "done")
         :: evs
    /\ polls_with job_kwargs default_poll_interval evs
    /\ requests evs = 3%nat.
Proof.
  destruct (polls_share_kwargs string (job_server 100) (hooks := JobHooks)
              default_poll_interval default_timeout 3
              "/jobs" None None None "POST" None idle
              _ _ "done" 100 job_kwargs eq_refl eq_refl
              (surjective_pairing _)) as [evs [T [P I]]].
  exists evs. split; [exact T |]. split; [exact P |].
  assert (E : issued (snd (async_request (hooks := JobHooks) (job_server 100)
                             default_poll_interval default_timeout 3
                             "/jobs" None None None "POST" None idle))
              = 4%nat) by (vm_compute; reflexivity).
  rewrite E in I. cbn [issued idle] in I. lia.
Defined.

End PollingLoopProps.

(** ** [morph_action_hook] applied twice *)

Module MorphTwice.
Import PyStr Py PyStrFacts Urllib UrllibFacts Morph MorphFacts QueryProps.

Lemma filter_nonempty_all l :
  Forall nonemptyP l -> List.filter nonempty l = l.
Proof.
  induction 1 as [|x l Hx _ IH]; [reflexivity |]. cbn [List.filter].
  apply nonempty_true in Hx. now rewrite Hx, IH.
Qed.

Lemma path_chars_split ch s :
  path_chars s = true -> Forall (fun x => path_chars x = true) (split ch s).
Proof.
  induction s as [|c r IH]; cbn [path_chars split].
  - intros _. repeat constructor.
  - intros H. apply andb_true_iff in H as [Hc Hr]. specialize (IH Hr).
    destruct (Ascii.eqb c ch); [constructor; [reflexivity | exact IH] |].
    destruct (split ch r) as [|h t]; [repeat constructor; cbn; now rewrite Hc |].
    pose proof (List.Forall_inv IH) as Hh.
    pose proof (List.Forall_inv_tail IH) as Ht.
    constructor; [cbn; now rewrite Hc, Hh | exact Ht].
Qed.

Lemma path_chars_join l :
  Forall (fun x => path_chars x = true) l -> path_chars (join "/" l) = true.
Proof.
  induction 1 as [|x l Hx Hl IH]; [reflexivity |].
  destruct l as [|y l]; [exact Hx |].
  change (join "/" (x :: y :: l)) with (x +:+ "/" +:+ join "/" (y :: l)).
  now rewrite !path_chars_app, Hx, IH.
Qed.

(** The fields of a path are non-empty, hold no slash and are made of
    the characters of the path. *)
Lemma fields_facts s :
  Forall nonemptyP (fields s) /\ Forall (sep_free slash) (fields s)
  /\ (path_chars s = true -> Forall (fun x => path_chars x = true) (fields s)).
Proof.
  unfold fields. split; [apply Forall_filter_nonempty |].
  split; [apply Forall_filter_weak, split_sep_free |].
  intros H. now apply Forall_filter_weak, path_chars_split.
Qed.

Lemma fields_not_nil P : lstrip slash P <> "" -> fields P <> [].
Proof.
  intros N. rewrite <- fields_lstrip.
  destruct (split_head slash (lstrip slash P) N (lstrip_no_prefix slash P))
    as [h [t [E H]]].
  unfold fields. rewrite E. cbn [List.filter].
  apply nonempty_true in H. rewrite H. discriminate.
Qed.

Lemma Forall_last_nonnil {A} (Q : A -> Prop) l d :
  l <> [] -> Forall Q l -> Q (List.last l d).
Proof.
  intros N F. induction F as [|x l Hx Hl IH]; [congruence |].
  destruct l as [|y l]; [exact Hx |]. apply IH. discriminate.
Qed.

Lemma forallb_Forall {A} (f : A -> bool) l :
  Forall (fun x => f x = true) l -> forallb f l = true.
Proof.
  induction 1 as [|x l Hx _ IH]; [reflexivity |]. cbn. now rewrite Hx, IH.
Qed.

(** A path in canonical form: its splitting. *)
Lemma canonical_split l (trailing : bool) :
  l <> [] -> Forall (sep_free slash) l ->
  split slash ("/" +:+ join "/" l +:+ (if trailing then "/" else ""))
  = "" :: l ++ (if trailing then [""] else []).
Proof.
  intros N F.
  change ("/" +:+ join "/" l +:+ (if trailing then "/" else ""))
    with (String "/" (join "/" l +:+ (if trailing then "/" else ""))).
  cbn [split]. change (Ascii.eqb "/" slash) with true. cbv iota.
  f_equal. destruct trailing.
  - rewrite split_app_slash. f_equal. now apply (split_join slash).
  - rewrite append_nil_r, app_nil_r. now apply (split_join slash).
Qed.

Lemma canonical_facts l (trailing : bool) :
  l <> [] -> Forall nonemptyP l -> Forall (sep_free slash) l ->
  let r := "/" +:+ join "/" l +:+ (if trailing then "/" else "") in
  fields r = l /\ lstrip slash r <> "" /\ endswith slash r = trailing
  /\ (Forall (fun x => path_chars x = true) l -> path_chars r = true)
  /\ (Forall not_dot l -> dot_free r = true).
Proof.
  intros N Fn Fs r.
  assert (Fl : fields r = l).
  { unfold fields, r. rewrite (canonical_split l trailing N Fs).
    cbn [List.filter nonempty String.eqb negb].
    rewrite List.filter_app, (filter_nonempty_all l Fn).
    destruct trailing; cbn; now rewrite app_nil_r. }
  assert (Ne : lstrip slash r <> "").
  { intros E. pose proof (fields_lstrip r) as Q. rewrite E, Fl in Q.
    cbn in Q. congruence. }
  split; [exact Fl |]. split; [exact Ne |]. split; [| split].
  - assert (R0 : r <> "") by (unfold r; discriminate).
    rewrite <- (last_split_eqb slash r R0). unfold r.
    rewrite (canonical_split l trailing N Fs).
    destruct trailing.
    + change ("" :: l ++ [""]) with (("" :: l) ++ [""]).
      rewrite last_app_nonnil by discriminate. reflexivity.
    + rewrite app_nil_r. destruct l as [|x l']; [congruence |].
      change (List.last ("" :: x :: l') "") with (List.last (x :: l') "").
      apply eqb_empty_false.
      now apply (Forall_last_nonnil nonemptyP (x :: l') "").
  - intros Fp. unfold r. rewrite !path_chars_app, (path_chars_join l Fp).
    now destruct trailing.
  - intros Fd. unfold dot_free. rewrite Fl. apply forallb_Forall.
    eapply List.Forall_impl; [| exact Fd]. unfold not_dot. intros a ->.
    reflexivity.
Qed.

(** X26. Normalizing twice.  For plain paths without [.] and [..]
    segments and an action that is not made of slashes only: with an
    empty request path the result of [morph_action_hook] is a fixed point,
    normalizing it again changes nothing; with a request path [X], the
    prefix is put in front again, so that an action which already carries
    the prefix ends up with it twice. *)
Theorem morph_action_hook_twice other X P r :
  path_chars X = true -> path_chars P = true -> lstrip slash P <> "" ->
  dot_free X = true -> dot_free P = true ->
  morph_action_hook other false X P = Ok r ->
  morph_action_hook other false "" r = Ok r
  /\ morph_action_hook other false X r
     = Ok ("/" +:+ join "/" (fields X ++ fields X ++ fields P)
               +:+ (if endswith slash P then "/" else "")).
Proof.
  intros HX HP Hp DX DP E.
  assert (R : r = "/" +:+ join "/" (fields X ++ fields P)
                    +:+ (if endswith slash P then "/" else "")).
  { rewrite (morph_canonical other X P HX HP Hp DX DP) in E. congruence. }
  clear E. subst r.
  destruct (fields_facts X) as [Xn [Xs Xp]].
  destruct (fields_facts P) as [Pn [Ps Pp]].
  set (l := fields X ++ fields P).
  assert (N : l <> []).
  { pose proof (fields_not_nil P Hp). subst l.
    destruct (fields X); [assumption | discriminate]. }
  assert (Fn : Forall nonemptyP l) by (apply Forall_app; auto).
  assert (Fs : Forall (sep_free slash) l) by (apply Forall_app; auto).
  destruct (canonical_facts l (endswith slash P) N Fn Fs)
    as [Fl [Ne [En [Pc Df]]]].
  specialize (Pc ltac:(apply Forall_app; auto)).
  specialize (Df ltac:(apply Forall_app; split; now apply dot_free_split)).
  split.
  - rewrite (morph_canonical other "" _ eq_refl Pc Ne eq_refl Df).
    rewrite Fl, En. reflexivity.
  - rewrite (morph_canonical other X _ HX Pc Ne DX Df).
    rewrite Fl, En. reflexivity.
Qed.

Lemma morph_action_hook_twice_witness :
  morph_action_hook (fun _ url => Ok url) false "" "/api/servers/"
  = Ok "/api/servers/"
  /\ morph_action_hook (fun _ url => Ok url) false "/api" "/api/servers/"
     = Ok "/api/api/servers/".
Proof.
  destruct (morph_action_hook_twice (fun _ url => Ok url) "/api" "servers/"
              "/api/servers/" eq_refl eq_refl ltac:(discriminate) eq_refl
              eq_refl eq_refl)
    as [A B].
  split; [exact A | exact B].
Defined.

End MorphTwice.

(** ** [async_request]: a poll that fails *)

Module PollingErrorProps.
Import PyStr Py PollingM PollingToolsM PollingProps PollingLoopProps.
Local Open Scope py_scope.
Local Open Scope Z_scope.

Section ErrorFacts.
Variable Resp : Type.
Variable server : nat -> Kwargs -> result Resp * Z.
Context {hooks : PollingHooks Resp}.
Variable poll_interval : Z.
Variable timeout : Z.

#[local] Abbreviation poll_loop := (poll_loop server poll_interval).
#[local] Abbreviation async_request :=
  (async_request server poll_interval timeout).
#[local] Abbreviation elapsed := (elapsed server poll_interval).
#[local] Abbreviation PollWorld := (PollWorld Resp).

#[local] Abbreviation fails_with := (fails_with server).

Lemma elapsed_nonneg k : forall N first,
  0 <= poll_interval -> (forall n, 0 <= snd (server n k)) ->
  0 <= elapsed k first N.
Proof.
  induction N as [|N IH]; intros first Hi Hd; cbn [PollingM.elapsed]; [lia |].
  specialize (IH (S first) Hi Hd). specialize (Hd first). lia.
Qed.

Lemma poll_loop_fails k end_ e N : forall fuel resp0 (w : PollWorld),
  (N < fuel)%nat ->
  (forall i, (i < N)%nat ->
     exists r, fst (server (issued w + i) k) = Ok r
               /\ has_completed r = Ok false) ->
  fails_with k (issued w + N) e ->
  0 <= poll_interval -> (forall n, 0 <= snd (server n k)) ->
  now w + elapsed k (issued w) N < end_ ->
  exists w' evs,
    poll_loop fuel end_ k resp0 false w = (Raise e, w')
    /\ issued w' = (issued w + S N)%nat
    /\ trace w' = trace w ++ evs
    /\ (exists pre, evs = pre ++ [Requested k (Raise e)]
        \/ exists r, evs = pre ++ [Requested k (Ok r); Checked r]).
Proof.
  induction N as [|N IH]; intros fuel resp0 w F Hf Hl Hi Hd Ht.
  - destruct fuel as [|fuel]; [lia |].
    rewrite Nat.add_0_r in Hl. cbn [PollingM.elapsed] in Ht.
    assert (T : (now w <? end_) && negb false = true)
      by (rewrite andb_true_r; apply Z.ltb_lt; lia).
    cbn [PollingM.poll_loop]. unfold bind at 1, time. rewrite T.
    unfold bind at 1, request.
    unfold PollingToolsM.fails_with in Hl.
    destruct (server (issued w) k) as [o d] eqn:Sv. cbn [fst] in Hl.
    destruct Hl as [-> | [r [-> C]]].
    + eexists _, _. split; [reflexivity |]. cbn [issued trace].
      split; [lia |]. split; [reflexivity |]. exists []. now left.
    + unfold bind at 1, check. cbn [now issued trace]. rewrite C.
      eexists _, _. split; [reflexivity |]. cbn [issued trace].
      split; [lia |]. split; [symmetry; apply app_assoc |].
      exists []. right. now exists r.
  - destruct fuel as [|fuel]; [lia |].
    destruct (Hf 0%nat ltac:(lia)) as [r [Sr C]]. rewrite Nat.add_0_r in Sr.
    destruct (server (issued w) k) as [o d] eqn:Sv. cbn [fst] in Sr. subst o.
    cbn [PollingM.elapsed] in Ht. rewrite Sv in Ht. cbn [snd] in Ht.
    pose proof (Hd (issued w)) as D0. rewrite Sv in D0. cbn [snd] in D0.
    pose proof (elapsed_nonneg k N (S (issued w)) Hi Hd) as E0.
    assert (T : now w < end_) by lia.
    rewrite (poll_loop_step Resp server poll_interval _ _ _ _ _ _ _ T Sv C).
    set (w1 := {| now := now w + d + poll_interval; issued := S (issued w);
                  trace := ((trace w ++ [Requested k (Ok r)])
                              ++ [Checked r]) ++ [Slept poll_interval] |}).
    destruct (IH fuel r w1) as [w' [evs [E [I [Tr Sh]]]]]; try assumption.
    + lia.
    + intros i Li. cbn [w1 issued].
      replace (S (issued w) + i)%nat with (issued w + S i)%nat by lia.
      apply Hf. lia.
    + cbn [w1 issued].
      replace (S (issued w) + N)%nat with (issued w + S N)%nat by lia.
      exact Hl.
    + cbn [w1 now issued]. lia.
    + exists w', ([Requested k (Ok r); Checked r; Slept poll_interval] ++ evs).
      split; [exact E |]. split; [rewrite I; cbn [w1 issued]; lia |].
      split; [rewrite Tr; cbn [w1 trace]; now rewrite <- !app_assoc |].
      destruct Sh as [pre [-> | [r' ->]]];
        exists ([Requested k (Ok r); Checked r; Slept poll_interval] ++ pre);
        [left | right; exists r']; now rewrite <- app_assoc.
Qed.

(** X27. A poll that fails ends the wait.  After an initiating request
    that answered: if the completion test is false on the first [N] polls
    and the next poll, started before the deadline, fails (the request
    raises, or it answers and [has_completed] raises), [async_request]
    raises that exception; the failing request is the last one made,
    nothing follows it in the trace, no sleep either. *)
Theorem poll_failure_ends_wait
    fuel action params data headers method context (w : PollWorld)
    r0 d0 k1 N e :
  server (issued w)
    (get_request_kwargs action params data headers method context)
  = (Ok r0, d0) ->
  get_poll_request_kwargs r0 context
    (get_request_kwargs action params data headers method context) = Ok k1 ->
  0 <= poll_interval -> (forall n, 0 <= snd (server n k1)) ->
  (forall i, (i < N)%nat ->
     exists r, fst (server (S (issued w) + i) k1) = Ok r
               /\ has_completed r = Ok false) ->
  fails_with k1 (S (issued w) + N) e ->
  elapsed k1 (S (issued w)) N < timeout ->
  (N < fuel)%nat ->
  exists w' pre,
    async_request fuel action params data headers method context w
    = (Raise e, w')
    /\ issued w' = (S (issued w) + S N)%nat
    /\ (trace w'
        = trace w
            ++ Requested (get_request_kwargs action params data headers
                            method context) (Ok r0)
            :: pre ++ [Requested k1 (Raise e)]
        \/ exists r,
             trace w'
             = trace w
                 ++ Requested (get_request_kwargs action params data headers
                                 method context) (Ok r0)
                 :: pre ++ [Requested k1 (Ok r); Checked r]).
Proof.
  intros Sv G Hi Hd Hf Hl Ht F.
  rewrite (async_request_unfold Resp server poll_interval timeout
             _ _ _ _ _ _ _ _ _ _ _ Sv G).
  set (w1 := {| now := now w + d0; issued := S (issued w);
                trace := trace w
                         ++ [Requested (get_request_kwargs action params data
                                          headers method context) (Ok r0)] |}).
  destruct (poll_loop_fails k1 (now w + d0 + timeout) e N fuel r0 w1)
    as [w' [evs [E [I [Tr Sh]]]]]; try assumption.
  { cbn [w1 now issued]. lia. }
  unfold bind. rewrite E. cbn [w1 issued trace] in *.
  destruct Sh as [pre [-> | [r ->]]]; exists w', pre;
    (split; [reflexivity |]); (split; [exact I |]);
    [left | right; exists r]; rewrite Tr, <- app_assoc; reflexivity.
Qed.

End ErrorFacts.

Lemma poll_failure_ends_wait_witness :
  exists w',
    async_request (hooks := JobHooks) (failing_server 100)
      default_poll_interval default_timeout 5
      "/jobs" None None None "POST" None idle
    = (Raise (OtherError "ConnectionError"), w')
    /\ issued w' = 3%nat.
Proof.
  destruct (poll_failure_ends_wait string (failing_server 100)
              (hooks := JobHooks) default_poll_interval default_timeout 5
              "/jobs" None None None "POST" None idle "pending" 100
              job_kwargs 1 (OtherError "ConnectionError") eq_refl eq_refl)
    as [w' [pre [E [I _]]]].
  - unfold default_poll_interval. lia.
  - intros n. unfold failing_server. destruct (Nat.leb n 1); cbn; lia.
  - intros [|i] Hi; [| lia]. exists "pending". split; reflexivity.
  - left. reflexivity.
  - vm_compute. reflexivity.
  - lia.
  - exists w'. split; [exact E | exact I].
Defined.

End PollingErrorProps.

(** ** A connection made from a URL *)

Module UrlConnectionProps.
Import PyStr PyStrFacts Py EndpointM EndpointProps.
Local Open Scope Z_scope.

Section UrlConnection.
Variable urlparse : string -> result ParseResult.
Variable int : string -> option Z.

#[local] Abbreviation _tuple_from_url := (_tuple_from_url urlparse int).
#[local] Abbreviation Connection_init := (Connection_init urlparse int).
#[local] Abbreviation connect := (connect urlparse int).

(** X28. A connection made from a URL connects to that URL: when
    [__init__] is given a URL that [_tuple_from_url] accepts, a later
    [connect()] without arguments (and without a [base_url] attribute)
    builds the transport with the host, the port and the secure flag of
    the URL, whatever host, port and secure flag were passed to
    [__init__] and whatever the caller's keyword arguments hold under
    these names. *)
Theorem url_connection_connects_to_url
    cls secure host port url timeout proxy_url retry_delay backoff
    opt kwargs h p s rp :
  allow_insecure cls = true \/ secure = true ->
  url <> "" ->
  _tuple_from_url url = Ok (h, p, s, rp) ->
  base_url opt = None ->
  exists a kw,
    Connection_init cls secure host port (Some url) timeout proxy_url
      retry_delay backoff = Ok a
    /\ connect a opt None None None kwargs = Ok kw
    /\ kw_get "host" kw = Some (KStr h)
    /\ kw_get "port" kw = Some (KInt p)
    /\ kw_get "secure" kw = Some (KInt s).
Proof.
  intros A N T B. unfold EndpointM.Connection_init.
  assert (Q : negb (allow_insecure cls) && negb secure = false).
  { destruct A as [-> | ->]; [reflexivity | apply andb_false_r]. }
  rewrite Q. cbn [truthy_str]. unfold truthy.
  apply String.eqb_neq in N. rewrite N. cbn [negb]. rewrite T.
  eexists _, _. split; [reflexivity |].
  unfold EndpointM.connect. rewrite B.
  cbn [truthy_str truthy_num andb EndpointM.host EndpointM.port
       EndpointM.secure EndpointM.timeout EndpointM.proxy_url].
  split; [reflexivity |].
  destruct (truthy_str proxy_url),
    (truthy_num (if truthy_num timeout then timeout else cls_timeout cls)),
    (cert_file opt) as [cf|], (key_file opt) as [kf|];
    rewrite ?kw_get_set; repeat split; reflexivity.
Qed.

End UrlConnection.

Lemma url_connection_connects_to_url_witness :
  exists a kw,
    Connection_init simple_urlparse decimal https_only true
      (Some "ignored.invalid") (Some 8443) (Some "http://example.com:8080/v1")
      None None None None = Ok a
    /\ connect simple_urlparse decimal a no_optional None None None
         [("secure", KInt 1)] = Ok kw
    /\ kw_get "host" kw = Some (KStr "example.com")
    /\ kw_get "port" kw = Some (KInt 8080)
    /\ kw_get "secure" kw = Some (KInt 0).
Proof.
  exact (url_connection_connects_to_url simple_urlparse decimal https_only
           true (Some "ignored.invalid") (Some 8443)
           "http://example.com:8080/v1" None None None None no_optional
           [("secure", KInt 1)] "example.com" 8080 0 "/v1"
           (or_intror eq_refl) ltac:(discriminate) eq_refl eq_refl).
Defined.

End UrlConnectionProps.

(** ** [Connection.request]: the type of the headers argument *)

Module PreparationProps.
Import PyStr PyStrFacts Py Urllib UrlEncode Morph ResponseM RawResponseM.
Import ConnectionM ConnectionProps ConnectionToolsM RequestProps.
Local Open Scope py_scope.
Local Open Scope Z_scope.

(** A new object for an optional mapping, going forward. *)
Lemma fresh_mapping_run (arg : option loc) w o :
  match arg with
  | Some l0 => heap w !! l0 = Some o
  | None => o = ODict []
  end ->
  match arg with
  | Some l0 => copy l0
  | None => alloc (ODict [])
  end w
  = (Ok (fresh (dom (heap w))),
     set_heap (<[fresh (dom (heap w)) := o]> (heap w)) w).
Proof.
  destruct arg as [l0|]; intros L.
  - unfold copy, bind, load. rewrite L. reflexivity.
  - subst o. reflexivity.
Qed.

Section Preparation.
Variable json_loads : string -> option json.
Variable xml_parse : parser_call -> xml_outcome.
Variable lowercase_keys : Dict -> Dict.
Variable exception_from_message : Z -> body_obj -> Dict -> exn.
Variable transport : nat -> Exchange -> wire_outcome.
Variable retryCls :
  RetryPolicy -> (ReqArgs -> M World AnyResponse)
  -> ReqArgs -> M World AnyResponse.
Variable g : Globals.

#[local] Abbreviation request :=
  (request (hooks := BaseHooks) json_loads xml_parse lowercase_keys
     exception_from_message transport retryCls g).

(** X29. Headers must be a dictionary.  The parameters of [request] may
    be a list of pairs, the headers may not: when the caller passes a
    list, [request] raises the [AttributeError] of [headers.update]
    before the connection is established and before anything is sent,
    whether retry is on or off; the caller's list is left as it is. *)
Theorem list_headers_rejected
    act params data lh method raw stream retry_failed w l p0 a :
  heap w !! lh = Some (OList l) ->
  match params with
  | Some lp => heap w !! lp = Some p0
  | None => p0 = ODict []
  end ->
  morph_action_hook (urljoin_other g) (ALLOW_PATH_DOUBLE_SLASHES g)
    (request_path (conn w)) act
  = Ok a ->
  exists w',
    request act params data (Some lh) method raw stream retry_failed w
    = (Raise (AttributeError "'list' object has no attribute 'update'"), w')
    /\ sent w' = sent w /\ wire w' = wire w
    /\ connection (conn w') = connection (conn w)
    /\ heap w' !! lh = Some (OList l).
Proof.
  intros L LP M. unfold ConnectionM.request, prepare.
  unfold bind at 1. unfold bind at 1.
  rewrite (fresh_mapping_run params w p0 LP).
  set (l1 := fresh (dom (heap w))).
  set (wa := set_heap (<[l1 := p0]> (heap w)) w).
  assert (N1 : heap w !! l1 = None) by apply not_elem_of_dom, is_fresh.
  assert (D1 : lh <> l1) by (intros ->; rewrite N1 in L; discriminate).
  assert (La : heap wa !! lh = Some (OList l))
    by (cbn; rewrite lookup_insert_ne by auto; exact L).
  unfold bind at 1.
  rewrite (fresh_mapping_run (Some lh) wa (OList l) La).
  set (l2 := fresh (dom (heap wa))).
  set (wb := set_heap (<[l2 := OList l]> (heap wa)) wa).
  assert (N2 : heap wa !! l2 = None) by apply not_elem_of_dom, is_fresh.
  assert (D2 : lh <> l2) by (intros ->; rewrite N2 in La; discriminate).
  assert (D12 : l1 <> l2).
  { intros E. rewrite <- E in N2. cbn in N2.
    rewrite lookup_insert_eq in N2. discriminate. }
  unfold bind at 1, get. unfold bind at 1.
  change (conn wb) with (conn w). rewrite M. unfold ret at 1.
  unfold bind at 1, set_call, modify.
  unfold bind at 1. cbn [add_default_params BaseHooks]. unfold ret at 1.
  unfold bind at 1, get. cbn [conn set_conn cache_busting].
  match goal with
  | |- context [_ (set_conn ?c wb)] => set (ws := set_conn c wb)
  end.
  assert (Lb1 : heap ws !! l1 = Some p0).
  { cbn. rewrite lookup_insert_ne by auto. apply lookup_insert_eq. }
  assert (C : exists wj,
    (if cache_busting (conn wb) && String.eqb method "GET"
     then _add_cache_busting_to_params g l1 else ret l1) ws = (Ok l1, wj)
    /\ heap wj !! l2 = Some (OList l) /\ heap wj !! lh = Some (OList l)
    /\ sent wj = sent w /\ wire wj = wire w
    /\ connection (conn wj) = connection (conn w)).
  { destruct (cache_busting (conn wb) && String.eqb method "GET").
    - unfold _add_cache_busting_to_params, bind, load, store, modify, ret.
      unfold loc in *. rewrite Lb1.
      destruct p0; eexists; (split; [reflexivity |]); cbn;
        rewrite !lookup_insert_ne by auto; rewrite lookup_insert_eq;
        rewrite !lookup_insert_ne by auto; auto.
    - exists ws. split; [reflexivity |]. cbn.
      rewrite lookup_insert_eq, !lookup_insert_ne by auto. auto. }
  destruct C as [wj [E [Lj2 [Ljh [Sj [Wj Cj]]]]]].
  rewrite (bind_run _ _ _ _ _ E).
  unfold bind at 1. cbn [add_default_headers BaseHooks]. unfold ret at 1.
  unfold bind at 1. unfold bind at 1, update at 1, bind at 1, load.
  unfold loc in *. rewrite Lj2. unfold raise.
  exists wj. auto.
Qed.

End Preparation.

Lemma list_headers_rejected_witness :
  exists w',
    request (hooks := BaseHooks) literal_json no_xml same_keys HTTPError
      answers_ok no_retry plain_globals "/servers" (Some 3%positive) None
      (Some 1%positive) "GET" false false None tagged_world
    = (Raise (AttributeError "'list' object has no attribute 'update'"), w')
    /\ sent w' = [].
Proof.
  destruct (list_headers_rejected literal_json no_xml same_keys HTTPError
              answers_ok no_retry plain_globals "/servers" (Some 3%positive)
              None 1%positive "GET" false false None tagged_world
              [("job", VStr "42")]
              (ODict [("limit", VStr "10"); ("cache-busting", VStr "mine")])
              "/servers" eq_refl eq_refl eq_refl) as [w' [E [S _]]].
  exists w'. split; [exact E | exact S].
Defined.

End PreparationProps.

(** ** [XmlResponse.parse_body]: the second attempt *)

Module XmlBodyProps.
Import PyStr Py ResponseM ConnectionToolsM.
Local Open Scope py_scope.
Local Open Scope Z_scope.

Section XmlFacts.
Variable json_loads : string -> option json.
Variable xml_parse : parser_call -> xml_outcome.
Variable lowercase_keys : Dict -> Dict.
Variable exception_from_message : Z -> body_obj -> Dict -> exn.

#[local] Abbreviation Response_init :=
  (Response_init json_loads xml_parse lowercase_keys exception_from_message).

(** X30. [XmlResponse] with a body to parse: [ET.XML] is called on the
    stripped text; it is called a second time, on the encoded bytes,
    exactly when the first call raised [ValueError], and then the second
    result counts.  Any other failure of either call raises
    [MalformedResponseError], also under an error status; a parsed
    document is the object under a success status and the message of the
    mapped error otherwise. *)
Theorem XmlResponse_bytes_fallback cls response log :
  kind cls = XmlResponse ->
  match text response with
  | Some t => strip t <> ""
  | None => False
  end \/ parse_zero_length_body cls = true ->
  Response_init cls response log
  = (match
       match xml_parse (XmlStr match text response with
                               | Some t => strip t
                               | None => ""
                               end) with
       | XValueError =>
           xml_parse (XmlBytes match text response with
                               | Some t => strip t
                               | None => ""
                               end)
       | first => first
       end
     with
     | XParsed x =>
         if success (status_code response)
         then Ok {| headers := lowercase_keys (resp_headers response);
                    error := reason response;
                    status := status_code response;
                    body := match text response with
                            | Some t => strip t
                            | None => ""
                            end;
                    object := BXml x |}
         else Raise (exception_from_message (status_code response) (BXml x)
                       (lowercase_keys (resp_headers response)))
     | _ =>
         Raise (MalformedResponseError "Failed to parse XML"
                  match text response with Some t => strip t | None => "" end)
     end,
     log ++ XmlStr match text response with
                   | Some t => strip t
                   | None => ""
                   end
         :: match xml_parse (XmlStr match text response with
                                    | Some t => strip t
                                    | None => ""
                                    end) with
            | XValueError => [XmlBytes match text response with
                                       | Some t => strip t
                                       | None => ""
                                       end]
            | _ => []
            end).
Proof.
  intros K N. unfold ResponseM.Response_init.
  set (b := match text response with Some t => strip t | None => "" end).
  assert (G : (String.length b =? 0)%nat && negb (parse_zero_length_body cls)
              = false).
  { destruct N as [N | ->]; [| apply andb_false_r].
    subst b. destruct (text response) as [t|]; [| contradiction].
    destruct (strip t); [congruence | reflexivity]. }
  unfold parse_error, parse_body, XmlResponse_parse_body. rewrite K, G.
  unfold bind, log_call, modify, ret, raise.
  destruct (success (status_code response)); cbn [negb];
    destruct (xml_parse (XmlStr b)); cbn [fst snd];
    try destruct (xml_parse (XmlBytes b)); cbn [fst snd];
    rewrite <- ?app_assoc; reflexivity.
Qed.

End XmlFacts.

Lemma XmlResponse_bytes_fallback_witness :
  Response_init literal_json bytes_only_xml same_keys HTTPError
    {| kind := XmlResponse; parse_zero_length_body := false |}
    {| status_code := 200; reason := "OK"; resp_headers := [];
       text := Some " <ok/> "; content := " <ok/> " |} []
  = (Ok {| headers := []; error := "OK"; status := 200; body := "<ok/>";
           object := BXml (Element "ok" [] "" []) |},
     [XmlStr "<ok/>"; XmlBytes "<ok/>"]).
Proof.
  assert (N : strip " <ok/> " <> "") by (vm_compute; discriminate).
  rewrite (XmlResponse_bytes_fallback literal_json bytes_only_xml same_keys
             HTTPError
             {| kind := XmlResponse; parse_zero_length_body := false |}
             {| status_code := 200; reason := "OK"; resp_headers := [];
                text := Some " <ok/> "; content := " <ok/> " |} [] eq_refl
             (or_introl N)).
  vm_compute. reflexivity.
Defined.

End XmlBodyProps.
